(** * vk_api.audio: pagination, pacing and normalisation of bulk audio retrieval

    A shallow embedding of [vk_api/audio.py]: the identity extractor
    ([scrap_ids], [scrap_ids_from_html]), the paced batch resolver
    ([scrap_tracks]), the m3u8 rewrite ([RE_M3U8_TO_MP3]) and the pagination
    drivers ([get_iter], [search_iter], [get_news_iter]).

    Python values decoded from JSON are an inductive type [value]; Python
    exceptions are the [Raise] branch of [result]; generators are run to
    exhaustion in a state monad over a [World] that holds the clock, the
    trace of requests and sleeps, and the items yielded so far. *)

From Stdlib Require Import ZArith QArith List String Ascii Bool Lia Lqa.
From Stdlib Require Import DecimalString.
From Stdlib Require DecimalPos DecimalZ.
Import ListNotations.
Close Scope Q_scope.
Open Scope string_scope.
Open Scope nat_scope.
Open Scope list_scope.

Set Implicit Arguments.
Set Warnings "-register-all".

(* ================================================================== *)
(** ** Python values, exceptions and built-ins *)
(* ================================================================== *)

(** What [json.loads] / [Response.json()] can return (JSON numbers of these
    payloads are integers). A dict is kept as an association list in
    insertion order, as a Python dict is. *)
Inductive value : Type :=
| VNone
| VBool (b : bool)
| VInt (z : Z)
| VStr (s : string)
| VList (l : list value)
| VDict (d : list (string * value)).

(** The exceptions the modelled code can raise. [TransportError] stands for
    whatever the HTTP collaborator raises. *)
Inductive exn : Type :=
| IndexError
| KeyError
| TypeError
| AttributeError
| ValueError
| AccessDenied
| TransportError.

Inductive result (A : Type) : Type :=
| Ok (a : A)
| Raise (e : exn).
Arguments Ok {A} a.
Arguments Raise {A} e.

Module Res.
Definition bind {A B} (r : result A) (f : A -> result B) : result B :=
  match r with
  | Ok a => f a
  | Raise e => Raise e
  end.
End Res.

Declare Scope res_scope.
Delimit Scope res_scope with res.
Notation "x <- c ;; k" := (Res.bind c (fun x => k))
  (at level 61, c at next level, right associativity) : res_scope.

(** [v[i]] for a literal index [i >= 0]. *)
Definition getitem (v : value) (i : nat) : result value :=
  match v with
  | VList l =>
      match nth_error l i with
      | Some x => Ok x
      | None => Raise IndexError
      end
  | VStr s =>
      match String.get i s with
      | Some c => Ok (VStr (String c ""))
      | None => Raise IndexError
      end
  | VDict _ => Raise KeyError
  | _ => Raise TypeError
  end.

Fixpoint assoc (k : string) (d : list (string * value)) : option value :=
  match d with
  | [] => None
  | (k', v) :: d' => if (k' =? k)%string then Some v else assoc k d'
  end.

(** [v[k]] for a string key [k]. *)
Definition getkey (v : value) (k : string) : result value :=
  match v with
  | VDict d =>
      match assoc k d with
      | Some x => Ok x
      | None => Raise KeyError
      end
  | _ => Raise TypeError
  end.

(** [bool(v)]. *)
Definition truthy (v : value) : bool :=
  match v with
  | VNone => false
  | VBool b => b
  | VInt z => negb (z =? 0)%Z
  | VStr s => negb (s =? "")%string
  | VList l => match l with [] => false | _ => true end
  | VDict d => match d with [] => false | _ => true end
  end.

(** [for x in v]: the elements a loop over [v] visits. *)
Definition py_iter (v : value) : result (list value) :=
  match v with
  | VList l => Ok l
  | VStr s => Ok (map (fun c => VStr (String c "")) (list_ascii_of_string s))
  | VDict d => Ok (map (fun kv => VStr (fst kv)) d)
  | _ => Raise TypeError
  end.

(** [len(v)]. *)
Definition py_len (v : value) : result nat :=
  match v with
  | VList l => Ok (List.length l)
  | VStr s => Ok (String.length s)
  | VDict d => Ok (List.length d)
  | _ => Raise TypeError
  end.

(** [s.split(sep)] for a one-character separator. *)
Fixpoint split (sep : ascii) (s : string) : list string :=
  match s with
  | "" => [""]
  | String c s' =>
      if Ascii.eqb c sep then "" :: split sep s'
      else match split sep s' with
           | h :: t => String c h :: t
           | [] => [String c ""]
           end
  end.

(** [v.split(sep)]: only [str] has the method. *)
Definition py_split (sep : ascii) (v : value) : result (list string) :=
  match v with
  | VStr s => Ok (split sep s)
  | _ => Raise AttributeError
  end.

(** [sep.join(l)]. *)
Fixpoint join (sep : string) (l : list string) : string :=
  match l with
  | [] => ""
  | [x] => x
  | x :: rest => (x ++ sep ++ join sep rest)%string
  end.

(** [l[i]] on a Python list of strings. *)
Definition list_get {A} (l : list A) (i : nat) : result A :=
  match nth_error l i with
  | Some x => Ok x
  | None => Raise IndexError
  end.

Fixpoint prefixb (p s : string) : bool :=
  match p, s with
  | "", _ => true
  | String a p', String b s' => Ascii.eqb a b && prefixb p' s'
  | String _ _, "" => false
  end.

(** [needle in s] for two strings. *)
Fixpoint substringb (needle s : string) : bool :=
  prefixb needle s ||
  match s with
  | "" => false
  | String _ s' => substringb needle s'
  end.

(** [needle in v] for a string [needle]. *)
Definition py_in (needle : string) (v : value) : result bool :=
  match v with
  | VStr s => Ok (substringb needle s)
  | VList l =>
      Ok (existsb (fun x => match x with
                            | VStr s => (s =? needle)%string
                            | _ => false
                            end) l)
  | VDict d => Ok (existsb (fun kv => (fst kv =? needle)%string) d)
  | _ => Raise TypeError
  end.

(** [l[start:]] on a list, negative [start] counted from the end. *)
Definition slice_from {A} (start : Z) (l : list A) : list A :=
  if (start <? 0)%Z
  then skipn (Z.to_nat (Z.max 0 (Z.of_nat (List.length l) + start))) l
  else skipn (Z.to_nat start) l.

Fixpoint range_from (fuel start stop step : nat) : list nat :=
  match fuel with
  | O => []
  | S fuel' =>
      if start <? stop
      then start :: range_from fuel' (start + step) stop step
      else []
  end.

(** [range(start, stop, step)] for [step >= 1]. *)
Definition range (start stop step : nat) : list nat :=
  range_from stop start stop step.

(** What the repository takes from other modules and libraries. *)
Record Externals : Type := {
  (** the text between the brackets of [str(list)] and between the braces of
      [str(dict)] *)
  repr_items : list value -> string;
  repr_pairs : list (string * value) -> string;
  (** [BeautifulSoup(markup, 'html.parser').text], for whatever [markup] *)
  soup_text : value -> result string;
  (** [audio_url_decoder.decode_audio_url] *)
  decode_audio_url : value -> Z -> result value;
  (** [json.loads] on a [data-audio] attribute *)
  json_loads : string -> result value
}.

(** [str.strip()] on ASCII white space. *)
Definition is_space (c : ascii) : bool :=
  let n := nat_of_ascii c in
  (n =? 32) || ((9 <=? n) && (n <=? 13)) || ((28 <=? n) && (n <=? 31)).

Fixpoint lstrip (s : string) : string :=
  match s with
  | "" => ""
  | String c s' => if is_space c then lstrip s' else s
  end.

Fixpoint rstrip (s : string) : string :=
  match s with
  | "" => ""
  | String c s' =>
      match rstrip s' with
      | "" => if is_space c then "" else String c ""
      | r => String c r
      end
  end.

Definition strip (s : string) : string := rstrip (lstrip s).

(* ================================================================== *)
(** ** Constants of the module *)
(* ================================================================== *)

Definition RPS_DELAY_RELOAD_AUDIO : Q := 3 # 2.
Definition TRACKS_PER_USER_PAGE : Z := 2000.
Definition TRACKS_PER_ALBUM_PAGE : Z := 2000.

(** [AUDIO_TUPLE]: field name to position. *)
Module AUDIO_TUPLE.
Definition ID : nat := 0.
Definition OWNER_ID : nat := 1.
Definition URL : nat := 2.
Definition TITLE : nat := 3.
Definition PERFORMER : nat := 4.
Definition DURATION : nat := 5.
Definition CONTEXT : nat := 11.
Definition HASHES : nat := 13.
Definition COVER_URL : nat := 14.
End AUDIO_TUPLE.

(** [AudiosSearchOptions] of [enums.py], with its [.value]. *)
Inductive AudiosSearchOptions : Type :=
| GLOBAL_AUDIOS
| MY_MUSIC
| LYRICS.

Definition search_option_value (o : AudiosSearchOptions) : string :=
  match o with
  | GLOBAL_AUDIOS => "search_global_audios"
  | MY_MUSIC => "search_owned_audios"
  | LYRICS => "_global_audios_lyrics"
  end.

(* ================================================================== *)
(** ** IdentityExtractor: [scrap_ids] *)
(* ================================================================== *)

Definition TrackIdentity : Type := (string * string * string * string)%type.

Section Identity.
Variable X : Externals.

(** [str(v)]. *)
Definition py_str (v : value) : string :=
  match v with
  | VNone => "None"
  | VBool true => "True"
  | VBool false => "False"
  | VInt z => NilZero.string_of_int (Z.to_int z)
  | VStr s => s
  | VList l => ("[" ++ repr_items X l ++ "]")%string
  | VDict d => ("{" ++ repr_pairs X d ++ "}")%string
  end.

Definition str_truthy (s : string) : bool := negb (s =? "")%string.

(** [all(full_id)]. *)
Definition all_truthy (full_id : TrackIdentity) : bool :=
  let '(a, b, c, d) := full_id in
  str_truthy a && str_truthy b && str_truthy c && str_truthy d.

(** The body of the loop of [scrap_ids] up to the test: the hashes are
    split first, then the tuple is built left to right. *)
Definition full_id_of (track : value) : result TrackIdentity :=
  (hashes <- getitem track AUDIO_TUPLE.HASHES ;;
   audio_hashes <- py_split "/" hashes ;;
   owner <- getitem track AUDIO_TUPLE.OWNER_ID ;;
   id <- getitem track AUDIO_TUPLE.ID ;;
   h2 <- list_get audio_hashes 2 ;;
   h5 <- list_get audio_hashes 5 ;;
   Ok (py_str owner, py_str id, h2, h5))%res.

Fixpoint scrap_ids_loop (tracks : list value) (ids : list TrackIdentity)
  : result (list TrackIdentity) :=
  match tracks with
  | [] => Ok ids
  | track :: rest =>
      (full_id <- full_id_of track ;;
       scrap_ids_loop rest
         (if all_truthy full_id then ids ++ [full_id] else ids))%res
  end.

Definition scrap_ids (audio_data : value) : result (list TrackIdentity) :=
  (tracks <- py_iter audio_data ;;
   scrap_ids_loop tracks [])%res.

End Identity.

(* ================================================================== *)
(** ** URLNormalizer: [RE_M3U8_TO_MP3] and its substitution *)
(* ================================================================== *)

(** A backtracking matcher in continuation-passing style, with the priority
    order of Python's [re]: greedy repetition tries the longest run first,
    an optional group is tried before it is skipped, and the groups a failed
    alternative had set are forgotten. *)
Module Re.

(** Text of groups 1 and 2; [None] for a group that did not take part. *)
Record caps : Type := { g1 : option string; g2 : option string }.

Definition no_caps : caps := {| g1 := None; g2 := None |}.

Definition answer : Type := (string * caps)%type.
Definition cont : Type := string -> caps -> option answer.
Definition matcher : Type := string -> caps -> cont -> option answer.

Definition chr (p : ascii -> bool) : matcher :=
  fun s c k =>
    match s with
    | String a s' => if p a then k s' c else None
    | "" => None
    end.

Definition seq (m1 m2 : matcher) : matcher :=
  fun s c k => m1 s c (fun s' c' => m2 s' c' k).

Fixpoint lit (l : string) : matcher :=
  match l with
  | "" => fun s c k => k s c
  | String a l' => seq (chr (Ascii.eqb a)) (lit l')
  end.

(** [[p]*], greedy. *)
Fixpoint star (p : ascii -> bool) (s : string) (c : caps) (k : cont)
  : option answer :=
  match s with
  | String a s' =>
      if p a
      then match star p s' c k with
           | Some r => Some r
           | None => k s c
           end
      else k s c
  | "" => k s c
  end.

(** [[p]+], greedy. *)
Definition plus (p : ascii -> bool) : matcher := seq (chr p) (star p).

(** [m?], greedy. *)
Definition opt (m : matcher) : matcher :=
  fun s c k =>
    match m s c k with
    | Some r => Some r
    | None => k s c
    end.

(** The text consumed between [s] and its suffix [s']. *)
Definition consumed (s s' : string) : string :=
  substring 0 (String.length s - String.length s') s.

Definition group1 (m : matcher) : matcher :=
  fun s c k => m s c (fun s' c' => k s' {| g1 := Some (consumed s s'); g2 := g2 c' |}).

Definition group2 (m : matcher) : matcher :=
  fun s c k => m s c (fun s' c' => k s' {| g1 := g1 c'; g2 := Some (consumed s s') |}).

(** [[0-9a-f]]. *)
Definition hex (a : ascii) : bool :=
  let n := nat_of_ascii a in
  ((48 <=? n) && (n <=? 57)) || ((97 <=? n) && (n <=? 102)).

(** [.]: any character but a newline. *)
Definition dot (a : ascii) : bool := negb (nat_of_ascii a =? 10).

(** [re.match] at the start of [s]: the unmatched rest and the groups. *)
Definition match_at (m : matcher) (s : string) : option answer :=
  m s no_caps (fun rest c => Some (rest, c)).

(** [pattern.sub(template, s)] for a pattern that never matches the empty
    string: leftmost matches, left to right, not overlapping. [skip]
    counts the characters of the current match still to be dropped. *)
Fixpoint sub_from (m : matcher) (template : caps -> string)
         (skip : nat) (s : string) : string :=
  match s with
  | "" => ""
  | String a s' =>
      match skip with
      | S n => sub_from m template n s'
      | O =>
          match match_at m s with
          | Some (rest, c) =>
              (template c ++
               sub_from m template
                 (String.length s - String.length rest - 1) s')%string
          | None => String a (sub_from m template 0 s')
          end
      end
  end.

Definition sub (m : matcher) (template : caps -> string) (s : string) : string :=
  sub_from m template 0 s.

End Re.

(** [r'/[0-9a-f]+(/audios)?/([0-9a-f]+)/index.m3u8'] *)
Definition RE_M3U8_TO_MP3 : Re.matcher :=
  Re.seq (Re.lit "/")
 (Re.seq (Re.plus Re.hex)
 (Re.seq (Re.opt (Re.group1 (Re.lit "/audios")))
 (Re.seq (Re.lit "/")
 (Re.seq (Re.group2 (Re.plus Re.hex))
 (Re.seq (Re.lit "/index")
 (Re.seq (Re.chr Re.dot)
         (Re.lit "m3u8"))))))).

(** The template [r'\1/\2.mp3']; a group that did not take part expands to
    the empty string. *)
Definition mp3_template (c : Re.caps) : string :=
  let group g := match g with Some t => t | None => "" end in
  (group (Re.g1 c) ++ "/" ++ group (Re.g2 c) ++ ".mp3")%string.

(** The two lines of [scrap_tracks] that rewrite the link:
    [if convert_m3u8_links and 'm3u8' in link: link = RE_M3U8_TO_MP3.sub(...)]. *)
Definition convert_m3u8 (convert_m3u8_links : bool) (link : value) : result value :=
  if convert_m3u8_links
  then (has <- py_in "m3u8" link ;;
        if (has : bool)
        then match link with
             | VStr s => Ok (VStr (Re.sub RE_M3U8_TO_MP3 mp3_template s))
             | _ => Raise TypeError
             end
        else Ok link)%res
  else Ok link.

(* ================================================================== *)
(** ** The world a generator runs in *)
(* ================================================================== *)

(** A form POST of the HTTP collaborator. *)
Record Request : Type := {
  req_url : string;
  req_data : list (string * value)
}.

Inductive Event : Type :=
| EvPost (r : Request) (start finish : Q)
| EvSleep (secs : Q) (start finish : Q).

(** The dict [scrap_tracks] yields. *)
Record Track : Type := {
  id : value;
  owner_id : value;
  track_covers : list string;
  url : value;
  artist : string;
  title : string;
  duration : value
}.

(** What a driver yields: a resolved track or, in raw mode, the audio tuple. *)
Inductive Item : Type :=
| ITrack (t : Track)
| IRaw (audio : value).

(** The HTTP double and the fake clock: [serve n r] answers the [n]-th POST
    (counted from 0) with the decoded body or an exception, that POST takes
    [latency n] seconds, the [n]-th sleep overshoots by [oversleep n]
    seconds, and the consumer keeps the [n]-th yielded item for [pause n]
    seconds before it asks for the next one. *)
Record Env : Type := {
  serve : nat -> Request -> result value;
  latency : nat -> Q;
  oversleep : nat -> Q;
  pause : nat -> Q
}.

Record World : Type := {
  clock : Q;
  trace : list Event;
  yielded : list Item
}.

Definition is_post (e : Event) : bool :=
  match e with EvPost _ _ _ => true | EvSleep _ _ _ => false end.

Definition is_sleep (e : Event) : bool := negb (is_post e).

(** The requests of a trace, oldest first. *)
Fixpoint requests (t : list Event) : list Request :=
  match t with
  | [] => []
  | EvPost r _ _ :: t' => r :: requests t'
  | EvSleep _ _ _ :: t' => requests t'
  end.

Definition posts (w : World) : nat := List.length (requests (trace w)).
Definition sleeps (w : World) : nat := List.length (filter is_sleep (trace w)).

(** Generators run to exhaustion: a computation that reads and extends the
    world and ends with a value or an exception. *)
Definition M (A : Type) : Type := World -> result A * World.

Module Gen.
Definition ret {A} (a : A) : M A := fun w => (Ok a, w).
Definition raise {A} (e : exn) : M A := fun w => (Raise e, w).
Definition bind {A B} (m : M A) (f : A -> M B) : M B :=
  fun w =>
    match m w with
    | (Ok a, w') => f a w'
    | (Raise e, w') => (Raise e, w')
    end.
Definition lift {A} (r : result A) : M A := fun w => (r, w).
End Gen.

Declare Scope gen_scope.
Delimit Scope gen_scope with gen.
Notation "x <- c ;; k" := (Gen.bind c (fun x => k))
  (at level 61, c at next level, right associativity) : gen_scope.
Notation "c ;;; k" := (Gen.bind c (fun _ => k))
  (at level 61, right associativity) : gen_scope.
Bind Scope gen_scope with M.

Fixpoint for_each {A} (f : A -> M unit) (l : list A) : M unit :=
  match l with
  | [] => Gen.ret tt
  | x :: rest => (f x ;;; for_each f rest)%gen
  end.

(** Whether a generator ran to its end or was cut by the fuel of its loop. *)
Inductive status : Type :=
| Returned
| Running.

Section Effects.
Variable E : Env.

(** [time.time()] *)
Definition time_time : M Q := fun w => (Ok (clock w), w).

(** [time.sleep(secs)] *)
Definition time_sleep (secs : Q) : M unit :=
  fun w =>
    let finish := (clock w + secs + oversleep E (sleeps w))%Q in
    (Ok tt, {| clock := finish;
               trace := trace w ++ [EvSleep secs (clock w) finish];
               yielded := yielded w |}).

(** [http.post(url, data=...)] followed by the decoding of the body. *)
Definition http_post (r : Request) : M value :=
  fun w =>
    let finish := (clock w + latency E (posts w))%Q in
    (serve E (posts w) r,
     {| clock := finish;
        trace := trace w ++ [EvPost r (clock w) finish];
        yielded := yielded w |}).

(** [yield x] *)
Definition yield (x : Item) : M unit :=
  fun w =>
    (Ok tt, {| clock := (clock w + pause E (List.length (yielded w)))%Q;
               trace := trace w;
               yielded := yielded w ++ [x] |}).

End Effects.

(* ================================================================== *)
(** ** RateLimitedBatchResolver: [scrap_tracks] *)
(* ================================================================== *)

Definition id_text (i : TrackIdentity) : string :=
  let '(a, b, c, d) := i in join "_" [a; b; c; d].

(** [[ids[i:i + 10] for i in range(0, len(ids), 10)]] *)
Definition chunks (ids : list TrackIdentity) : list (list TrackIdentity) :=
  map (fun i => firstn 10 (skipn i ids)) (range 0 (List.length ids) 10).

Definition reload_audio_request (ids_group : list TrackIdentity) : Request :=
  {| req_url := "https://m.vk.com/audio";
     req_data := [("act", VStr "reload_audio");
                  ("ids", VStr (join "," (map id_text ids_group)))] |}.

Section Resolver.
Variable X : Externals.
Variable E : Env.

Definition bsoup_trackinfo (performer title : value) : result (string * string) :=
  (p <- soup_text X performer ;;
   stripped <- match title with
               | VStr t => Ok (VStr (strip t))
               | _ => Raise AttributeError
               end ;;
   t <- soup_text X stripped ;;
   Ok (p, t))%res.

(** The body of the inner loop of [scrap_tracks] up to the [yield]. *)
Definition track_of (user_id : Z) (convert_m3u8_links : bool) (audio : value)
  : result Track :=
  (performer <- getitem audio AUDIO_TUPLE.PERFORMER ;;
   title0 <- getitem audio AUDIO_TUPLE.TITLE ;;
   names <- bsoup_trackinfo performer title0 ;;
   duration0 <- getitem audio AUDIO_TUPLE.DURATION ;;
   link <- getitem audio AUDIO_TUPLE.URL ;;
   unavailable <- py_in "audio_api_unavailable" link ;;
   link <- (if (unavailable : bool)
            then decode_audio_url X link user_id
            else Ok link) ;;
   link <- convert_m3u8 convert_m3u8_links link ;;
   id0 <- getitem audio AUDIO_TUPLE.ID ;;
   owner <- getitem audio AUDIO_TUPLE.OWNER_ID ;;
   cover <- getitem audio AUDIO_TUPLE.COVER_URL ;;
   covers <- (if truthy cover then py_split "," cover else Ok []) ;;
   Ok {| id := id0;
         owner_id := owner;
         track_covers := covers;
         url := link;
         artist := fst names;
         title := snd names;
         duration := duration0 |})%res.

Definition yield_track (user_id : Z) (convert_m3u8_links : bool) (audio : value)
  : M unit :=
  (t <- Gen.lift (track_of user_id convert_m3u8_links audio) ;;
   yield E (ITrack t))%gen.

(** What [scrap_tracks] does with the decoded body of one request. *)
Definition handle_result (user_id : Z) (convert_m3u8_links : bool) (result0 : value)
  : M unit :=
  (data <- Gen.lift (getkey result0 "data") ;;
   if truthy data
   then (data_audio <- Gen.lift (getitem data 0) ;;
         audios <- Gen.lift (py_iter data_audio) ;;
         for_each (yield_track user_id convert_m3u8_links) audios)
   else Gen.ret tt)%gen.

(** The pacing at the head of the loop body:
    [delay = RPS_DELAY_RELOAD_AUDIO - (time.time() - last_request)], then
    [time.sleep(delay)] if [delay > 0]. *)
Definition pace (last_request : Q) : M unit :=
  (now <- time_time ;;
   let delay := (RPS_DELAY_RELOAD_AUDIO - (now - last_request))%Q in
   if Qlt_le_dec 0 delay then time_sleep E delay else Gen.ret tt)%gen.

(** The outer loop of [scrap_tracks]; [last_request] is its local. *)
Fixpoint scrap_tracks_loop (user_id : Z) (convert_m3u8_links : bool)
         (groups : list (list TrackIdentity)) (last_request : Q) : M unit :=
  match groups with
  | [] => Gen.ret tt
  | ids_group :: rest =>
      (pace last_request ;;;
       result0 <- http_post E (reload_audio_request ids_group) ;;
       last_request' <- time_time ;;
       handle_result user_id convert_m3u8_links result0 ;;;
       scrap_tracks_loop user_id convert_m3u8_links rest last_request')%gen
  end.

Definition scrap_tracks (ids : list TrackIdentity) (user_id : Z)
           (convert_m3u8_links : bool) : M unit :=
  scrap_tracks_loop user_id convert_m3u8_links (chunks ids) 0%Q.

End Resolver.

(* ================================================================== *)
(** ** IdentityExtractor on HTML: [scrap_ids_from_html] *)
(* ================================================================== *)

(** A [div] of class [audio_item] as BeautifulSoup hands it over: its class
    list and its [data-audio] attribute, if it has one. *)
Record AudioNode : Type := {
  node_class : list string;
  node_data_audio : option string
}.

(** The parse of a page: [None] when [soup.find] with the root filter finds no
    root element, otherwise the [audio_item] divs under the root once the
    [audioPlaylistSnippet__list] subtrees are removed, in document order. *)
Definition Soup : Type := option (list AudioNode).

Section IdentityHtml.
Variable X : Externals.

Fixpoint scrap_ids_from_html_loop (nodes : list AudioNode) (ids : list TrackIdentity)
  : result (list TrackIdentity) :=
  match nodes with
  | [] => Ok ids
  | audio :: rest =>
      if existsb (String.eqb "audio_item_disabled") (node_class audio)
      then scrap_ids_from_html_loop rest ids
      else
        (attr <- match node_data_audio audio with
                 | Some a => Ok a
                 | None => Raise KeyError
                 end ;;
         data_audio <- json_loads X attr ;;
         full_id <- full_id_of X data_audio ;;
         scrap_ids_from_html_loop rest
           (if all_truthy full_id then ids ++ [full_id] else ids))%res
  end.

Definition scrap_ids_from_html (soup : Soup) : result (list TrackIdentity) :=
  match soup with
  | None => Raise ValueError
  | Some nodes => scrap_ids_from_html_loop nodes []
  end.

End IdentityHtml.

(* ================================================================== *)
(** ** PaginationDrivers *)
(* ================================================================== *)

(** The slots of [VkAudio] the drivers read; the HTTP collaborator is the
    [Env] of the run. *)
Record VkAudio : Type := {
  user_id : Z;
  convert_m3u8_links : bool
}.

Definition opt_value {A} (f : A -> value) (o : option A) : value :=
  match o with
  | Some a => f a
  | None => VNone
  end.

(** [l[i] = x] for a list; a [str] rejects item assignment. *)
Fixpoint replace_nth (i : nat) (x : value) (l : list value) : list value :=
  match l, i with
  | [], _ => []
  | _ :: l', O => x :: l'
  | y :: l', S i' => y :: replace_nth i' x l'
  end.

Definition setitem (v : value) (i : nat) (x : value) : result value :=
  match v with
  | VList l => if i <? List.length l then Ok (VList (replace_nth i x l))
               else Raise IndexError
  | _ => Raise TypeError
  end.

(** [response['data'][0]] *)
Definition data0 (response : value) : result value :=
  (d <- getkey response "data" ;; getitem d 0)%res.

(** [json_response['payload'][1][1]] *)
Definition payload11 (json_response : value) : result value :=
  (p <- getkey json_response "payload" ;;
   p1 <- getitem p 1 ;;
   getitem p1 1)%res.

Definition load_catalog_section_request (section_id start_from : value) : Request :=
  {| req_url := "https://vk.com/al_audio.php";
     req_data := [("al", VInt 1);
                  ("act", VStr "load_catalog_section");
                  ("section_id", section_id);
                  ("start_from", start_from)] |}.

Section Drivers.
Variable X : Externals.
Variable E : Env.
Variable self : VkAudio.

(** The raw-mode loop body shared by [get_iter] and [search_iter]: the
    performer and the title of the tuple are replaced, then it is yielded. *)
Definition yield_raw (i : value) : M unit :=
  (i' <- Gen.lift
           (performer <- getitem i AUDIO_TUPLE.PERFORMER ;;
            title0 <- getitem i AUDIO_TUPLE.TITLE ;;
            names <- bsoup_trackinfo X performer title0 ;;
            i1 <- setitem i AUDIO_TUPLE.PERFORMER (VStr (fst names)) ;;
            setitem i1 AUDIO_TUPLE.TITLE (VStr (snd names)))%res ;;
   yield E (IRaw i'))%gen.

(** *** [get_iter] *)

Section GetIter.
Variable owner_id_arg : option Z.
Variable album_id : option Z.
Variable access_hash : option string.
Variable raw : bool.

Definition get_iter_owner : Z :=
  match owner_id_arg with
  | Some o => o
  | None => user_id self
  end.

Definition offset_diff : Z :=
  match album_id with
  | Some _ => TRACKS_PER_ALBUM_PAGE
  | None => TRACKS_PER_USER_PAGE
  end.

Definition load_section_request (offset : Z) : Request :=
  {| req_url := "https://m.vk.com/audio";
     req_data := [("act", VStr "load_section");
                  ("owner_id", VInt get_iter_owner);
                  ("playlist_id",
                    match album_id with
                    | Some a => if (a =? 0)%Z then VInt (-1) else VInt a
                    | None => VInt (-1)
                    end);
                  ("offset", VInt offset);
                  ("type", VStr "playlist");
                  ("access_hash", opt_value VStr access_hash);
                  ("is_loading_all", VInt 1)] |}.

(** One turn of [while True]; [offset] and [response] are the locals. *)
Fixpoint get_iter_loop (fuel : nat) (offset : Z) (response : option value)
  : M status :=
  match fuel with
  | O => Gen.ret Running
  | S fuel' =>
      (go <- match response with
             | None => Gen.ret (Some offset)
             | Some r =>
                 (d0 <- Gen.lift (data0 r) ;;
                  more <- Gen.lift (getkey d0 "hasMore") ;;
                  Gen.ret (if truthy more
                           then Some (offset + offset_diff)%Z
                           else None))
             end ;;
       match go with
       | None => Gen.ret Returned
       | Some offset =>
           response <- http_post E (load_section_request offset) ;;
           d0 <- Gen.lift (data0 response) ;;
           if negb (truthy d0) then Gen.raise AccessDenied
           else
             lst <- Gen.lift (getkey d0 "list") ;;
             if raw
             then
               (items <- Gen.lift (py_iter lst) ;;
                for_each yield_raw items ;;;
                get_iter_loop fuel' offset (Some response))
             else
               (ids <- Gen.lift (scrap_ids X lst) ;;
                match ids with
                | [] => Gen.ret Returned
                | _ =>
                    scrap_tracks X E ids (user_id self)
                                 (convert_m3u8_links self) ;;;
                    d0' <- Gen.lift (data0 response) ;;
                    more <- Gen.lift (getkey d0' "hasMore") ;;
                    if truthy more
                    then get_iter_loop fuel' (offset + offset_diff)%Z
                                       (Some response)
                    else Gen.ret Returned
                end)
       end)%gen
  end.

Definition get_iter (fuel : nat) : M status := get_iter_loop fuel 0%Z None.

End GetIter.

(** *** [search_iter] *)

Section SearchIter.
Variable q : string.
Variable offset : Z.
Variable raw : bool.
Variable search_options : AudiosSearchOptions.

Definition search_request : Request :=
  {| req_url := "https://vk.com/al_audio.php";
     req_data := [("al", VInt 1);
                  ("act", VStr "section");
                  ("claim", VInt 0);
                  ("is_layer", VInt 0);
                  ("owner_id", VInt (user_id self));
                  ("section", VStr "search");
                  ("q", VStr q)] |}.

(** The [for index, playlist in enumerate(...)] loop that chooses
    [desired_index]; falling off the end leaves it at 0. *)
Fixpoint pick_playlist (index : nat) (playlists : list value) : result nat :=
  match playlists with
  | [] => Ok 0
  | playlist :: rest =>
      (ty <- getkey playlist "type" ;;
       skip <- match ty with
               | VStr "search" =>
                   (lst <- getkey playlist "list" ;;
                    n <- py_len lst ;;
                    Ok (n =? 0))
               | _ => Ok true
               end ;;
       if (skip : bool) then pick_playlist (S index) rest
       else
         lst <- getkey playlist "list" ;;
         first <- getitem lst 0 ;;
         context <- getitem first AUDIO_TUPLE.CONTEXT ;;
         found <- py_in (search_option_value search_options) context ;;
         if (found : bool) then Ok index else pick_playlist (S index) rest)%res
  end.

(** [json_response['payload'][1][1]['playlists'][desired_index]] *)
Definition playlist_at (json_response : value) (desired_index : nat) : result value :=
  (s <- payload11 json_response ;;
   pls <- getkey s "playlists" ;;
   getitem pls desired_index)%res.

Definition next_catalog_request (json_response : value) : result Request :=
  (s <- payload11 json_response ;;
   section_id <- getkey s "sectionId" ;;
   s' <- payload11 json_response ;;
   next_from <- getkey s' "nextFrom" ;;
   Ok (load_catalog_section_request section_id next_from))%res.

(** One turn of the [while] loop; [json_response] and [offset_left] are
    the locals. *)
Fixpoint search_iter_loop (fuel : nat) (desired_index : nat)
         (json_response : value) (offset_left : Z) : M status :=
  match fuel with
  | O => Gen.ret Running
  | S fuel' =>
      (playlist <- Gen.lift (playlist_at json_response desired_index) ;;
       if negb (truthy playlist) then Gen.ret Returned
       else
         lst <- Gen.lift (getkey playlist "list") ;;
         ids <- Gen.lift (scrap_ids X lst) ;;
         match ids with
         | [] => Gen.ret Returned
         | _ =>
             ids <-
               (if (offset <=? offset_left + Z.of_nat (List.length ids))%Z
                then
                  let ids :=
                    if (offset_left <? offset)%Z
                    then slice_from (offset - offset_left) ids
                    else ids in
                  (if negb raw
                   then scrap_tracks X E ids (user_id self)
                                     (convert_m3u8_links self)
                   else (items <- Gen.lift (py_iter lst) ;;
                         for_each yield_raw items)) ;;;
                  Gen.ret ids
                else Gen.ret ids) ;;
             let offset_left := (offset_left + Z.of_nat (List.length ids))%Z in
             r <- Gen.lift (next_catalog_request json_response) ;;
             json_response <- http_post E r ;;
             search_iter_loop fuel' desired_index json_response offset_left
         end)%gen
  end.

Definition search_iter (fuel : nat) : M status :=
  (json_response <- http_post E search_request ;;
   s <- Gen.lift (payload11 json_response) ;;
   pls <- Gen.lift (getkey s "playlists") ;;
   playlists <- Gen.lift (py_iter pls) ;;
   desired_index <- Gen.lift (pick_playlist 0 playlists) ;;
   search_iter_loop fuel desired_index json_response 0%Z)%gen.

End SearchIter.

(** *** [get_updates_iter] *)

Definition updates_request : Request :=
  {| req_url := "https://vk.com/al_audio.php";
     req_data := [("al", VInt 1);
                  ("act", VStr "section");
                  ("claim", VInt 0);
                  ("is_layer", VInt 0);
                  ("owner_id", VInt (user_id self));
                  ("section", VStr "updates")] |}.

(** [[i['list'] for i in playlists]] *)
Fixpoint lists_of (playlists : list value) : result (list value) :=
  match playlists with
  | [] => Ok []
  | i :: rest =>
      (l <- getkey i "list" ;;
       ls <- lists_of rest ;;
       Ok (l :: ls))%res
  end.

(** [[i[0] for i in updates if i]] *)
Fixpoint heads_of (updates : list value) : result (list value) :=
  match updates with
  | [] => Ok []
  | i :: rest =>
      if truthy i
      then (h <- getitem i 0 ;;
            hs <- heads_of rest ;;
            Ok (h :: hs))%res
      else heads_of rest
  end.

Fixpoint get_updates_iter_loop (fuel : nat) (json_response : value) : M status :=
  match fuel with
  | O => Gen.ret Running
  | S fuel' =>
      (s <- Gen.lift (payload11 json_response) ;;
       pls <- Gen.lift (getkey s "playlists") ;;
       playlists <- Gen.lift (py_iter pls) ;;
       updates <- Gen.lift (lists_of playlists) ;;
       heads <- Gen.lift (heads_of updates) ;;
       ids <- Gen.lift (scrap_ids X (VList heads)) ;;
       match ids with
       | [] => Gen.ret Returned
       | _ =>
           scrap_tracks X E ids (user_id self) (convert_m3u8_links self) ;;;
           if List.length updates <? 11 then Gen.ret Returned
           else
             r <- Gen.lift (next_catalog_request json_response) ;;
             json_response <- http_post E r ;;
             get_updates_iter_loop fuel' json_response
       end)%gen
  end.

Definition get_updates_iter (fuel : nat) : M status :=
  (json_response <- http_post E updates_request ;;
   get_updates_iter_loop fuel json_response)%gen.

(** *** [get_popular_iter] and [get_news_iter] *)

Definition recoms_request (block : string) : Request :=
  {| req_url := "https://vk.com/audio";
     req_data := [("block", VStr block); ("section", VStr "recoms")] |}.

(** [json_response['sectionData']['recoms']] *)
Definition recoms (json_response : value) : result value :=
  (s <- getkey json_response "sectionData" ;; getkey s "recoms")%res.

(** [json_response['sectionData']['recoms']['playlist']['list']] *)
Definition recoms_list (json_response : value) : result value :=
  (r <- recoms json_response ;;
   p <- getkey r "playlist" ;;
   getkey p "list")%res.

Definition get_popular_iter (offset : Z) : M status :=
  (json_response <- http_post E (recoms_request "chart") ;;
   lst <- Gen.lift (recoms_list json_response) ;;
   ids <- Gen.lift (scrap_ids X lst) ;;
   scrap_tracks X E
     (if (offset =? 0)%Z then ids else slice_from offset ids)
     (user_id self) (convert_m3u8_links self) ;;;
   Gen.ret Returned)%gen.

Section NewsIter.
Variable offset : Z.

(** The [if offset_left + len(ids) >= offset: yield from scrap_tracks(...)]
    statement, which occurs twice in [get_news_iter]. *)
Definition news_page (ids : list TrackIdentity) (offset_left : Z) : M unit :=
  if (offset <=? offset_left + Z.of_nat (List.length ids))%Z
  then scrap_tracks X E
         (if (offset <=? offset_left)%Z then ids
          else slice_from (offset - offset_left) ids)
         (user_id self) (convert_m3u8_links self)
  else Gen.ret tt.

Definition news_next_request (json_response : value) : result Request :=
  (r <- recoms json_response ;;
   section_id <- getkey r "sectionId" ;;
   r' <- recoms json_response ;;
   next_from <- getkey r' "nextFrom" ;;
   Ok (load_catalog_section_request section_id next_from))%res.

Fixpoint get_news_iter_loop (fuel : nat) (json_response : value)
         (offset_left : Z) : M status :=
  match fuel with
  | O => Gen.ret Running
  | S fuel' =>
      (r <- Gen.lift (news_next_request json_response) ;;
       json_response <- http_post E r ;;
       s <- Gen.lift (payload11 json_response) ;;
       p <- Gen.lift (getkey s "playlist") ;;
       lst <- Gen.lift (getkey p "list") ;;
       ids <- Gen.lift (scrap_ids X lst) ;;
       match ids with
       | [] => Gen.ret Returned
       | _ =>
           news_page ids offset_left ;;;
           get_news_iter_loop fuel' json_response
             (offset_left + Z.of_nat (List.length ids))%Z
       end)%gen
  end.

Definition get_news_iter (fuel : nat) : M status :=
  (json_response <- http_post E (recoms_request "new_songs") ;;
   lst <- Gen.lift (recoms_list json_response) ;;
   ids <- Gen.lift (scrap_ids X lst) ;;
   news_page ids 0%Z ;;;
   get_news_iter_loop fuel json_response (0 + Z.of_nat (List.length ids))%Z)%gen.

End NewsIter.

End Drivers.

(* ================================================================== *)
(** * Vocabulary of the properties *)
(* ================================================================== *)

Unset Implicit Arguments.

(** The hashes string of an audio tuple, when the tuple is a list that has a
    string at position 13. *)
Definition hashes_of (track : value) : option string :=
  match track with
  | VList l =>
      match nth_error l AUDIO_TUPLE.HASHES with
      | Some (VStr h) => Some h
      | _ => None
      end
  | _ => None
  end.

Definition tokens_of (track : value) : list string :=
  match hashes_of track with
  | Some h => split "/" h
  | None => []
  end.

(** An audio-record array whose hashes string has tokens 2 and 5. *)
Definition shaped (track : value) : Prop :=
  hashes_of track <> None /\ 6 <= List.length (tokens_of track).

(** The identity as the specification words it: owner and id as strings,
    then hash tokens 2 and 5. *)
Definition field (track : value) (i : nat) : value :=
  match track with
  | VList l => nth i l VNone
  | _ => VNone
  end.

Definition identity_spec (X : Externals) (track : value) : TrackIdentity :=
  (py_str X (field track AUDIO_TUPLE.OWNER_ID),
   py_str X (field track AUDIO_TUPLE.ID),
   nth 2 (tokens_of track) "",
   nth 5 (tokens_of track) "").

Definition all_non_empty (i : TrackIdentity) : Prop :=
  let '(a, b, c, d) := i in a <> "" /\ b <> "" /\ c <> "" /\ d <> "".

Definition short_hashes (track : value) : Prop := List.length (tokens_of track) < 6.

(** The nodes [scrap_ids_from_html] reads: those not flagged as disabled. *)
Definition enabled (n : AudioNode) : Prop :=
  existsb (String.eqb "audio_item_disabled") (node_class n) = false.

(** The record of a node: its [data-audio] attribute, decoded. *)
Definition node_record (X : Externals) (n : AudioNode) : option value :=
  match node_data_audio n with
  | Some a =>
      match json_loads X a with
      | Ok v => Some v
      | Raise _ => None
      end
  | None => None
  end.

Definition node_has_hashes (X : Externals) (n : AudioNode) : Prop :=
  enabled n ->
  exists r, node_record X n = Some r /\ hashes_of r <> None.

Definition node_short (X : Externals) (n : AudioNode) : Prop :=
  enabled n /\ exists r, node_record X n = Some r /\ short_hashes r.

Definition node_long (X : Externals) (n : AudioNode) : Prop :=
  enabled n -> exists r, node_record X n = Some r /\ shaped r.

Fixpoint hex_string (h : string) : bool :=
  match h with
  | "" => true
  | String a h' => Re.hex a && hex_string h'
  end.

(** A non-empty run of [[0-9a-f]]. *)
Definition hex_run (h : string) : Prop := hex_string h = true /\ h <> "".

(** The pattern matches at no position of [s]. *)
Fixpoint matches_nowhere (s : string) : Prop :=
  match s with
  | "" => True
  | String _ s' => Re.match_at RE_M3U8_TO_MP3 s = None /\ matches_nowhere s'
  end.

(** The part of [RE_M3U8_TO_MP3] after the optional group. *)
Definition RE_TAIL : Re.matcher :=
  Re.seq (Re.lit "/")
    (Re.seq (Re.group2 (Re.plus Re.hex))
       (Re.seq (Re.lit "/index") (Re.seq (Re.chr Re.dot) (Re.lit "m3u8")))).

(** Chunking by recursion on the list, to compare [chunks] with. *)
Fixpoint chunk_rec (fuel : nat) (l : list TrackIdentity) : list (list TrackIdentity) :=
  match fuel with
  | O => []
  | S fuel' =>
      match l with
      | [] => []
      | _ :: _ => firstn 10 l :: chunk_rec fuel' (skipn 10 l)
      end
  end.

(** Start and completion time of every request of a trace, oldest first. *)
Fixpoint post_times (t : list Event) : list (Q * Q) :=
  match t with
  | [] => []
  | EvPost _ start finish :: t' => (start, finish) :: post_times t'
  | EvSleep _ _ _ :: t' => post_times t'
  end.

(** Every request starts at least [RPS_DELAY_RELOAD_AUDIO] after the
    completion of the one before it ([last] for the first). *)
Fixpoint paced (last : Q) (l : list (Q * Q)) : Prop :=
  match l with
  | [] => True
  | (start, finish) :: l' =>
      (last + RPS_DELAY_RELOAD_AUDIO <= start)%Q /\ (start <= finish)%Q /\
      paced finish l'
  end.

(** Consecutive requests start at least [RPS_DELAY_RELOAD_AUDIO] apart. *)
Fixpoint spaced (l : list (Q * Q)) : Prop :=
  match l with
  | [] => True
  | (start, _) :: l' =>
      match l' with
      | [] => True
      | (start', _) :: _ => (start + RPS_DELAY_RELOAD_AUDIO <= start')%Q
      end /\ spaced l'
  end.

(** The shape of the trace of one [scrap_tracks] call: each request either
    starts when at least the delay has elapsed since [last], or directly
    follows a sleep for the remainder of the delay. *)
Inductive pacing (last : Q) : list Event -> Prop :=
| pacing_nil : pacing last []
| pacing_direct r start finish rest :
    (RPS_DELAY_RELOAD_AUDIO - (start - last) <= 0)%Q ->
    pacing finish rest ->
    pacing last (EvPost r start finish :: rest)
| pacing_sleep secs t0 t1 r finish rest :
    (0 < RPS_DELAY_RELOAD_AUDIO - (t0 - last))%Q ->
    secs = (RPS_DELAY_RELOAD_AUDIO - (t0 - last))%Q ->
    pacing finish rest ->
    pacing last (EvSleep secs t0 t1 :: EvPost r t1 finish :: rest).

(** An HTTP double and clock that behave: requests take no negative time and
    a sleep lasts at least as long as asked. *)
Definition fair (E : Env) : Prop :=
  (forall n, (0 <= latency E n)%Q) /\ (forall n, (0 <= oversleep E n)%Q).

(** A computation that issues no request and does not sleep. *)
Definition quiet {A} (m : M A) : Prop := forall w, trace (snd (m w)) = trace w.

(** *** Test doubles *)

Module Double.

(** Collaborators that do nothing: markup text is the markup itself when
    it is a string, nothing needs decoding, and no attribute parses. *)
Definition externals : Externals :=
  {| repr_items := fun _ => "";
     repr_pairs := fun _ => "";
     soup_text := fun v => match v with
                           | VStr s => Ok s
                           | _ => Raise TypeError
                           end;
     decode_audio_url := fun link _ => Ok link;
     json_loads := fun _ => Raise ValueError |}.

(** A server that answers request [n] with [script n], at once, on a clock
    that never overshoots. *)
Definition scripted (script : nat -> result value) : Env :=
  {| serve := fun n _ => script n;
     latency := fun _ => 0%Q;
     oversleep := fun _ => 0%Q;
     pause := fun _ => 0%Q |}.

(** The same server, slow: a request takes a quarter of a second and the
    consumer keeps each item for one second. *)
Definition slow (script : nat -> result value) : Env :=
  {| serve := fun n _ => script n;
     latency := fun _ => (1 # 4)%Q;
     oversleep := fun _ => (1 # 100)%Q;
     pause := fun _ => 1%Q |}.

Definition start_at (t : Q) : World := {| clock := t; trace := []; yielded := [] |}.

(** An audio tuple of 15 fields with the given id, owner, url and hashes. *)
Definition audio (id0 owner : Z) (link hashes : string) : value :=
  VList [VInt id0; VInt owner; VStr link; VStr "title"; VStr "artist";
         VInt 180; VInt 0; VNone; VStr ""; VStr ""; VInt 0;
         VStr "search_global_audios"; VStr ""; VStr hashes; VStr ""].

Definition hashes6 : string := "a/b/h2/c/d/h5".

(** A reload answer whose data envelope holds the given tuples. *)
Definition reloaded (audios : list value) : value :=
  VDict [("data", VList [VList audios])].

Definition identity (n : Z) : TrackIdentity :=
  (NilZero.string_of_int (Z.to_int n), "1", "h2", "h5").

Definition identities (n : nat) : list TrackIdentity :=
  map (fun k => identity (Z.of_nat k)) (seq 0 n).

(** [count] audio tuples with ids [from], [from + 1], ... *)
Definition audios (from count : nat) : list value :=
  map (fun k => audio (Z.of_nat k) 1 "https://h/x.mp3" hashes6) (seq from count).

(** A listing answer: [{"data": [{"hasMore": more, "list": audios}]}]. *)
Definition listing (more : Z) (l : list value) : value :=
  VDict [("data", VList [VDict [("hasMore", VInt more); ("list", VList l)]])].

(** A search or catalog answer with one playlist of type [search]. *)
Definition catalog (l : list value) (next_from : string) : value :=
  VDict [("payload",
          VList [VInt 0;
                 VList [VStr "";
                        VDict [("playlists",
                                VList [VDict [("type", VStr "search");
                                              ("list", VList l)]]);
                               ("sectionId", VStr "section");
                               ("nextFrom", VStr next_from)]]])].

Definition me : VkAudio := {| user_id := 1; convert_m3u8_links := true |}.

(** Two listing pages of one track each; the first reports more pages. *)
Definition two_pages (n : nat) : result value :=
  match n with
  | 0 => Ok (listing 1 (audios 0 1))
  | 1 => Ok (reloaded (audios 0 1))
  | 2 => Ok (listing 0 (audios 1 1))
  | _ => Ok (reloaded (audios 1 1))
  end.

(** The same two pages as a raw-mode run sees them. *)
Definition two_raw_pages (n : nat) : result value :=
  match n with
  | 0 => Ok (listing 1 (audios 0 1))
  | _ => Ok (listing 0 (audios 1 1))
  end.

(** Two search pages of five identities each, the answer to the one
    reload request a run with offset 7 issues, and an empty third page. *)
Definition five_and_five (n : nat) : result value :=
  match n with
  | 0 => Ok (catalog (audios 1 5) "p2")
  | 1 => Ok (catalog (audios 6 5) "p3")
  | 2 => Ok (reloaded (audios 8 3))
  | _ => Ok (catalog [] "")
  end.

(** The raw-mode run issues no reload request. *)
Definition five_and_five_raw (n : nat) : result value :=
  match n with
  | 0 => Ok (catalog (audios 1 5) "p2")
  | 1 => Ok (catalog (audios 6 5) "p3")
  | _ => Ok (catalog [] "")
  end.

(** Listing pages that all report more pages and hold no track. *)
Definition endless_empty_pages (n : nat) : result value :=
  Ok (listing 1 []).

(** A script of two listing pages without tracks that report more pages;
    once it is used up the collaborator raises. *)
Definition two_empty_pages (n : nat) : result value :=
  match n with
  | 0 | 1 => Ok (listing 1 [])
  | _ => Raise TransportError
  end.

(** Collaborators whose [json.loads] reads the attribute "short" as a
    tuple with a three-token hashes string and "long" as one with six. *)
Definition decoding : Externals :=
  {| repr_items := repr_items externals;
     repr_pairs := repr_pairs externals;
     soup_text := soup_text externals;
     decode_audio_url := decode_audio_url externals;
     json_loads := fun a =>
                     if (a =? "short")%string then Ok (audio 3 1 "" "a/b/c")
                     else if (a =? "long")%string then Ok (audio 4 1 "" hashes6)
                     else Raise ValueError |}.

Definition item (a : string) : AudioNode :=
  {| node_class := ["audio_item"]; node_data_audio := Some a |}.

Definition disabled_item : AudioNode :=
  {| node_class := ["audio_item"; "audio_item_disabled"];
     node_data_audio := Some "short" |}.

(** The same two search pages as a run with offset 4 sees them: it resolves
    one identity of the first page, then identities of the second. *)
Definition five_and_five_from_4 (n : nat) : result value :=
  match n with
  | 0 => Ok (catalog (audios 1 5) "p2")
  | 1 => Ok (reloaded (audios 5 1))
  | 2 => Ok (catalog (audios 6 5) "p3")
  | 3 => Ok (reloaded (audios 9 2))
  | _ => Ok (catalog [] "")
  end.

(** A listing of two pages with a track each, the second of which reports
    no more pages, on a server that would go on with pages that report more
    if it were asked again. *)
Definition last_page_then_more (n : nat) : result value :=
  match n with
  | 0 => Ok (listing 1 (audios 0 1))
  | 1 => Ok (reloaded (audios 0 1))
  | 2 => Ok (listing 0 (audios 1 1))
  | 3 => Ok (reloaded (audios 1 1))
  | _ => Ok (listing 1 (audios 2 1))
  end.

End Double.

(** The [offset] field of the listing requests of a trace, oldest first. *)
Definition offset_of (r : Request) : list value :=
  match assoc "act" (req_data r), assoc "offset" (req_data r) with
  | Some (VStr "load_section"), Some o => [o]
  | _, _ => []
  end.

Definition offsets_sent (t : list Event) : list value :=
  flat_map offset_of (requests t).

(** The [id] of the tracks among yielded items. *)
Definition yielded_ids (items : list Item) : list value :=
  flat_map (fun x => match x with
                     | ITrack t => [id t]
                     | IRaw a => match getitem a AUDIO_TUPLE.ID with
                                 | Ok i => [i]
                                 | Raise _ => []
                                 end
                     end) items.

(** *** Vocabulary of termination *)

(** A run that is over: the generator returned or raised. *)
Definition halts (x : result status * World) : Prop := fst x <> Ok Running.

(** A listing answer that reports no more pages: [hasMore] is falsy. *)
Definition no_more_pages (r : value) : Prop :=
  exists d0 more,
    data0 r = Ok d0 /\ getkey d0 "hasMore" = Ok more /\ truthy more = false.

(** A listing answer whose tuples give no identity. *)
Definition no_identities (X : Externals) (r : value) : Prop :=
  exists d0 lst,
    data0 r = Ok d0 /\ getkey d0 "list" = Ok lst /\ scrap_ids X lst = Ok [].

(** The answer to a listing request after which [get_iter] asks for no
    further page: an exception, no more pages or, outside raw mode, no
    identities. *)
Definition ends_listing (X : Externals) (raw : bool) (a : result value) : Prop :=
  match a with
  | Raise _ => True
  | Ok r => no_more_pages r \/ (raw = false /\ no_identities X r)
  end.

(** A catalog answer whose chosen playlist gives no identity. *)
Definition no_identities_at (X : Externals) (desired_index : nat) (r : value) : Prop :=
  exists playlist lst,
    playlist_at r desired_index = Ok playlist
    /\ getkey playlist "list" = Ok lst
    /\ scrap_ids X lst = Ok [].

Definition ends_search (X : Externals) (desired_index : nat) (a : result value) : Prop :=
  match a with
  | Raise _ => True
  | Ok r => no_identities_at X desired_index r
  end.

(** A catalog answer of the news feed whose playlist gives no identity. *)
Definition no_news (X : Externals) (r : value) : Prop :=
  exists s p lst,
    payload11 r = Ok s /\ getkey s "playlist" = Ok p /\ getkey p "list" = Ok lst
    /\ scrap_ids X lst = Ok [].

Definition ends_news (X : Externals) (a : result value) : Prop :=
  match a with
  | Raise _ => True
  | Ok r => no_news X r
  end.

(** The identities and the number of playlists [get_updates_iter] reads
    from an answer. *)
Definition updates_of (X : Externals) (r : value)
  : result (list TrackIdentity * nat) :=
  (s <- payload11 r ;;
   pls <- getkey s "playlists" ;;
   playlists <- py_iter pls ;;
   updates <- lists_of playlists ;;
   heads <- heads_of updates ;;
   ids <- scrap_ids X (VList heads) ;;
   Ok (ids, List.length updates))%res.

(** An updates answer with no identities or fewer than 11 playlists. *)
Definition ends_updates (X : Externals) (a : result value) : Prop :=
  match a with
  | Raise _ => True
  | Ok r => exists ids n, updates_of X r = Ok (ids, n) /\ (ids = [] \/ n < 11)
  end.

(** What follows a page in [search_iter]: the request for the next page and
    the next turn of the loop with the new running total. *)
Definition next_page (X : Externals) (E : Env) (self : VkAudio) (offset : Z)
           (raw : bool) (fuel di : nat) (jr : value) (offset_left : Z) : M status :=
  (r <- Gen.lift (next_catalog_request jr) ;;
   jr' <- http_post E r ;;
   search_iter_loop X E self offset raw fuel di jr' offset_left)%gen.

(** The raw tuple with performer and title replaced by their text. *)
Definition unescape (X : Externals) (i : value) : result value :=
  (performer <- getitem i AUDIO_TUPLE.PERFORMER ;;
   title0 <- getitem i AUDIO_TUPLE.TITLE ;;
   names <- bsoup_trackinfo X performer title0 ;;
   i1 <- setitem i AUDIO_TUPLE.PERFORMER (VStr (fst names)) ;;
   setitem i1 AUDIO_TUPLE.TITLE (VStr (snd names)))%res.

(** The [ids] field of the resolving requests of a trace, oldest first. *)
Definition ids_of (r : Request) : list value :=
  match assoc "act" (req_data r), assoc "ids" (req_data r) with
  | Some (VStr "reload_audio"), Some i => [i]
  | _, _ => []
  end.

Definition resolved (t : list Event) : list value :=
  flat_map ids_of (requests t).

(** *** Vocabulary of the search pages *)

(** [desired_index] as [search_iter] chooses it from its first answer. *)
Definition search_index (so : AudiosSearchOptions) (jr : value) : result nat :=
  (s <- payload11 jr ;;
   pls <- getkey s "playlists" ;;
   playlists <- py_iter pls ;;
   pick_playlist so 0 playlists)%res.

(** A search page with identities: the chosen playlist of [jr] is truthy,
    its list is [lst], and the list gives the identities [ids], at least
    one. *)
Definition search_page (X : Externals) (di : nat) (jr lst : value)
           (ids : list TrackIdentity) : Prop :=
  exists playlist,
    playlist_at jr di = Ok playlist
    /\ truthy playlist = true
    /\ getkey playlist "list" = Ok lst
    /\ scrap_ids X lst = Ok ids
    /\ ids <> [].

(** The first of the pages, [next] when there is none. *)
Definition first_page (pages : list (value * list TrackIdentity)) (next : value)
  : value :=
  match pages with
  | [] => next
  | (jr, _) :: _ => jr
  end.

(** Successive search pages with their identities: each has identities, and
    the request for the page after it, when it is the [n]-th, [n+1]-th, ...
    request the server gets, is answered by the next page of the list, the
    last one by [next]. *)
Fixpoint successive_pages (X : Externals) (E : Env) (di : nat) (n : nat)
         (pages : list (value * list TrackIdentity)) (next : value) : Prop :=
  match pages with
  | [] => True
  | (jr, ids) :: rest =>
      (exists lst, search_page X di jr lst ids)
      /\ (exists r, next_catalog_request jr = Ok r
                    /\ serve E n r = Ok (first_page rest next))
      /\ successive_pages X E di (S n) rest next
  end.

(** The number of identities of the pages. *)
Fixpoint identities_in (pages : list (value * list TrackIdentity)) : Z :=
  match pages with
  | [] => 0
  | (_, ids) :: rest => (Z.of_nat (List.length ids) + identities_in rest)%Z
  end.

(** *** The pages a run receives *)

(** Whether a request asks for a page: every request of a driver does,
    but the resolving requests of [scrap_tracks]. *)
Definition is_page (r : Request) : bool :=
  match assoc "act" (req_data r) with
  | Some (VStr a) => negb (a =? "reload_audio")%string
  | _ => true
  end.

(** The answers of [E] to the page requests among [rs], in order, [rs]
    being sent as the [n]-th, [n+1]-th, ... request [E] serves. *)
Fixpoint page_answers (E : Env) (n : nat) (rs : list Request) : list (result value) :=
  match rs with
  | [] => []
  | r :: rs' =>
      (if is_page r then [serve E n r] else []) ++ page_answers E (S n) rs'
  end.

(** The pages received up to the world [w], oldest first. *)
Definition pages_received (E : Env) (w : World) : list (result value) :=
  page_answers E 0 (requests (trace w)).

(** What holds of the world of a run that the fuel has cut. *)
Definition when_running (P : World -> Prop) (x : result status * World) : Prop :=
  fst x = Ok Running -> P (snd x).

(** The world of a run that has received [m] more pages than the world [w],
    of which all but the last [pending] have been judged and found not to
    end the driver. *)
Definition went_on (E : Env) (ends : result value -> Prop) (w : World)
           (m pending : nat) (w' : World) : Prop :=
  exists answers,
    pages_received E w' = pages_received E w ++ answers
    /\ List.length answers = m
    /\ forall i a, i + pending < m -> nth_error answers i = Some a -> ~ ends a.

(** [ends_search] for the playlist that [search_iter] chose on its first
    page. *)
Definition ends_search_of (X : Externals) (so : AudiosSearchOptions)
           (first a : result value) : Prop :=
  forall jr di, first = Ok jr -> search_index so jr = Ok di -> ends_search X di a.

(* ================================================================== *)
(** * More of the module *)
(* ================================================================== *)

(** The records [scrap_ids_from_html] decodes: the [data-audio] attribute of
    every node that is not flagged as disabled, in document order; a node
    whose attribute is missing or does not decode contributes nothing. *)
Fixpoint enabled_records (X : Externals) (nodes : list AudioNode) : list value :=
  match nodes with
  | [] => []
  | n :: rest =>
      if existsb (String.eqb "audio_item_disabled") (node_class n)
      then enabled_records X rest
      else match node_record X n with
           | Some r => r :: enabled_records X rest
           | None => enabled_records X rest
           end
  end.

(** Every enabled node has a [data-audio] attribute that decodes. *)
Definition decodable (X : Externals) (n : AudioNode) : Prop :=
  enabled n -> node_record X n <> None.

(** The offsets [start], [start + step], [start + 2 step], ... ([m] of them)
    as they appear in the form of a listing request. *)
Definition progression (start step : Z) (m : nat) : list value :=
  map (fun k => VInt (start + step * Z.of_nat k)) (seq 0 m).

(** The distance between the offsets of two successive listing requests of
    [get_iter]. *)
Definition listing_step (album_id : option Z) (raw : bool) : Z :=
  if raw then offset_diff album_id else (2 * offset_diff album_id)%Z.

(** The identities [get_news_iter] hands to [scrap_tracks] for a page whose
    identities are [ids] when the running total is [offset_left]: the
    argument of the call, and none when the call is skipped. *)
Definition news_slice (offset : Z) (ids : list TrackIdentity) (offset_left : Z)
  : list TrackIdentity :=
  if (offset <=? offset_left + Z.of_nat (List.length ids))%Z
  then if (offset <=? offset_left)%Z then ids
       else slice_from (offset - offset_left) ids
  else [].

(** The slices of successive pages, the running total growing by the whole
    page as in the loop of [get_news_iter]. *)
Fixpoint news_slices (offset : Z) (pages : list (list TrackIdentity)) (offset_left : Z)
  : list (list TrackIdentity) :=
  match pages with
  | [] => []
  | ids :: rest =>
      news_slice offset ids offset_left
      :: news_slices offset rest (offset_left + Z.of_nat (List.length ids))%Z
  end.

(** The identities of a page that [get_news_iter] asks for in its loop. *)
Definition news_ids (X : Externals) (jr : value) : result (list TrackIdentity) :=
  (s <- payload11 jr ;;
   p <- getkey s "playlist" ;;
   lst <- getkey p "list" ;;
   scrap_ids X lst)%res.

(** Successive pages of the news feed after the page [jr], each with the
    request that asks for it, the answer and its identities: the request is
    the one made from the page before, the server answers it with the page
    whenever it is sent, and the page has identities. *)
Fixpoint news_pages (X : Externals) (E : Env) (jr : value)
         (pages : list (Request * value * list TrackIdentity)) : Prop :=
  match pages with
  | [] => True
  | (r, jr', ids) :: rest =>
      news_next_request jr = Ok r
      /\ (forall n, serve E n r = Ok jr')
      /\ news_ids X jr' = Ok ids
      /\ ids <> []
      /\ news_pages X E jr' rest
  end.

(** The last of the pages after [jr], [jr] itself when there is none. *)
Fixpoint last_news_page (jr : value)
         (pages : list (Request * value * list TrackIdentity)) : value :=
  match pages with
  | [] => jr
  | (_, jr', _) :: rest => last_news_page jr' rest
  end.

(** The number of identities of the pages. *)
Fixpoint news_total (pages : list (list TrackIdentity)) : Z :=
  match pages with
  | [] => 0
  | ids :: rest => (Z.of_nat (List.length ids) + news_total rest)%Z
  end.

(** A page is asked for and the given identities are resolved. *)
Definition resolve_page (X : Externals) (E : Env) (self : VkAudio)
           (page : Request * list TrackIdentity) : M unit :=
  (_ <- http_post E (fst page) ;;
   scrap_tracks X E (snd page) (user_id self) (convert_m3u8_links self))%gen.

(** Answers of the news feed: the first page, as [scrap_json] gives it, and
    a catalog page. *)
Module NewsDouble.

Definition first_page (l : list value) : value :=
  VDict [("sectionData",
          VDict [("recoms",
                  VDict [("playlist", VDict [("list", VList l)]);
                         ("sectionId", VStr "section");
                         ("nextFrom", VStr "p2")])])].

Definition catalog_page (l : list value) : value :=
  VDict [("payload",
          VList [VInt 0;
                 VList [VStr "";
                        VDict [("playlist", VDict [("list", VList l)]);
                               ("sectionId", VStr "section");
                               ("nextFrom", VStr "p3")]]])].

(** A first page without tracks, then a catalog page with one track and the
    answer to its reload request. *)
Definition script (n : nat) : result value :=
  match n with
  | 0 => Ok (first_page [])
  | 1 => Ok (catalog_page (Double.audios 1 1))
  | _ => Ok (Double.reloaded (Double.audios 1 1))
  end.

(** A server that answers by the request: the first page of the feed has
    the tracks 1 and 2, the page after it the tracks 3 and 4. *)
Definition by_request : Env :=
  {| serve := fun _ r =>
                if (req_url r =? "https://vk.com/audio")%string
                then Ok (first_page (Double.audios 1 2))
                else match assoc "act" (req_data r) with
                     | Some (VStr "load_catalog_section") =>
                         Ok (catalog_page (Double.audios 3 2))
                     | _ => Ok (Double.reloaded (Double.audios 4 1))
                     end;
     latency := fun _ => 0%Q;
     oversleep := fun _ => 0%Q;
     pause := fun _ => 0%Q |}.

End NewsDouble.

(* ================================================================== *)
(** ** [search_user] *)
(* ================================================================== *)

(** [list(generator)]: the generator is run to its end and the items it
    yields are the elements of the list; the caller's own items stay as
    they are. *)
Definition collect (m : M unit) : M (list Item) :=
  fun w =>
    let run := m {| clock := clock w; trace := trace w; yielded := [] |} in
    let w' := {| clock := clock (snd run);
                 trace := trace (snd run);
                 yielded := yielded w |} in
    match fst run with
    | Ok _ => (Ok (yielded (snd run)), w')
    | Raise e => (Raise e, w')
    end.

Definition search_user_request (owner_id0 : Z) (q : string) : Request :=
  {| req_url := "https://vk.com/al_audio.php";
     req_data := [("al", VInt 1);
                  ("act", VStr "section");
                  ("claim", VInt 0);
                  ("is_layer", VInt 0);
                  ("owner_id", VInt owner_id0);
                  ("section", VStr "search");
                  ("q", VStr q)] |}.

Section SearchUser.
Variable X : Externals.
Variable E : Env.
Variable self : VkAudio.

Definition search_user (owner_id_arg : option Z) (q : string) : M (list Item) :=
  let owner_id0 := match owner_id_arg with
                   | Some o => o
                   | None => user_id self
                   end in
  (json_response <- http_post E (search_user_request owner_id0 q) ;;
   p <- Gen.lift (getkey json_response "payload") ;;
   p1 <- Gen.lift (getitem p 1) ;;
   if negb (truthy p1) then Gen.raise AccessDenied
   else
     s <- Gen.lift (payload11 json_response) ;;
     playlists <- Gen.lift (getkey s "playlists") ;;
     if truthy playlists
     then
       s' <- Gen.lift (payload11 json_response) ;;
       playlists' <- Gen.lift (getkey s' "playlists") ;;
       first <- Gen.lift (getitem playlists' 0) ;;
       lst <- Gen.lift (getkey first "list") ;;
       ids <- Gen.lift (scrap_ids X lst) ;;
       collect (scrap_tracks X E ids (user_id self) (convert_m3u8_links self))
     else Gen.ret [])%gen.

End SearchUser.

(* ================================================================== *)
(** ** [base36encode] *)
(* ================================================================== *)

Definition alphabet : string := "0123456789abcdefghijklmnopqrstuvwxyz".

(** The [while number != 0] loop; [None] when the fuel runs out. The
    subscript [alphabet[i]] cannot fail: [divmod] by 36 gives
    [0 <= i < 36]. *)
Fixpoint base36_loop (fuel : nat) (number : Z) (base36 : string) : option string :=
  match fuel with
  | O => if (number =? 0)%Z then Some base36 else None
  | S fuel' =>
      if (number =? 0)%Z then Some base36
      else
        let i := (number mod 36)%Z in
        let number' := (number / 36)%Z in
        match String.get (Z.to_nat i) alphabet with
        | Some c => base36_loop fuel' number' (String c base36)
        | None => None
        end
  end.

(** [base36encode()]. Its one input is the clock: [number] is the integer
    [int(time.time() * 1000)] the interpreter computes from it in floating
    point, taken here as given. *)
Definition base36encode (fuel : nat) (number : Z) : option string :=
  base36_loop fuel number "".

(** Reading a base-36 numeral, to state what [base36encode] writes. *)
Fixpoint index_of (c : ascii) (s : string) : nat :=
  match s with
  | "" => 0
  | String c' s' => if Ascii.eqb c c' then 0 else S (index_of c s')
  end.

Definition digit36 (c : ascii) : Z := Z.of_nat (index_of c alphabet).

Fixpoint base36decode_from (acc : Z) (s : string) : Z :=
  match s with
  | "" => acc
  | String c s' => base36decode_from (acc * 36 + digit36 c) s'
  end.

Definition base36decode (s : string) : Z := base36decode_from 0 s.

(* ================================================================== *)
(** ** The table [AUDIO_TUPLE] as a dict *)
(* ================================================================== *)

(** A Python dict whose keys are strings and integers, in insertion
    order. *)
Definition pydict : Type := list (value * value).

Definition key_eqb (a b : value) : bool :=
  match a, b with
  | VStr x, VStr y => (x =? y)%string
  | VInt x, VInt y => (x =? y)%Z
  | _, _ => false
  end.

(** [d[k]], [None] for KeyError. *)
Fixpoint dict_get (d : pydict) (k : value) : option value :=
  match d with
  | [] => None
  | (k', v) :: d' => if key_eqb k' k then Some v else dict_get d' k
  end.

(** [d[k] = v]: an existing key keeps its place. *)
Fixpoint dict_set (d : pydict) (k v : value) : pydict :=
  match d with
  | [] => [(k, v)]
  | (k', v') :: d' =>
      if key_eqb k' k then (k', v) :: d' else (k', v') :: dict_set d' k v
  end.

(** [d.update(other)] *)
Definition dict_update (d other : pydict) : pydict :=
  fold_left (fun acc kv => dict_set acc (fst kv) (snd kv)) other d.

(** [{v: k for k, v in d.items()}] *)
Definition inverted (d : pydict) : pydict :=
  fold_left (fun acc kv => dict_set acc (snd kv) (fst kv)) d [].

(** A name-to-position table as the dict literal of the source writes it. *)
Definition dict_of (table : list (string * Z)) : pydict :=
  fold_left (fun acc kv => dict_set acc (VStr (fst kv)) (VInt (snd kv))) table [].

(** The dict literal bound to [AUDIO_TUPLE]. *)
Definition AUDIO_TUPLE_names : list (string * Z) :=
  [("ID", 0); ("OWNER_ID", 1); ("URL", 2); ("TITLE", 3); ("PERFORMER", 4);
   ("DURATION", 5); ("ALBUM_ID", 6); ("AUTHOR_LINK", 8); ("LYRICS", 9);
   ("FLAGS", 10); ("CONTEXT", 11); ("EXTRA", 12); ("HASHES", 13);
   ("COVER_URL", 14); ("ADS", 15); ("SUBTITLE", 16); ("MAIN_ARTISTS", 17);
   ("FEAT_ARTISTS", 18); ("ALBUM", 19); ("TRACK_CODE", 20);
   ("RESTRICTION", 21); ("ALBUM_PART", 22); ("ACCESS_KEY", 24);
   ("CHART_INFO", 25); ("TRACK_PAGE_ID", 26); ("IS_ORIGINAL_SOUND", 27);
   ("ADMIN_URL", 28); ("UMA_QUERY_URL", 29)]%Z.

(** [AUDIO_TUPLE] after
    [AUDIO_TUPLE.update({v: k for k, v in AUDIO_TUPLE.items()})]. *)
Definition AUDIO_TUPLE_dict : pydict :=
  dict_update (dict_of AUDIO_TUPLE_names) (inverted (dict_of AUDIO_TUPLE_names)).

(** The entries a table and its inverse contribute to the dict. *)
Definition name_entry (kv : string * Z) : value * value := (VStr (fst kv), VInt (snd kv)).
Definition position_entry (kv : string * Z) : value * value := (VInt (snd kv), VStr (fst kv)).

(** No two elements of a list are equal, decided by [eqb]. *)
Fixpoint distinctb {A} (eqb : A -> A -> bool) (l : list A) : bool :=
  match l with
  | [] => true
  | x :: rest => negb (existsb (eqb x) rest) && distinctb eqb rest
  end.

(** The values that occur as keys. *)
Definition is_key (k : value) : Prop :=
  match k with
  | VStr _ | VInt _ => True
  | _ => False
  end.

(** The keys of a dict are pairwise different. *)
Definition fresh_keys (d : pydict) : Prop :=
  ForallOrdPairs (fun a b => key_eqb (fst a) (fst b) = false) d.

(* ================================================================== *)
(** ** Albums: [scrap_albums] and [get_albums_iter] *)
(* ================================================================== *)

(** [\d] and [\w] on ASCII text. *)
Definition digit (a : ascii) : bool :=
  let n := nat_of_ascii a in (48 <=? n) && (n <=? 57).

Definition word (a : ascii) : bool :=
  let n := nat_of_ascii a in
  digit a || ((97 <=? n) && (n <=? 122)) || ((65 <=? n) && (n <=? 90)) || (n =? 95).

(** [all(p(c) for c in s)] *)
Fixpoint every (p : ascii -> bool) (s : string) : bool :=
  match s with
  | "" => true
  | String a s' => p a && every p s'
  end.

(** [pattern.search(s)]: the groups of the leftmost match, [None] when the
    pattern matches nowhere. *)
Fixpoint re_search (m : Re.matcher) (s : string) : option Re.caps :=
  match Re.match_at m s with
  | Some (_, c) => Some c
  | None =>
      match s with
      | "" => None
      | String _ s' => re_search m s'
      end
  end.

(** [r'act=audio_playlist(-?\d+)_(\d+)'] *)
Definition RE_ALBUM_ID : Re.matcher :=
  Re.seq (Re.lit "act=audio_playlist")
 (Re.seq (Re.group1 (Re.seq (Re.opt (Re.lit "-")) (Re.plus digit)))
 (Re.seq (Re.lit "_")
         (Re.group2 (Re.plus digit)))).

(** [r'access_hash=(\w+)'] *)
Definition RE_ACCESS_HASH : Re.matcher :=
  Re.seq (Re.lit "access_hash=") (Re.group1 (Re.plus word)).

(** The white space [int()] skips at both ends of its argument. *)
Definition int_space (c : ascii) : bool :=
  let n := nat_of_ascii c in (n =? 32) || ((9 <=? n) && (n <=? 13)).

Fixpoint int_lstrip (s : string) : string :=
  match s with
  | "" => ""
  | String c s' => if int_space c then int_lstrip s' else s
  end.

Fixpoint int_rstrip (s : string) : string :=
  match s with
  | "" => ""
  | String c s' =>
      match int_rstrip s' with
      | "" => if int_space c then "" else String c ""
      | r => String c r
      end
  end.

(** The digits of a literal without its underscores; an underscore is
    accepted only between two digits. *)
Fixpoint drop_underscores (s : string) (after_digit : bool) : option string :=
  match s with
  | "" => Some ""
  | String c s' =>
      if Ascii.eqb c "_"
      then if after_digit
           then match s' with
                | String d _ => if digit d then drop_underscores s' false else None
                | "" => None
                end
           else None
      else option_map (String c) (drop_underscores s' (digit c))
  end.

Definition int_digits (s : string) : option Z :=
  match drop_underscores s false with
  | Some ds => option_map Z.of_uint (NilZero.uint_of_string ds)
  | None => None
  end.

(** [int(s)] in base 10 on ASCII text; [None] for ValueError. *)
Definition py_int (s : string) : option Z :=
  match int_rstrip (int_lstrip s) with
  | String "+" r => int_digits r
  | String "-" r => option_map Z.opp (int_digits r)
  | t => int_digits t
  end.

(** [s.rsplit(' ', 1)[0]]: what precedes the last space, all of [s] when it
    has no space. *)
Fixpoint before_last_space (s : string) : option string :=
  match s with
  | "" => None
  | String c s' =>
      match before_last_space s' with
      | Some h => Some (String c h)
      | None => if Ascii.eqb c " " then Some "" else None
      end
  end.

Definition rsplit_head (s : string) : string :=
  match before_last_space s with
  | Some h => h
  | None => s
  end.

(** [s.replace(' ', '')] *)
Fixpoint remove_spaces (s : string) : string :=
  match s with
  | "" => ""
  | String c s' => if Ascii.eqb c " " then remove_spaces s' else String c (remove_spaces s')
  end.

(** The [try: plays = int(...) except ValueError: plays = None] of
    [scrap_albums]. *)
Definition plays_of (stats_text : string) : option Z :=
  py_int (remove_spaces (rsplit_head stats_text)).

(** [str(z)] for an integer. *)
Definition str_int (z : Z) : string := NilZero.string_of_int (Z.to_int z).

(** ['https://m.vk.com/audio?act=audio_playlist{}_{}'.format(owner, id)] *)
Definition album_url (owner_id0 id0 : Z) : string :=
  ("https://m.vk.com/audio?act=audio_playlist" ++ str_int owner_id0 ++ "_" ++ str_int id0)%string.

(** [tuple(int(i) for i in RE_ALBUM_ID.search(link).groups())]: the owner
    and the id of the album a link points to. *)
Definition full_id_of_link (link : string) : result (Z * Z) :=
  match re_search RE_ALBUM_ID link with
  | None => Raise AttributeError
  | Some c =>
      match Re.g1 c, Re.g2 c with
      | Some a, Some b =>
          match py_int a, py_int b with
          | Some o, Some i => Ok (o, i)
          | _, _ => Raise ValueError
          end
      | _, _ => Raise TypeError
      end
  end.

Module Albums.

(** A [div] of class [audioPlaylistsPage__item] as BeautifulSoup hands it
    over: the [href] of its link ([None] without a link element,
    [Some None] for a link without the attribute) and the texts of its
    stats, title and author elements ([None] for a missing element). *)
Record Node : Type := {
  item_link : option (option string);
  item_stats : option string;
  item_title : option string;
  item_author : option string
}.

(** The dict [scrap_albums] builds for an album. *)
Record Album : Type := {
  id : Z;
  owner_id : Z;
  url : string;
  access_hash : option string;
  title : string;
  artist : string;
  plays : option Z
}.

(** [select_one(...).text] *)
Definition text_of (element : option string) : result string :=
  match element with
  | Some t => Ok t
  | None => Raise AttributeError
  end.

(** The body of the loop of [scrap_albums]. *)
Definition album_of (album : Node) : result Album :=
  (link <- match item_link album with
           | None => Raise TypeError
           | Some None => Raise KeyError
           | Some (Some href) => Ok href
           end ;;
   full_id <- full_id_of_link link ;;
   let access := re_search RE_ACCESS_HASH link in
   stats_text <- text_of (item_stats album) ;;
   let plays0 := plays_of stats_text in
   title0 <- text_of (item_title album) ;;
   artist0 <- text_of (item_author album) ;;
   Ok {| id := snd full_id;
         owner_id := fst full_id;
         url := album_url (fst full_id) (snd full_id);
         access_hash := match access with
                        | Some c => Re.g1 c
                        | None => None
                        end;
         title := title0;
         artist := artist0;
         plays := plays0 |})%res.

Fixpoint scrap_albums (nodes : list Node) : result (list Album) :=
  match nodes with
  | [] => Ok []
  | album :: rest =>
      (a <- album_of album ;;
       albums <- scrap_albums rest ;;
       Ok (a :: albums))%res
  end.

(** A page of the album listing: its text and the item nodes BeautifulSoup
    finds in it. *)
Record Page : Type := {
  page_text : string;
  page_items : list Node
}.

(** The state of a run of [get_albums_iter]: the offsets of the requests
    sent and the albums yielded, oldest first. *)
Record Run : Type := {
  sent : list Z;
  albums : list Album
}.

Definition ALBUMS_PER_USER_PAGE : Z := 100.

(** One turn of [while True]; [get n offset] is the answer to the [n]-th GET,
    sent with [params={'offset': offset}]. *)
Fixpoint get_albums_iter_loop (get : nat -> Z -> result Page)
         (fuel : nat) (offset : Z) (st : Run) : result status * Run :=
  match fuel with
  | O => (Ok Running, st)
  | S fuel' =>
      let st1 := {| sent := sent st ++ [offset]; albums := albums st |} in
      match get (List.length (sent st)) offset with
      | Raise e => (Raise e, st1)
      | Ok response =>
          if (page_text response =? "")%string then (Raise AccessDenied, st1)
          else
            match scrap_albums (page_items response) with
            | Raise e => (Raise e, st1)
            | Ok [] => (Ok Returned, st1)
            | Ok (a :: l) =>
                get_albums_iter_loop get fuel' (offset + ALBUMS_PER_USER_PAGE)%Z
                  {| sent := sent st1; albums := albums st1 ++ a :: l |}
            end
      end
  end.

Definition get_albums_iter (get : nat -> Z -> result Page) (fuel : nat)
  : result status * Run :=
  get_albums_iter_loop get fuel 0%Z {| sent := []; albums := [] |}.

(** The offsets of the first [m] requests of a run that meets no error. *)
Definition offsets (m : nat) : list Z :=
  map (fun k => (ALBUMS_PER_USER_PAGE * Z.of_nat k)%Z) (seq 0 m).

(** The [n]-th request, sent with the [n]-th offset, is answered by a page
    with some text whose items scrape to [l]. *)
Definition page_gives (get : nat -> Z -> result Page) (n : nat) (l : list Album)
  : Prop :=
  exists p, get n (ALBUMS_PER_USER_PAGE * Z.of_nat n)%Z = Ok p
            /\ page_text p <> "" /\ scrap_albums (page_items p) = Ok l.

(** The first [length pages] requests are answered by pages that scrape to
    the non-empty lists [pages]. *)
Definition pages_give (get : nat -> Z -> result Page) (pages : list (list Album))
  : Prop :=
  forall n l, nth_error pages n = Some l -> l <> [] /\ page_gives get n l.

(** The state of the loop when it is entered for the [m]-th time. *)
Definition turn (m : nat) (offset : Z) (st : Run) : Prop :=
  sent st = offsets m /\ offset = (ALBUMS_PER_USER_PAGE * Z.of_nat m)%Z.

End Albums.

(* ================================================================== *)
(** ** [scrap_json] *)
(* ================================================================== *)

(** [[p]*?], lazy: the rest of the pattern is tried before one more
    character is taken. *)
Fixpoint lazy_star (p : ascii -> bool) (s : string) (c : Re.caps) (k : Re.cont)
  : option Re.answer :=
  match k s c with
  | Some r => Some r
  | None =>
      match s with
      | String a s' => if p a then lazy_star p s' c k else None
      | "" => None
      end
  end.

(** [r"new AudioPage\(.*?(\{.*\})"] *)
Definition find_json_pattern : Re.matcher :=
  Re.seq (Re.lit "new AudioPage(")
 (Re.seq (lazy_star Re.dot)
         (Re.group1 (Re.seq (Re.lit "{")
                    (Re.seq (Re.star Re.dot)
                            (Re.lit "}"))))).

(** [re.search(find_json_pattern, html_page).group(1)] *)
Definition scrap_json (html_page : string) : result string :=
  match re_search find_json_pattern html_page with
  | None => Raise AttributeError
  | Some c =>
      match Re.g1 c with
      | Some g => Ok g
      | None => Raise TypeError
      end
  end.

(** A scripted album server: a first page with two albums, then a page
    without items ([denied = false]) or with an empty text
    ([denied = true]). *)
Module AlbumDouble.

Definition node (link stats : string) : Albums.Node :=
  {| Albums.item_link := Some (Some link);
     Albums.item_stats := Some stats;
     Albums.item_title := Some "Title";
     Albums.item_author := Some "Artist" |}.

Definition first : Albums.Page :=
  {| Albums.page_text := "<html>two items</html>";
     Albums.page_items :=
       [node "/audio?act=audio_playlist-2001_77&access_hash=ab_1&from=x" "1 011 plays";
        node "/audio?act=audio_playlist15_3" "none yet"] |}.

Definition first_albums : list Albums.Album :=
  [{| Albums.id := 77; Albums.owner_id := -2001;
      Albums.url := "https://m.vk.com/audio?act=audio_playlist-2001_77";
      Albums.access_hash := Some "ab_1";
      Albums.title := "Title"; Albums.artist := "Artist";
      Albums.plays := Some 1011%Z |};
   {| Albums.id := 3; Albums.owner_id := 15;
      Albums.url := "https://m.vk.com/audio?act=audio_playlist15_3";
      Albums.access_hash := None;
      Albums.title := "Title"; Albums.artist := "Artist";
      Albums.plays := None |}].

Definition no_items : Albums.Page :=
  {| Albums.page_text := "<html></html>"; Albums.page_items := [] |}.

Definition no_text : Albums.Page :=
  {| Albums.page_text := ""; Albums.page_items := [] |}.

Definition get (denied : bool) (n : nat) (offset : Z) : result Albums.Page :=
  match n with
  | O => if (offset =? 0)%Z then Ok first else Raise TransportError
  | S O => if (offset =? 100)%Z
           then Ok (if denied then no_text else no_items)
           else Raise TransportError
  | _ => Raise TransportError
  end.

End AlbumDouble.

(** An audio tuple with two covers, and the track [scrap_tracks] makes of
    it. *)
Definition audio_with_covers : value :=
  VList [VInt 7; VInt 1; VStr "https://h/x.mp3"; VStr "title"; VStr "artist";
         VInt 180; VInt 0; VNone; VStr ""; VStr ""; VInt 0;
         VStr ""; VStr ""; VStr "a/b/h2/c/d/h5"; VStr "https://c/1.jpg,https://c/2.jpg"].

Definition track_with_covers : Track :=
  {| id := VInt 7;
     owner_id := VInt 1;
     track_covers := ["https://c/1.jpg"; "https://c/2.jpg"];
     url := VStr "https://h/x.mp3";
     artist := "artist";
     title := "title";
     duration := VInt 180 |}.

(* ================================================================== *)
(** * Properties *)
(* ================================================================== *)

(** ** Records and identities *)

Lemma bind_ok {A B} (r : result A) (f : A -> result B) (a : A) :
  r = Ok a -> Res.bind r f = f a.
Proof. intros ->. reflexivity. Qed.

Lemma bind_raise {A B} (r : result A) (f : A -> result B) (e : exn) :
  r = Raise e -> Res.bind r f = Raise e.
Proof. intros ->. reflexivity. Qed.

Lemma list_get_nth {A} (l : list A) (i : nat) (d : A) :
  i < List.length l -> list_get l i = Ok (nth i l d).
Proof.
  intros H. unfold list_get.
  rewrite (nth_error_nth' l d H). reflexivity.
Qed.

Lemma list_get_short {A} (l : list A) (i : nat) :
  List.length l <= i -> list_get l i = Raise IndexError.
Proof.
  intros H. unfold list_get.
  apply nth_error_None in H. rewrite H. reflexivity.
Qed.

Lemma hashes_of_inv (track : value) (h : string) :
  hashes_of track = Some h ->
  exists l, track = VList l /\ nth_error l AUDIO_TUPLE.HASHES = Some (VStr h).
Proof.
  destruct track as [| | | |l|]; unfold hashes_of; try discriminate.
  destruct (nth_error l AUDIO_TUPLE.HASHES) as [[| | |s| |]|] eqn:Hn; try discriminate.
  intros H. injection H as <-. exists l. split; [reflexivity|assumption].
Qed.

Lemma getitem_list_lt (l : list value) (i : nat) :
  i < List.length l -> getitem (VList l) i = Ok (nth i l VNone).
Proof.
  intros H. unfold getitem. rewrite (nth_error_nth' l VNone H). reflexivity.
Qed.

(** On a record with a hashes string, [full_id_of] fails exactly when the
    string has fewer than six tokens, and otherwise builds the identity of
    the specification. *)
Lemma full_id_of_tokens (X : Externals) (track : value) :
  hashes_of track <> None ->
  (List.length (tokens_of track) < 6 -> full_id_of X track = Raise IndexError) /\
  (6 <= List.length (tokens_of track) ->
   full_id_of X track = Ok (identity_spec X track)).
Proof.
  intros Hh.
  destruct (hashes_of track) as [h|] eqn:Hs; [clear Hh|congruence].
  destruct (hashes_of_inv _ _ Hs) as (l & -> & Hn).
  assert (Hlen : AUDIO_TUPLE.HASHES < List.length l).
  { apply nth_error_Some. rewrite Hn. discriminate. }
  unfold AUDIO_TUPLE.HASHES in Hlen.
  assert (Htok : tokens_of (VList l) = split "/" h).
  { unfold tokens_of. rewrite Hs. reflexivity. }
  unfold full_id_of, identity_spec. rewrite Htok.
  assert (G13 : getitem (VList l) AUDIO_TUPLE.HASHES = Ok (VStr h)).
  { unfold getitem. rewrite Hn. reflexivity. }
  rewrite (bind_ok _ _ _ G13). cbv beta iota delta [Res.bind py_split].
  rewrite (getitem_list_lt l AUDIO_TUPLE.OWNER_ID) by (unfold AUDIO_TUPLE.OWNER_ID; lia).
  rewrite (getitem_list_lt l AUDIO_TUPLE.ID) by (unfold AUDIO_TUPLE.ID; lia).
  split; intros Hk.
  - destruct (Nat.le_gt_cases (List.length (split "/" h)) 2) as [H2|H2].
    + rewrite (list_get_short _ _ H2). reflexivity.
    + rewrite (list_get_nth _ _ "" H2).
      rewrite (list_get_short (split "/" h) 5) by lia. reflexivity.
  - rewrite (list_get_nth (split "/" h) 2 "") by lia.
    rewrite (list_get_nth (split "/" h) 5 "") by lia.
    reflexivity.
Qed.

Lemma str_truthy_iff (s : string) : str_truthy s = true <-> s <> "".
Proof.
  unfold str_truthy. rewrite negb_true_iff.
  destruct (String.eqb_spec s "") as [->|Hne]; split; congruence.
Qed.

Lemma all_truthy_iff (i : TrackIdentity) : all_truthy i = true <-> all_non_empty i.
Proof.
  destruct i as [[[a b] c] d]. unfold all_truthy, all_non_empty.
  rewrite !andb_true_iff, !str_truthy_iff. tauto.
Qed.

Lemma scrap_ids_loop_shaped (X : Externals) (tracks : list value) :
  Forall shaped tracks ->
  forall ids,
    scrap_ids_loop X tracks ids
    = Ok (ids ++ filter all_truthy (map (identity_spec X) tracks)).
Proof.
  induction 1 as [|t ts [Hh Hk] _ IH]; intros ids; cbn [scrap_ids_loop map filter].
  - rewrite app_nil_r. reflexivity.
  - destruct (full_id_of_tokens X _ Hh) as [_ Hok].
    rewrite (Hok Hk). cbn [Res.bind]. rewrite IH.
    destruct (all_truthy (identity_spec X t)); [|reflexivity].
    rewrite <- app_assoc. reflexivity.
Qed.

(** C3. For every list of audio-record arrays whose hashes strings have
    tokens at positions 2 and 5, [scrap_ids] returns without error the
    identities (str(owner_id), str(id), token 2, token 5) of exactly the
    records whose four components are all non-empty, in input order and
    with repeated records repeated. *)
Theorem scrap_ids_keeps_valid_identities_in_order
        (X : Externals) (tracks : list value) :
  Forall shaped tracks ->
  scrap_ids X (VList tracks)
  = Ok (filter all_truthy (map (identity_spec X) tracks))
  /\ (forall i, all_truthy i = true <-> all_non_empty i)
  /\ (forall i, In i (filter all_truthy (map (identity_spec X) tracks)) <->
                exists t, In t tracks /\ identity_spec X t = i /\ all_non_empty i).
Proof.
  intros H. split; [|split].
  - unfold scrap_ids. simpl. apply (scrap_ids_loop_shaped X _ H []).
  - apply all_truthy_iff.
  - intros i. rewrite filter_In, in_map_iff, all_truthy_iff.
    split.
    + intros [(t & Ht & Hin) Hv]. exists t. auto.
    + intros (t & Hin & Ht & Hv). split; [exists t; auto|assumption].
Qed.

(** ** Records whose hashes string is too short *)

Lemma short_or_shaped (track : value) :
  hashes_of track <> None -> short_hashes track \/ shaped track.
Proof.
  intros H. unfold short_hashes, shaped.
  destruct (Nat.lt_ge_cases (List.length (tokens_of track)) 6); auto.
Qed.

Lemma scrap_ids_loop_short (X : Externals) (tracks : list value) :
  Forall (fun t => hashes_of t <> None) tracks ->
  Exists short_hashes tracks ->
  forall ids, scrap_ids_loop X tracks ids = Raise IndexError.
Proof.
  induction 1 as [|t ts Hh _ IH]; intros Hex ids.
  - inversion Hex.
  - cbn [scrap_ids_loop].
    destruct (full_id_of_tokens X t Hh) as [Hshort Hok].
    destruct (short_or_shaped t Hh) as [Hs|[_ Hs]].
    + rewrite (Hshort Hs). reflexivity.
    + rewrite (Hok Hs). cbn [Res.bind].
      inversion Hex as [? ? Hhd|? ? Htl]; subst.
      * unfold short_hashes in Hhd. lia.
      * apply IH. assumption.
Qed.

Lemma node_record_inv (X : Externals) (n : AudioNode) (r : value) :
  node_record X n = Some r ->
  exists a, node_data_audio n = Some a /\ json_loads X a = Ok r.
Proof.
  unfold node_record.
  destruct (node_data_audio n) as [a|]; [|discriminate].
  destruct (json_loads X a) as [v|e] eqn:Hj; [|discriminate].
  intros H. injection H as <-. exists a. auto.
Qed.

Lemma html_loop_short (X : Externals) (nodes : list AudioNode) :
  Forall (node_has_hashes X) nodes ->
  Exists (node_short X) nodes ->
  forall ids, scrap_ids_from_html_loop X nodes ids = Raise IndexError.
Proof.
  induction 1 as [|n ns Hh _ IH]; intros Hex ids.
  - inversion Hex.
  - cbn [scrap_ids_from_html_loop].
    destruct (existsb (String.eqb "audio_item_disabled") (node_class n)) eqn:Hd.
    + inversion Hex as [? ? [Hen _]|? ? Htl]; subst.
      * unfold enabled in Hen. congruence.
      * apply IH. assumption.
    + destruct (Hh Hd) as (r & Hr & Hhash).
      destruct (node_record_inv X n r Hr) as (a & Ha & Hj).
      rewrite Ha. cbn [Res.bind]. rewrite Hj. cbn [Res.bind].
      destruct (full_id_of_tokens X r Hhash) as [Hshort Hok].
      destruct (short_or_shaped r Hhash) as [Hs|[_ Hs]].
      * rewrite (Hshort Hs). reflexivity.
      * rewrite (Hok Hs). cbn [Res.bind].
        inversion Hex as [? ? [_ (r' & Hr' & Hs')]|? ? Htl]; subst.
        -- rewrite Hr in Hr'. injection Hr' as <-.
           unfold short_hashes in Hs'. lia.
        -- apply IH. assumption.
Qed.

Lemma html_loop_long (X : Externals) (nodes : list AudioNode) :
  Forall (node_long X) nodes ->
  forall ids, exists ids', scrap_ids_from_html_loop X nodes ids = Ok ids'.
Proof.
  induction 1 as [|n ns Hl _ IH]; intros ids.
  - exists ids. reflexivity.
  - cbn [scrap_ids_from_html_loop].
    destruct (existsb (String.eqb "audio_item_disabled") (node_class n)) eqn:Hd.
    + apply IH.
    + destruct (Hl Hd) as (r & Hr & Hsh).
      destruct (node_record_inv X n r Hr) as (a & Ha & Hj).
      rewrite Ha. cbn [Res.bind]. rewrite Hj. cbn [Res.bind].
      destruct Hsh as [Hhash Hk].
      destruct (full_id_of_tokens X r Hhash) as [_ Hok].
      rewrite (Hok Hk). cbn [Res.bind]. apply IH.
Qed.

(** C9. [scrap_ids] and [scrap_ids_from_html] are partial: on records that
    carry a hashes string, a record whose string splits on '/' into fewer
    than 6 tokens makes the function raise IndexError (it is not dropped),
    and the function returns a list when every record read has at least 6
    tokens. For the HTML variant the records read are those of the nodes
    not flagged as disabled. *)
Theorem short_hashes_raise_IndexError (X : Externals) :
  (forall tracks : list value,
      Forall (fun t => hashes_of t <> None) tracks ->
      (Exists short_hashes tracks ->
       scrap_ids X (VList tracks) = Raise IndexError) /\
      (Forall shaped tracks ->
       exists ids, scrap_ids X (VList tracks) = Ok ids))
  /\
  (forall nodes : list AudioNode,
      Forall (node_has_hashes X) nodes ->
      (Exists (node_short X) nodes ->
       scrap_ids_from_html X (Some nodes) = Raise IndexError) /\
      (Forall (node_long X) nodes ->
       exists ids, scrap_ids_from_html X (Some nodes) = Ok ids)).
Proof.
  split.
  - intros tracks Hh. split.
    + intros Hex. unfold scrap_ids. cbn [py_iter Res.bind].
      apply scrap_ids_loop_short; assumption.
    + intros Hall. eexists. unfold scrap_ids. cbn [py_iter Res.bind].
      apply scrap_ids_loop_shaped. assumption.
  - intros nodes Hh. split.
    + intros Hex. cbn [scrap_ids_from_html].
      apply html_loop_short; assumption.
    + intros Hall. cbn [scrap_ids_from_html].
      apply html_loop_long. assumption.
Qed.

(** ** The m3u8 rewrite *)

Lemma star_hex_run (h t : string) (c : Re.caps) (k : Re.cont) (r : Re.answer) :
  hex_string h = true ->
  k (String "/" t) c = Some r ->
  Re.star Re.hex (h ++ String "/" t)%string c k = Some r.
Proof.
  induction h as [|a h IH]; intros Hh Hk.
  - exact Hk.
  - cbn [hex_string] in Hh. apply andb_true_iff in Hh as [Ha Hh].
    cbn [append Re.star]. rewrite Ha, (IH Hh Hk). reflexivity.
Qed.

Lemma plus_hex_run (h t : string) (c : Re.caps) (k : Re.cont) (r : Re.answer) :
  hex_run h ->
  k (String "/" t) c = Some r ->
  Re.plus Re.hex (h ++ String "/" t)%string c k = Some r.
Proof.
  intros [Hh Hne] Hk. destruct h as [|a h]; [congruence|].
  cbn [hex_string] in Hh. apply andb_true_iff in Hh as [Ha Hh].
  unfold Re.plus, Re.seq, Re.chr. cbn [append]. rewrite Ha.
  apply star_hex_run; assumption.
Qed.

Lemma length_append (a b : string) :
  String.length (a ++ b)%string = String.length a + String.length b.
Proof. induction a as [|x a IH]; cbn; [reflexivity|rewrite IH; reflexivity]. Qed.

Lemma substring_prefix (a b : string) :
  substring 0 (String.length a) (a ++ b)%string = a.
Proof.
  induction a as [|x a IH]; cbn.
  - destruct b; reflexivity.
  - rewrite IH. reflexivity.
Qed.

Lemma consumed_append (a b : string) : Re.consumed (a ++ b)%string b = a.
Proof.
  unfold Re.consumed. rewrite length_append.
  replace (String.length a + String.length b - String.length b)
    with (String.length a) by lia.
  apply substring_prefix.
Qed.

Lemma hex_not_u (b : ascii) : Re.hex b = true -> Ascii.eqb "u" b = false.
Proof.
  destruct b as [[] [] [] [] [] [] [] []]; vm_compute; congruence.
Qed.

Lemma lit_prefix (l s : string) (c : Re.caps) (k : Re.cont) :
  Re.lit l (l ++ s)%string c k = k s c.
Proof.
  revert s c k. induction l as [|a l IH]; intros s c k.
  - reflexivity.
  - cbn [Re.lit append]. unfold Re.seq, Re.chr. rewrite Ascii.eqb_refl. apply IH.
Qed.

(** [/audios] does not match where a hex segment starts: the [u] is not a
    hex digit. *)
Lemma lit_audios_fails (h t : string) (c : Re.caps) (k : Re.cont) :
  hex_string h = true ->
  Re.lit "/audios" ("/" ++ h ++ "/" ++ t)%string c k = None.
Proof.
  intros Hh. cbn [Re.lit append]. unfold Re.seq, Re.chr. rewrite Ascii.eqb_refl.
  destruct h as [|a [|b h]]; cbn [append].
  - reflexivity.
  - destruct (Ascii.eqb "a" a); reflexivity.
  - destruct (Ascii.eqb "a" a); [|reflexivity].
    cbn [hex_string] in Hh.
    apply andb_true_iff in Hh as [_ Hh]. apply andb_true_iff in Hh as [Hb _].
    rewrite (hex_not_u b Hb). reflexivity.
Qed.

Lemma tail_matches (h2 : string) (c : Re.caps) :
  hex_run h2 ->
  RE_TAIL ("/" ++ h2 ++ "/index.m3u8")%string c (fun rest c' => Some (rest, c'))
  = Some ("", {| Re.g1 := Re.g1 c; Re.g2 := Some h2 |}).
Proof.
  intros Hh. unfold RE_TAIL.
  unfold Re.seq at 1. rewrite lit_prefix.
  unfold Re.seq at 1. unfold Re.group2.
  change ("/index.m3u8") with (String "/" "index.m3u8").
  apply plus_hex_run; [assumption|].
  rewrite consumed_append. reflexivity.
Qed.

Lemma match_with_audios (h1 h2 : string) :
  hex_run h1 -> hex_run h2 ->
  Re.match_at RE_M3U8_TO_MP3 ("/" ++ h1 ++ "/audios/" ++ h2 ++ "/index.m3u8")%string
  = Some ("", {| Re.g1 := Some "/audios"; Re.g2 := Some h2 |}).
Proof.
  intros H1 H2. unfold Re.match_at, RE_M3U8_TO_MP3.
  unfold Re.seq at 1. rewrite lit_prefix.
  unfold Re.seq at 1.
  change ("/audios/" ++ h2 ++ "/index.m3u8")%string
    with (String "/" ("audios" ++ "/" ++ h2 ++ "/index.m3u8"))%string.
  apply plus_hex_run; [assumption|].
  unfold Re.seq at 1. unfold Re.opt, Re.group1.
  change (String "/" ("audios" ++ "/" ++ h2 ++ "/index.m3u8"))%string
    with ("/audios" ++ ("/" ++ h2 ++ "/index.m3u8"))%string.
  rewrite lit_prefix.
  fold RE_TAIL. rewrite tail_matches by assumption.
  rewrite consumed_append. reflexivity.
Qed.

Lemma match_without_audios (h1 h2 : string) :
  hex_run h1 -> hex_run h2 ->
  Re.match_at RE_M3U8_TO_MP3 ("/" ++ h1 ++ "/" ++ h2 ++ "/index.m3u8")%string
  = Some ("", {| Re.g1 := None; Re.g2 := Some h2 |}).
Proof.
  intros H1 H2. unfold Re.match_at, RE_M3U8_TO_MP3.
  unfold Re.seq at 1. rewrite lit_prefix.
  unfold Re.seq at 1.
  change ("/" ++ h2 ++ "/index.m3u8")%string
    with (String "/" (h2 ++ "/index.m3u8"))%string.
  apply plus_hex_run; [assumption|].
  unfold Re.seq at 1. unfold Re.opt, Re.group1.
  change (String "/" (h2 ++ "/index.m3u8"))%string
    with ("/" ++ h2 ++ "/" ++ "index.m3u8")%string.
  rewrite lit_audios_fails by apply H2.
  fold RE_TAIL. apply (tail_matches h2 Re.no_caps H2).
Qed.

Lemma sub_from_skips (m : Re.matcher) (template : Re.caps -> string) (s : string) :
  forall n, String.length s <= n -> Re.sub_from m template n s = "".
Proof.
  induction s as [|a s IH]; intros n Hn; cbn [Re.sub_from].
  - reflexivity.
  - cbn [String.length] in Hn. destruct n as [|n]; [lia|]. apply IH. lia.
Qed.

Lemma sub_whole (m : Re.matcher) (template : Re.caps -> string)
      (s : string) (c : Re.caps) :
  s <> "" ->
  Re.match_at m s = Some ("", c) ->
  Re.sub m template s = template c.
Proof.
  intros Hne Hm. destruct s as [|a s]; [congruence|].
  unfold Re.sub. cbn [Re.sub_from]. rewrite Hm.
  rewrite sub_from_skips by (cbn [String.length]; lia).
  clear. induction (template c) as [|x u IH]; cbn; [reflexivity|rewrite IH; reflexivity].
Qed.

Lemma sub_nowhere (s : string) :
  matches_nowhere s -> Re.sub RE_M3U8_TO_MP3 mp3_template s = s.
Proof.
  unfold Re.sub. induction s as [|a s IH]; intros H.
  - reflexivity.
  - destruct H as [Hm Hs]. cbn [Re.sub_from]. rewrite Hm, (IH Hs). reflexivity.
Qed.

Lemma substringb_append (needle p s : string) :
  substringb needle s = true -> substringb needle (p ++ s)%string = true.
Proof.
  intros H. induction p as [|a p IH]; cbn [append]; [assumption|].
  cbn [substringb]. rewrite IH. apply orb_true_r.
Qed.

Lemma nonempty_slash (s : string) : ("/" ++ s)%string <> "".
Proof. discriminate. Qed.

Lemma has_m3u8 (p s : string) :
  substringb "m3u8" s = true -> substringb "m3u8" (p ++ s)%string = true.
Proof. apply substringb_append. Qed.

Lemma convert_whole (s : string) (c : Re.caps) :
  s <> "" ->
  substringb "m3u8" s = true ->
  Re.match_at RE_M3U8_TO_MP3 s = Some ("", c) ->
  convert_m3u8 true (VStr s) = Ok (VStr (mp3_template c)).
Proof.
  intros Hne Hin Hm. unfold convert_m3u8. cbn [py_in Res.bind].
  rewrite Hin, (sub_whole _ _ s c Hne Hm). reflexivity.
Qed.

(** C4 (as amended). With the toggle on, [/<hex1>/audios/<hex2>/index.m3u8]
    becomes [/audios/<hex2>.mp3] and [/<hex1>/<hex2>/index.m3u8] becomes
    [/<hex2>.mp3]: the first hex segment is dropped and [/audios] is kept
    when present. With the toggle off, or when the pattern matches nowhere in
    the URL, the link is returned unchanged. *)
Theorem m3u8_rewrite_keeps_audios_drops_first_segment (h1 h2 : string) :
  hex_run h1 -> hex_run h2 ->
  convert_m3u8 true (VStr ("/" ++ h1 ++ "/audios/" ++ h2 ++ "/index.m3u8"))
  = Ok (VStr ("/audios/" ++ h2 ++ ".mp3"))
  /\ convert_m3u8 true (VStr ("/" ++ h1 ++ "/" ++ h2 ++ "/index.m3u8"))
     = Ok (VStr ("/" ++ h2 ++ ".mp3"))
  /\ (forall link, convert_m3u8 false link = Ok link)
  /\ (forall s, matches_nowhere s -> convert_m3u8 true (VStr s) = Ok (VStr s)).
Proof.
  intros H1 H2. repeat split.
  - assert (Hin : substringb "m3u8" ("/" ++ h1 ++ "/audios/" ++ h2 ++ "/index.m3u8")%string = true).
    { do 4 apply has_m3u8. reflexivity. }
    rewrite (convert_whole _ _ (nonempty_slash _) Hin (match_with_audios h1 h2 H1 H2)).
    reflexivity.
  - assert (Hin : substringb "m3u8" ("/" ++ h1 ++ "/" ++ h2 ++ "/index.m3u8")%string = true).
    { do 4 apply has_m3u8. reflexivity. }
    rewrite (convert_whole _ _ (nonempty_slash _) Hin (match_without_audios h1 h2 H1 H2)).
    reflexivity.
  - intros s Hs. unfold convert_m3u8. cbn [py_in Res.bind].
    rewrite (sub_nowhere s Hs). destruct (substringb "m3u8" s); reflexivity.
Qed.

(** C4, witness. *)
Lemma m3u8_rewrite_witness :
  hex_run "abc123" /\ hex_run "def456" /\
  convert_m3u8 true (VStr "/abc123/audios/def456/index.m3u8")
  = Ok (VStr "/audios/def456.mp3").
Proof.
  assert (A : hex_run "abc123") by (split; [reflexivity|discriminate]).
  assert (B : hex_run "def456") by (split; [reflexivity|discriminate]).
  split; [exact A|split; [exact B|]].
  exact (proj1 (m3u8_rewrite_keeps_audios_drops_first_segment "abc123" "def456" A B)).
Defined.

(** C4, as the specification states it, fails on its own example: the code
    does not produce [/abc123/def456.mp3]. *)
Lemma m3u8_example_is_not_abc123_def456 :
  convert_m3u8 true (VStr "/abc123/audios/def456/index.m3u8")
  <> Ok (VStr "/abc123/def456.mp3").
Proof. vm_compute. discriminate. Qed.

(** The rewrite inside a full URL: host and query are left as they are. *)
Example convert_inside_url :
  convert_m3u8 true
    (VStr "https://cs1.vkuseraudio.net/s/v1/ac/abc123/audios/def456/index.m3u8?extra=9f")
  = Ok (VStr "https://cs1.vkuseraudio.net/s/v1/ac/audios/def456.mp3?extra=9f").
Proof. reflexivity. Qed.

Example convert_without_audios :
  convert_m3u8 true (VStr "/abc123/def456/index.m3u8") = Ok (VStr "/def456.mp3").
Proof. reflexivity. Qed.

(** The unescaped dot of the pattern matches any character. *)
Example convert_any_separator :
  convert_m3u8 true (VStr "/abc123/def456/index-m3u8") = Ok (VStr "/def456.mp3").
Proof. reflexivity. Qed.

Example convert_other_url :
  convert_m3u8 true (VStr "https://h/track.m3u8") = Ok (VStr "https://h/track.m3u8").
Proof. reflexivity. Qed.

(** ** The batch resolver *)

Lemma requests_app (a b : list Event) : requests (a ++ b) = requests a ++ requests b.
Proof.
  induction a as [|[r s f|d s f] a IH]; cbn [requests app]; [reflexivity| |assumption].
  rewrite IH. reflexivity.
Qed.

Lemma post_times_app (a b : list Event) :
  post_times (a ++ b) = post_times a ++ post_times b.
Proof.
  induction a as [|[r s f|d s f] a IH]; cbn [post_times app]; [reflexivity| |assumption].
  rewrite IH. reflexivity.
Qed.

Lemma quiet_ret {A} (a : A) : quiet (Gen.ret a).
Proof. intros w. reflexivity. Qed.

Lemma quiet_raise {A} (e : exn) : quiet (@Gen.raise A e).
Proof. intros w. reflexivity. Qed.

Lemma quiet_lift {A} (r : result A) : quiet (Gen.lift r).
Proof. intros w. reflexivity. Qed.

Lemma quiet_yield (E : Env) (x : Item) : quiet (yield E x).
Proof. intros w. reflexivity. Qed.

Lemma quiet_bind {A B} (m : M A) (f : A -> M B) :
  quiet m -> (forall a, quiet (f a)) -> quiet (Gen.bind m f).
Proof.
  intros Hm Hf w. unfold Gen.bind. specialize (Hm w).
  destruct (m w) as [[a|e] w1]; cbn [snd] in *.
  - rewrite Hf. assumption.
  - assumption.
Qed.

Lemma quiet_for_each {A} (f : A -> M unit) (l : list A) :
  (forall a, quiet (f a)) -> quiet (for_each f l).
Proof.
  intros Hf. induction l as [|a l IH]; cbn [for_each].
  - apply quiet_ret.
  - apply quiet_bind; [apply Hf|intros _; exact IH].
Qed.

Create HintDb quiet.
#[local] Hint Resolve quiet_ret quiet_raise quiet_lift quiet_yield : quiet.

Lemma quiet_handle_result (X : Externals) (E : Env) (u : Z) (cv : bool) (r : value) :
  quiet (handle_result X E u cv r).
Proof.
  unfold handle_result. apply quiet_bind; [auto with quiet|]. intros data.
  destruct (truthy data); [|auto with quiet].
  apply quiet_bind; [auto with quiet|]. intros d0.
  apply quiet_bind; [auto with quiet|]. intros audios.
  apply quiet_for_each. intros a. unfold yield_track.
  apply quiet_bind; auto with quiet.
Qed.

Ltac split5 := split; [|split; [|split; [|split; [|split]]]].

Section ResolverFacts.
Variable X : Externals.
Variable E : Env.
Variable u : Z.
Variable cv : bool.

(** What [pace] does, by cases on the delay. *)
Lemma pace_run (last : Q) (w : World) :
  let delay := (RPS_DELAY_RELOAD_AUDIO - (clock w - last))%Q in
  ((delay <= 0)%Q /\ pace E last w = (Ok tt, w))
  \/ ((0 < delay)%Q /\
      pace E last w
      = (Ok tt,
         {| clock := (clock w + delay + oversleep E (sleeps w))%Q;
            trace := trace w
                     ++ [EvSleep delay (clock w)
                           (clock w + delay + oversleep E (sleeps w))%Q];
            yielded := yielded w |})).
Proof.
  intros delay. unfold pace, Gen.bind, time_time. fold delay.
  destruct (Qlt_le_dec 0 delay) as [Hlt|Hle]; [right|left]; split;
    solve [assumption | reflexivity].
Qed.

(** One turn of the loop of [scrap_tracks], once the pacing is done. *)
Lemma loop_after_pace (g : list TrackIdentity) (rest : list (list TrackIdentity))
      (last : Q) (w w1 : World) :
  pace E last w = (Ok tt, w1) ->
  let finish := (clock w1 + latency E (posts w1))%Q in
  let w2 := {| clock := finish;
               trace := trace w1 ++ [EvPost (reload_audio_request g) (clock w1) finish];
               yielded := yielded w1 |} in
  scrap_tracks_loop X E u cv (g :: rest) last w
  = match serve E (posts w1) (reload_audio_request g) with
    | Raise e => (Raise e, w2)
    | Ok result0 =>
        match handle_result X E u cv result0 w2 with
        | (Ok _, w3) => scrap_tracks_loop X E u cv rest finish w3
        | (Raise e, w3) => (Raise e, w3)
        end
    end.
Proof.
  intros Hp finish w2. cbn [scrap_tracks_loop].
  unfold Gen.bind at 1. rewrite Hp.
  unfold Gen.bind at 1. unfold http_post at 1. fold finish. fold w2.
  destruct (serve E (posts w1) (reload_audio_request g)) as [result0|e];
    [|reflexivity].
  unfold Gen.bind at 1. unfold time_time at 1.
  unfold Gen.bind at 1.
  destruct (handle_result X E u cv result0 w2) as [[[]|e] w3]; reflexivity.
Qed.

(** The trace of a call grows by paced requests, one per chunk in order,
    up to the chunk where an exception, if any, ends the call. *)
Lemma loop_trace (groups : list (list TrackIdentity)) :
  forall (last : Q) (w : World),
  exists new k,
    trace (snd (scrap_tracks_loop X E u cv groups last w)) = trace w ++ new
    /\ pacing last new
    /\ (fair E -> paced last (post_times new))
    /\ k <= List.length groups
    /\ requests new = map reload_audio_request (firstn k groups)
    /\ (fst (scrap_tracks_loop X E u cv groups last w) = Ok tt ->
        k = List.length groups).
Proof.
  induction groups as [|g rest IH]; intros last w.
  - exists [], 0. cbn [scrap_tracks_loop Gen.ret snd fst firstn map requests List.length].
    rewrite app_nil_r. split5; auto; try constructor.
  - set (delay := (RPS_DELAY_RELOAD_AUDIO - (clock w - last))%Q).
    destruct (pace_run last w) as [[Hd Hp]|[Hd Hp]]; fold delay in Hd, Hp;
      rewrite (loop_after_pace g rest last w _ Hp); cbv zeta; cbn [clock trace yielded].
    + (* no sleep *)
      set (finish := (clock w + latency E (posts w))%Q).
      set (w2 := {| clock := finish; trace := _; yielded := _ |}).
      assert (Hpaced : fair E -> (last + RPS_DELAY_RELOAD_AUDIO <= clock w)%Q
                                 /\ (clock w <= finish)%Q).
      { intros [Hl _]. specialize (Hl (posts w)). unfold finish, delay in *.
        split; lra. }
      destruct (serve E (posts w) (reload_audio_request g)) as [result0|e].
      * pose proof (quiet_handle_result X E u cv result0 w2) as Hq.
        destruct (handle_result X E u cv result0 w2) as [[[]|e] w3] eqn:Hh;
          cbn [snd] in Hq.
        -- destruct (IH finish w3) as (new & k & Ht & Hpc & Hpd & Hk & Hr & Hok).
           exists (EvPost (reload_audio_request g) (clock w) finish :: new), (S k).
           rewrite Ht, Hq. subst w2. cbn [trace]. rewrite <- app_assoc.
           split5; [reflexivity| | | | |].
           ++ constructor; assumption.
           ++ intros Hf. cbn [post_times paced].
              destruct (Hpaced Hf) as [Ha Hb].
              split; [exact Ha|split; [exact Hb|first [exact I|exact (Hpd Hf)]]].
           ++ cbn [List.length]. lia.
           ++ cbn [requests firstn map]. rewrite Hr. reflexivity.
           ++ intros H. cbn [List.length]. rewrite (Hok H). reflexivity.
        -- exists [EvPost (reload_audio_request g) (clock w) finish], 1.
           cbn [snd fst]. rewrite Hq. subst w2. cbn [trace].
           split5; [reflexivity| | | | |].
           ++ constructor; [assumption|constructor].
           ++ intros Hf. cbn [post_times paced]. destruct (Hpaced Hf) as [Ha Hb].
              split; [exact Ha|split; [exact Hb|first [exact I|exact (Hpd Hf)]]].
           ++ cbn [List.length]. lia.
           ++ cbn [firstn]. destruct rest; reflexivity.
           ++ discriminate.
      * exists [EvPost (reload_audio_request g) (clock w) finish], 1.
        cbn [snd fst]. subst w2. cbn [trace].
        split5; [reflexivity| | | | |].
        -- constructor; [assumption|constructor].
        -- intros Hf. cbn [post_times paced]. destruct (Hpaced Hf) as [Ha Hb].
              split; [exact Ha|split; [exact Hb|first [exact I|exact (Hpd Hf)]]].
        -- cbn [List.length]. lia.
        -- cbn [firstn]. destruct rest; reflexivity.
        -- discriminate.
    + (* sleep for the remainder *)
      set (t1 := (clock w + delay + oversleep E (sleeps w))%Q).
      set (w1 := {| clock := t1; trace := _; yielded := yielded w |}).
      set (finish := (t1 + latency E (posts w1))%Q).
      set (w2 := {| clock := finish; trace := _; yielded := _ |}).
      assert (Hpaced : fair E -> (last + RPS_DELAY_RELOAD_AUDIO <= t1)%Q
                                 /\ (t1 <= finish)%Q).
      { intros [Hl Ho]. specialize (Hl (posts w1)). specialize (Ho (sleeps w)).
        unfold finish, t1, delay in *. split; lra. }
      destruct (serve E (posts w1) (reload_audio_request g)) as [result0|e].
      * pose proof (quiet_handle_result X E u cv result0 w2) as Hq.
        destruct (handle_result X E u cv result0 w2) as [[[]|e] w3] eqn:Hh;
          cbn [snd] in Hq.
        -- destruct (IH finish w3) as (new & k & Ht & Hpc & Hpd & Hk & Hr & Hok).
           exists (EvSleep delay (clock w) t1
                   :: EvPost (reload_audio_request g) t1 finish :: new), (S k).
           rewrite Ht, Hq. subst w2 w1. cbn [trace]. rewrite <- !app_assoc.
           split5; [reflexivity| | | | |].
           ++ econstructor; [exact Hd|reflexivity|assumption].
           ++ intros Hf. cbn [post_times paced].
              destruct (Hpaced Hf) as [Ha Hb].
              split; [exact Ha|split; [exact Hb|first [exact I|exact (Hpd Hf)]]].
           ++ cbn [List.length]. lia.
           ++ cbn [requests firstn map]. rewrite Hr. reflexivity.
           ++ intros H. cbn [List.length]. rewrite (Hok H). reflexivity.
        -- exists [EvSleep delay (clock w) t1;
                   EvPost (reload_audio_request g) t1 finish], 1.
           cbn [snd fst]. rewrite Hq. subst w2 w1. cbn [trace].
           rewrite <- !app_assoc.
           split5; [reflexivity| | | | |].
           ++ econstructor; [exact Hd|reflexivity|constructor].
           ++ intros Hf. cbn [post_times paced]. destruct (Hpaced Hf) as [Ha Hb].
              split; [exact Ha|split; [exact Hb|first [exact I|exact (Hpd Hf)]]].
           ++ cbn [List.length]. lia.
           ++ cbn [firstn]. destruct rest; reflexivity.
           ++ discriminate.
      * exists [EvSleep delay (clock w) t1;
                EvPost (reload_audio_request g) t1 finish], 1.
        cbn [snd fst]. subst w2 w1. cbn [trace]. rewrite <- !app_assoc.
        split5; [reflexivity| | | | |].
        -- econstructor; [exact Hd|reflexivity|constructor].
        -- intros Hf. cbn [post_times paced]. destruct (Hpaced Hf) as [Ha Hb].
              split; [exact Ha|split; [exact Hb|first [exact I|exact (Hpd Hf)]]].
        -- cbn [List.length]. lia.
        -- cbn [firstn]. destruct rest; reflexivity.
        -- discriminate.
Qed.

End ResolverFacts.

(** ** Chunks *)

Lemma range_chunks (ids : list TrackIdentity) :
  forall fuel start,
    List.length ids - start <= fuel ->
    map (fun i => firstn 10 (skipn i ids)) (range_from fuel start (List.length ids) 10)
    = chunk_rec fuel (skipn start ids).
Proof.
  induction fuel as [|fuel IH]; intros start Hf.
  - reflexivity.
  - cbn [range_from chunk_rec].
    destruct (Nat.ltb_spec start (List.length ids)) as [Hlt|Hge].
    + cbn [map]. rewrite IH by lia.
      destruct (skipn start ids) as [|x l] eqn:Hs.
      * apply (f_equal (@List.length _)) in Hs.
        rewrite length_skipn in Hs. cbn in Hs. lia.
      * rewrite <- Hs. rewrite skipn_skipn.
        replace (10 + start) with (start + 10) by lia. reflexivity.
    + rewrite skipn_all2 by lia. reflexivity.
Qed.

Lemma chunks_rec (ids : list TrackIdentity) :
  chunks ids = chunk_rec (List.length ids) ids.
Proof.
  unfold chunks, range. rewrite range_chunks by lia. reflexivity.
Qed.

Lemma chunk_rec_facts :
  forall fuel l,
    List.length l <= fuel ->
    List.concat (chunk_rec fuel l) = l
    /\ Forall (fun g => 1 <= List.length g <= 10) (chunk_rec fuel l)
    /\ List.length l <= 10 * List.length (chunk_rec fuel l) < List.length l + 10.
Proof.
  induction fuel as [|fuel IH]; intros l Hl.
  - destruct l; [|cbn in Hl; lia]. cbn. repeat split; auto; lia.
  - destruct l as [|x l]; [cbn; repeat split; auto; lia|].
    cbn [chunk_rec]. set (l0 := x :: l) in *.
    assert (Hlen : 1 <= List.length l0) by (subst l0; cbn; lia).
    assert (Hsk : List.length (skipn 10 l0) = List.length l0 - 10)
      by apply length_skipn.
    assert (Hfi : List.length (firstn 10 l0) = Nat.min 10 (List.length l0))
      by apply length_firstn.
    destruct (IH (skipn 10 l0)) as (Hc & Hs & Hn); [lia|].
    split; [|split].
    + cbn [List.concat]. rewrite Hc. apply firstn_skipn.
    + constructor; [lia|assumption].
    + cbn [List.length]. lia.
Qed.

(** ** C1, C2, C7 *)

Ltac split4 := split; [|split; [|split; [|split]]].

(** C1. A call of [scrap_tracks] on N identities that runs to its end
    issues one request per chunk, in order, where the chunks are the
    consecutive slices of at most 10 identities: ceil(N/10) requests, each
    with the comma-joined list of the chunk's underscore-joined 4-tuples as
    its [ids] field; for N = 0 none is issued. *)
Theorem scrap_tracks_one_request_per_chunk
        (X : Externals) (E : Env) (ids : list TrackIdentity)
        (u : Z) (cv : bool) (w : World) :
  fst (scrap_tracks X E ids u cv w) = Ok tt ->
  let sent := skipn (posts w) (requests (trace (snd (scrap_tracks X E ids u cv w)))) in
  let n := List.length sent in
  firstn (posts w) (requests (trace (snd (scrap_tracks X E ids u cv w))))
  = requests (trace w)
  /\ sent = map reload_audio_request (chunks ids)
  /\ (List.length ids <= 10 * n < List.length ids + 10)
  /\ List.concat (chunks ids) = ids
  /\ Forall (fun g => 1 <= List.length g <= 10) (chunks ids)
  /\ (forall g,
         req_data (reload_audio_request g)
         = [("act", VStr "reload_audio");
            ("ids", VStr (join ","
                            (map (fun i => let '(a, b, c, d) := i in
                                           a ++ "_" ++ b ++ "_" ++ c ++ "_" ++ d)%string
                                 g)))])
  /\ (ids = [] -> sent = []).
Proof.
  intros Hok sent n.
  destruct (loop_trace X E u cv (chunks ids) 0%Q w)
    as (new & k & Ht & _ & _ & _ & Hr & Hk).
  fold (scrap_tracks X E ids u cv) in Ht, Hk.
  specialize (Hk Hok). subst k. rewrite firstn_all in Hr.
  assert (Hreq : requests (trace (snd (scrap_tracks X E ids u cv w)))
                 = requests (trace w) ++ map reload_audio_request (chunks ids)).
  { rewrite Ht, requests_app, Hr. reflexivity. }
  assert (Hsent : sent = map reload_audio_request (chunks ids)).
  { unfold sent, posts. rewrite Hreq, skipn_app, skipn_all, Nat.sub_diag. reflexivity. }
  destruct (chunk_rec_facts (List.length ids) ids (le_n _)) as (Hc & Hs & Hn).
  rewrite <- chunks_rec in Hc, Hs, Hn.
  split; [|split; [|split4; [| | | |]]].
  - unfold posts. rewrite Hreq, firstn_app, firstn_all, Nat.sub_diag.
    cbn [firstn]. apply app_nil_r.
  - exact Hsent.
  - unfold n. rewrite Hsent, length_map. exact Hn.
  - exact Hc.
  - exact Hs.
  - intros g. reflexivity.
  - intros ->. rewrite Hsent. reflexivity.
Qed.

Lemma paced_spaced (l : list (Q * Q)) :
  forall last, paced last l -> spaced l.
Proof.
  induction l as [|[s f] l IH]; intros last H; cbn [spaced]; [exact I|].
  cbn [paced] in H. destruct H as (Hs & Hf & Hl). split.
  - destruct l as [|[s' f'] l]; [exact I|].
    cbn [paced] in Hl. destruct Hl as (Hs' & _). lra.
  - apply (IH f). assumption.
Qed.

(** C2. Within one [scrap_tracks] call, on a clock where a request takes no
    negative time and a sleep lasts at least as long as asked, consecutive
    requests start at least 1.5 seconds apart: each request starts at least
    1.5 seconds after the completion of the one before. The events of the
    call have the shape the pacing prescribes: a request either starts once
    1.5 seconds have elapsed since the last completion, or follows a sleep
    for the remainder. *)
Theorem scrap_tracks_requests_are_paced
        (X : Externals) (E : Env) (ids : list TrackIdentity)
        (u : Z) (cv : bool) (w : World) :
  fair E ->
  exists new,
    trace (snd (scrap_tracks X E ids u cv w)) = trace w ++ new
    /\ spaced (post_times new)
    /\ paced 0%Q (post_times new)
    /\ pacing 0%Q new.
Proof.
  intros Hf.
  destruct (loop_trace X E u cv (chunks ids) 0%Q w)
    as (new & k & Ht & Hpc & Hpd & _).
  exists new. split; [exact Ht|]. split; [|split].
  - apply (paced_spaced _ 0%Q). apply Hpd. exact Hf.
  - apply Hpd. exact Hf.
  - exact Hpc.
Qed.

(** C1, witness: eleven identities, two requests. *)
Lemma scrap_tracks_one_request_per_chunk_witness :
  let run := scrap_tracks Double.externals
               (Double.scripted (fun _ => Ok (Double.reloaded
                  [Double.audio 7 1 "https://h/ab/cd/index.m3u8" Double.hashes6])))
               (Double.identities 11) 1 true (Double.start_at 0%Q) in
  fst run = Ok tt
  /\ skipn 0 (requests (trace (snd run)))
     = map reload_audio_request (chunks (Double.identities 11))
  /\ List.length (requests (trace (snd run))) = 2.
Proof.
  intros run.
  assert (H : fst run = Ok tt) by (vm_compute; reflexivity).
  split; [exact H|]. split.
  - exact (proj1 (proj2 (scrap_tracks_one_request_per_chunk _ _ _ _ _ _ H))).
  - vm_compute. reflexivity.
Defined.

Lemma fair_slow (script : nat -> result value) : fair (Double.slow script).
Proof. split; intros n; cbn; unfold Qle; cbn; lia. Defined.

(** C2, witness: a slow server and 25 identities. *)
Lemma scrap_tracks_requests_are_paced_witness :
  fair (Double.slow (fun _ => Ok (Double.reloaded [])))
  /\ exists new,
      trace (snd (scrap_tracks Double.externals
                    (Double.slow (fun _ => Ok (Double.reloaded [])))
                    (Double.identities 25) 1 true (Double.start_at 0%Q)))
      = trace (Double.start_at 0%Q) ++ new
      /\ spaced (post_times new)
      /\ paced 0%Q (post_times new)
      /\ pacing 0%Q new.
Proof.
  split; [apply fair_slow|].
  exact (scrap_tracks_requests_are_paced Double.externals _
           (Double.identities 25) 1 true (Double.start_at 0%Q) (fair_slow _)).
Defined.

Lemma handle_result_falsy (X : Externals) (E : Env) (u : Z) (cv : bool)
      (result0 data : value) (w : World) :
  getkey result0 "data" = Ok data ->
  truthy data = false ->
  handle_result X E u cv result0 w = (Ok tt, w).
Proof.
  intros Hd Ht. unfold handle_result, Gen.bind, Gen.lift.
  rewrite Hd, Ht. reflexivity.
Qed.

Lemma pace_ok (E : Env) (last : Q) (w : World) :
  pace E last w = (Ok tt, snd (pace E last w))
  /\ yielded (snd (pace E last w)) = yielded w.
Proof.
  destruct (pace_run E last w) as [[_ H]|[_ H]]; rewrite H; split; reflexivity.
Qed.

(** C7 (as amended). When the decoded answer to a chunk's request has a
    [data] entry that is falsy (null, false, 0, an empty string, list or
    object), the chunk yields nothing and raises nothing, and the loop goes
    on with the remaining chunks from the world the request left. *)
Theorem falsy_data_envelope_skips_the_chunk
        (X : Externals) (E : Env) (u : Z) (cv : bool)
        (g : list TrackIdentity) (rest : list (list TrackIdentity))
        (last : Q) (w : World) (result0 data : value) :
  let w1 := snd (pace E last w) in
  let w2 := snd (http_post E (reload_audio_request g) w1) in
  serve E (posts w1) (reload_audio_request g) = Ok result0 ->
  getkey result0 "data" = Ok data ->
  truthy data = false ->
  handle_result X E u cv result0 w2 = (Ok tt, w2)
  /\ yielded w2 = yielded w
  /\ scrap_tracks_loop X E u cv (g :: rest) last w
     = scrap_tracks_loop X E u cv rest (clock w2) w2.
Proof.
  intros w1 w2 Hs Hd Ht.
  destruct (pace_ok E last w) as [Hp Hy]. fold w1 in Hp, Hy.
  pose proof (handle_result_falsy X E u cv result0 data w2 Hd Ht) as Hh.
  split; [exact Hh|]. split; [exact Hy|].
  rewrite (loop_after_pace X E u cv g rest last w w1 Hp). cbv zeta.
  rewrite Hs. unfold w2, http_post in Hh. cbn [snd] in Hh. rewrite Hh.
  reflexivity.
Qed.

(** C7, witness: the first of two chunks is answered with [{"data": []}]. *)
Lemma falsy_data_envelope_witness :
  let E := Double.scripted (fun _ => Ok (VDict [("data", VList [])])) in
  let w := Double.start_at 2%Q in
  let g := Double.identities 10 in
  let rest := [Double.identities 1] in
  scrap_tracks_loop Double.externals E 1 true (g :: rest) 0%Q w
  = scrap_tracks_loop Double.externals E 1 true rest
      (clock (snd (http_post E (reload_audio_request g) (snd (pace E 0%Q w)))))
      (snd (http_post E (reload_audio_request g) (snd (pace E 0%Q w)))).
Proof.
  intros E w g rest.
  exact (proj2 (proj2 (falsy_data_envelope_skips_the_chunk
                         Double.externals E 1 true g rest 0%Q w
                         (VDict [("data", VList [])]) (VList [])
                         eq_refl eq_refl eq_refl))).
Defined.

(** C7, as the specification states it, fails for an absent envelope: an
    answer without a [data] key makes the call raise KeyError after the
    first of its two requests. *)
Lemma absent_data_envelope_raises_KeyError :
  let run := scrap_tracks Double.externals
               (Double.scripted (fun _ => Ok (VDict [])))
               (Double.identities 11) 1 true (Double.start_at 0%Q) in
  fst run = Raise KeyError
  /\ List.length (requests (trace (snd run))) = 1
  /\ List.length (chunks (Double.identities 11)) = 2.
Proof. vm_compute. repeat split. Qed.

(** ** Termination of the drivers *)

Lemma halts_bind {A} (m : M A) (f : A -> M status) (w : World) :
  (forall a w', m w = (Ok a, w') -> halts (f a w')) ->
  halts (Gen.bind m f w).
Proof.
  intros H. unfold Gen.bind. destruct (m w) as [[a|e] w'].
  - apply H. reflexivity.
  - unfold halts. cbn. discriminate.
Qed.

Lemma halts_returned (w : World) : halts (Gen.ret Returned w).
Proof. unfold halts. cbn. discriminate. Qed.

Lemma halts_raise (e : exn) (w : World) : halts (Gen.raise e w).
Proof. unfold halts. cbn. discriminate. Qed.

Lemma lift_inv {A} (r : result A) (w w' : World) (a : A) :
  Gen.lift r w = (Ok a, w') -> r = Ok a /\ w' = w.
Proof. unfold Gen.lift. intros H. injection H as -> ->. auto. Qed.

Lemma ret_inv {A} (x a : A) (w w' : World) :
  Gen.ret x w = (Ok a, w') -> a = x /\ w' = w.
Proof. unfold Gen.ret. intros H. injection H as -> ->. auto. Qed.

Lemma quiet_yield_raw (X : Externals) (E : Env) (i : value) : quiet (yield_raw X E i).
Proof. unfold yield_raw. apply quiet_bind; auto with quiet. Qed.

Lemma get_iter_loop_stops_after_last_page
      (X : Externals) (E : Env) (self : VkAudio) (owner album : option Z)
      (hash : option string) (raw : bool)
      (fuel : nat) (off : Z) (r : value) (w : World) :
  no_more_pages r ->
  get_iter_loop X E self owner album hash raw (S fuel) off (Some r) w
  = (Ok Returned, w).
Proof.
  intros (d0 & more & Hd & Hm & Ht).
  cbn [get_iter_loop]. unfold Gen.bind, Gen.lift, Gen.ret.
  rewrite Hd, Hm, Ht. reflexivity.
Qed.

Lemma next_catalog_request_inv (jr : value) (r : Request) :
  next_catalog_request jr = Ok r ->
  exists sid nf, r = load_catalog_section_request sid nf.
Proof.
  unfold next_catalog_request.
  destruct (payload11 jr) as [s|e]; cbn [Res.bind]; [|discriminate].
  destruct (getkey s "sectionId") as [sid|e]; cbn [Res.bind]; [|discriminate].
  destruct (getkey s "nextFrom") as [nf|e]; cbn [Res.bind]; [|discriminate].
  intros H. injection H as <-. eauto.
Qed.

Lemma news_next_request_inv (jr : value) (r : Request) :
  news_next_request jr = Ok r ->
  exists sid nf, r = load_catalog_section_request sid nf.
Proof.
  unfold news_next_request.
  destruct (recoms jr) as [s|e]; cbn [Res.bind]; [|discriminate].
  destruct (getkey s "sectionId") as [sid|e]; cbn [Res.bind]; [|discriminate].
  destruct (getkey s "nextFrom") as [nf|e]; cbn [Res.bind]; [|discriminate].
  intros H. injection H as <-. eauto.
Qed.

Lemma get_popular_iter_halts (X : Externals) (E : Env) (self : VkAudio)
      (offset : Z) (w : World) :
  halts (get_popular_iter X E self offset w).
Proof.
  unfold get_popular_iter.
  apply halts_bind. intros jr w1 _.
  apply halts_bind. intros lst w2 _.
  apply halts_bind. intros ids w3 _.
  apply halts_bind. intros [] w4 _.
  apply halts_returned.
Qed.

(** ** The pages a run receives *)

Lemma page_answers_app (E : Env) (a b : list Request) :
  forall n,
    page_answers E n (a ++ b)
    = page_answers E n a ++ page_answers E (n + List.length a) b.
Proof.
  induction a as [|r a IH]; intros n.
  - cbn. rewrite Nat.add_0_r. reflexivity.
  - cbn [app page_answers List.length]. rewrite IH, <- app_assoc.
    replace (S n + List.length a) with (n + S (List.length a)) by lia.
    reflexivity.
Qed.

Lemma pages_after_post (E : Env) (r : Request) (w : World) :
  pages_received E (snd (http_post E r w))
  = pages_received E w ++ (if is_page r then [serve E (posts w) r] else []).
Proof.
  unfold pages_received, http_post. cbn [snd trace].
  rewrite requests_app, page_answers_app. cbn [requests page_answers].
  rewrite app_nil_r. reflexivity.
Qed.

Lemma pages_same_trace (E : Env) (w w' : World) :
  trace w' = trace w -> pages_received E w' = pages_received E w.
Proof. unfold pages_received. intros ->. reflexivity. Qed.

Lemma page_answers_reloads (E : Env) (groups : list (list TrackIdentity)) :
  forall n, page_answers E n (map reload_audio_request groups) = [].
Proof.
  induction groups as [|g groups IH]; intros n; [reflexivity|].
  cbn [map page_answers]. rewrite IH. reflexivity.
Qed.

Lemma pages_after_scrap_tracks (X : Externals) (E : Env) (ids : list TrackIdentity)
      (u : Z) (cv : bool) (w : World) :
  pages_received E (snd (scrap_tracks X E ids u cv w)) = pages_received E w.
Proof.
  destruct (loop_trace X E u cv (chunks ids) 0%Q w) as (new & k & Ht & _ & _ & _ & Hr & _).
  unfold scrap_tracks, pages_received. rewrite Ht, requests_app, page_answers_app, Hr.
  rewrite page_answers_reloads, app_nil_r. reflexivity.
Qed.

Lemma pages_after_news_page (X : Externals) (E : Env) (self : VkAudio) (offset : Z)
      (ids : list TrackIdentity) (ol : Z) (w : World) :
  pages_received E (snd (news_page X E self offset ids ol w)) = pages_received E w.
Proof.
  unfold news_page.
  destruct (offset <=? ol + Z.of_nat (List.length ids))%Z;
    [apply pages_after_scrap_tracks|reflexivity].
Qed.

Lemma pages_after_raw_items (X : Externals) (E : Env) (items : list value) (w : World) :
  pages_received E (snd (for_each (yield_raw X E) items w)) = pages_received E w.
Proof.
  apply pages_same_trace.
  apply (quiet_for_each (yield_raw X E) items (quiet_yield_raw X E)).
Qed.

Lemma when_running_bind {A} (P : World -> Prop) (m : M A) (f : A -> M status)
      (w : World) :
  (forall a w', m w = (Ok a, w') -> when_running P (f a w')) ->
  when_running P (Gen.bind m f w).
Proof.
  intros H. unfold Gen.bind. destruct (m w) as [[a|e] w'].
  - apply H. reflexivity.
  - intros Hc. discriminate Hc.
Qed.

Lemma when_running_returned (P : World -> Prop) (w : World) :
  when_running P (Gen.ret Returned w).
Proof. intros Hc. discriminate Hc. Qed.

Lemma when_running_raise (P : World -> Prop) (e : exn) (w : World) :
  when_running P (Gen.raise e w).
Proof. intros Hc. discriminate Hc. Qed.

Lemma went_on_none (E : Env) (ends : result value -> Prop) (w w' : World)
      (pending : nat) :
  pages_received E w' = pages_received E w ->
  went_on E ends w 0 pending w'.
Proof.
  intros H. exists []. rewrite app_nil_r. split; [exact H|]. split; [reflexivity|].
  intros i a Hi. lia.
Qed.

Lemma went_on_step (E : Env) (ends : result value -> Prop) (w w1 w' : World)
      (m pending : nat) (a : result value) :
  pages_received E w1 = pages_received E w ++ [a] ->
  (pending <= m -> ~ ends a) ->
  went_on E ends w1 m pending w' ->
  went_on E ends w (S m) pending w'.
Proof.
  intros H1 Ha (answers & Hp & Hl & Hn).
  exists (a :: answers). rewrite Hp, H1, <- app_assoc. split; [reflexivity|].
  split; [cbn; rewrite Hl; reflexivity|].
  intros [|i] b Hi Hb; cbn [nth_error] in Hb.
  - injection Hb as <-. apply Ha. lia.
  - apply (Hn i b); [lia|exact Hb].
Qed.

(** A run that has gone on past its [j]-th page cannot have found that
    page to end the driver. *)
Lemma went_on_contradicts (E : Env) (ends : result value -> Prop) (w w' : World)
      (m pending j : nat) :
  went_on E ends w m pending w' ->
  j + pending < m ->
  (forall a, nth_error (pages_received E w') (List.length (pages_received E w) + j)
             = Some a -> ends a) ->
  False.
Proof.
  intros (answers & Hp & Hl & Hn) Hj Hends.
  destruct (nth_error answers j) as [a|] eqn:Ha.
  - apply (Hn j a Hj Ha). apply Hends.
    rewrite Hp, nth_error_app2 by lia.
    replace (List.length (pages_received E w) + j - List.length (pages_received E w))
      with j by lia.
    exact Ha.
  - apply nth_error_None in Ha. lia.
Qed.

Lemma run_world {A} (m : M A) (w w' : World) (r : result A) :
  m w = (r, w') -> w' = snd (m w).
Proof. intros ->. reflexivity. Qed.

Section GetIterRuns.
Variable X : Externals.
Variable E : Env.
Variable self : VkAudio.
Variable owner album : option Z.
Variable hash : option string.
Variable raw : bool.

Lemma listing_request_is_page (off : Z) :
  is_page (load_section_request self owner album hash off) = true.
Proof. reflexivity. Qed.

(** A run of [get_iter] that the fuel cuts after [fuel] turns has received
    [fuel] pages, and none of them but the last one ends the listing. *)
Lemma get_iter_loop_went_on (fuel : nat) :
  forall (off : Z) (resp : option value) (w : World),
    when_running (went_on E (ends_listing X raw) w fuel 1)
      (get_iter_loop X E self owner album hash raw fuel off resp w).
Proof.
  induction fuel as [|fuel IH]; intros off resp w.
  - intros _. apply went_on_none. reflexivity.
  - cbn [get_iter_loop].
    apply when_running_bind. intros go w0 Hgo.
    assert (Hw0 : w0 = w).
    { destruct resp as [r|].
      - unfold Gen.bind, Gen.lift, Gen.ret in Hgo.
        destruct (data0 r) as [d0|e]; [|discriminate].
        destruct (getkey d0 "hasMore") as [more|e]; [|discriminate].
        injection Hgo as _ <-. reflexivity.
      - apply ret_inv in Hgo. apply Hgo. }
    subst w0. clear Hgo.
    destruct go as [off'|]; [|apply when_running_returned].
    apply when_running_bind. intros r' w2 Hpost.
    pose proof (pages_after_post E (load_section_request self owner album hash off') w)
      as Hpages.
    rewrite Hpost, listing_request_is_page in Hpages. cbn [snd] in Hpages.
    assert (Hserve : serve E (posts w)
                       (load_section_request self owner album hash off') = Ok r').
    { unfold http_post in Hpost. injection Hpost as H _. exact H. }
    rewrite Hserve in Hpages.
    apply when_running_bind. intros d0 w2' Hd. apply lift_inv in Hd as [Hd ->].
    destruct (truthy d0) eqn:Ht0; cbn [negb]; [|apply when_running_raise].
    apply when_running_bind. intros lst w2' Hl. apply lift_inv in Hl as [Hl ->].
    destruct raw eqn:Hraw.
    + apply when_running_bind. intros items w2' Hi. apply lift_inv in Hi as [Hi ->].
      apply when_running_bind. intros [] w3 Hf.
      pose proof (pages_after_raw_items X E items w2) as H3.
      rewrite Hf in H3. cbn [snd] in H3.
      intros Hrun.
      apply (went_on_step E _ w w3 _ fuel 1 (Ok r')).
      * rewrite H3. exact Hpages.
      * intros Hfuel Hend. cbn [ends_listing] in Hend.
        destruct Hend as [Hend|[Hc _]]; [|discriminate].
        destruct fuel as [|fuel']; [lia|].
        rewrite (get_iter_loop_stops_after_last_page X E self owner album hash true
                   fuel' off' r' w3 Hend) in Hrun.
        discriminate Hrun.
      * exact (IH off' (Some r') w3 Hrun).
    + apply when_running_bind. intros ids w2' Hids. apply lift_inv in Hids as [Hids ->].
      destruct ids as [|i ids]; [apply when_running_returned|].
      apply when_running_bind. intros [] w3 Hs.
      pose proof (pages_after_scrap_tracks X E (i :: ids) (user_id self)
                    (convert_m3u8_links self) w2) as H3.
      rewrite Hs in H3. cbn [snd] in H3.
      apply when_running_bind. intros d0' w3' Hd'. apply lift_inv in Hd' as [Hd' ->].
      apply when_running_bind. intros more w3' Hm. apply lift_inv in Hm as [Hm ->].
      destruct (truthy more) eqn:Htm; [|apply when_running_returned].
      intros Hrun.
      apply (went_on_step E _ w w3 _ fuel 1 (Ok r')).
      * rewrite H3. exact Hpages.
      * intros _ Hend. cbn [ends_listing] in Hend.
        destruct Hend as [(d1 & m1 & Hd1 & Hm1 & Ht1)|[_ (d1 & l1 & Hd1 & Hl1 & Hi1)]].
        -- rewrite Hd1 in Hd'. injection Hd' as <-.
           rewrite Hm1 in Hm. injection Hm as <-. congruence.
        -- rewrite Hd1 in Hd. injection Hd as <-.
           rewrite Hl1 in Hl. injection Hl as <-.
           rewrite Hi1 in Hids. discriminate.
      * exact (IH (off' + offset_diff album)%Z (Some r') w3 Hrun).
Qed.

End GetIterRuns.

Lemma catalog_request_is_page (sid nf : value) :
  is_page (load_catalog_section_request sid nf) = true.
Proof. reflexivity. Qed.

Lemma post_page (E : Env) (r : Request) (w w2 : World) (a : value) :
  is_page r = true ->
  http_post E r w = (Ok a, w2) ->
  pages_received E w2 = pages_received E w ++ [Ok a].
Proof.
  intros Hr Hpost. pose proof (pages_after_post E r w) as H.
  rewrite Hpost, Hr in H. cbn [snd] in H.
  unfold http_post in Hpost. injection Hpost as Hs _. rewrite Hs in H. exact H.
Qed.

Section SearchRuns.
Variable X : Externals.
Variable E : Env.
Variable self : VkAudio.
Variable offset : Z.
Variable raw : bool.

(** A run of the loop of [search_iter] that the fuel cuts after [fuel] turns
    has received [fuel] pages more; the page it began with and all of them
    but the last one have identities in the chosen playlist. *)
Lemma search_iter_loop_went_on (di fuel : nat) :
  forall (jr : value) (ol : Z) (w : World),
    when_running
      (fun w' => went_on E (ends_search X di) w fuel 1 w'
                 /\ (1 <= fuel -> ~ ends_search X di (Ok jr)))
      (search_iter_loop X E self offset raw fuel di jr ol w).
Proof.
  induction fuel as [|fuel IH]; intros jr ol w.
  - intros _. split; [apply went_on_none; reflexivity|lia].
  - cbn [search_iter_loop].
    apply when_running_bind. intros pl w' Hp. apply lift_inv in Hp as [Hp ->].
    destruct (truthy pl); cbn [negb]; [|apply when_running_returned].
    apply when_running_bind. intros lst w' Hl. apply lift_inv in Hl as [Hl ->].
    apply when_running_bind. intros ids w' Hi. apply lift_inv in Hi as [Hi ->].
    destruct ids as [|i ids]; [apply when_running_returned|].
    apply when_running_bind. intros ids2 w1 Hy.
    assert (H1 : pages_received E w1 = pages_received E w).
    { rewrite (run_world _ _ _ _ Hy).
      destruct (offset <=? ol + Z.of_nat (List.length (i :: ids)))%Z; [|reflexivity].
      unfold Gen.bind at 1.
      destruct raw; cbn [negb].
      - unfold Gen.bind at 1. unfold Gen.lift at 1.
        destruct (py_iter lst) as [items|e]; [|reflexivity].
        pose proof (pages_after_raw_items X E items w) as Hq.
        destruct (for_each (yield_raw X E) items w) as [[[]|e] wq]; exact Hq.
      - pose proof (pages_after_scrap_tracks X E
                      (if (ol <? offset)%Z then slice_from (offset - ol) (i :: ids)
                       else i :: ids)
                      (user_id self) (convert_m3u8_links self) w) as Hq.
        destruct (scrap_tracks X E _ (user_id self) (convert_m3u8_links self) w)
          as [[[]|e] wq]; exact Hq. }
    apply when_running_bind. intros r w' Hr. apply lift_inv in Hr as [Hr ->].
    destruct (next_catalog_request_inv _ _ Hr) as (sid & nf & ->).
    apply when_running_bind. intros jr' w2 Hpost.
    pose proof (post_page E _ w1 w2 jr' (catalog_request_is_page sid nf) Hpost) as H2.
    intros Hrun. destruct (IH jr' _ w2 Hrun) as [Hwent Hjr']. split.
    + apply (went_on_step E _ w w2 _ fuel 1 (Ok jr')).
      * rewrite H2, H1. reflexivity.
      * exact Hjr'.
      * exact Hwent.
    + intros _ (pl1 & l1 & Hp1 & Hl1 & Hi1).
      rewrite Hp1 in Hp. injection Hp as <-.
      rewrite Hl1 in Hl. injection Hl as <-.
      rewrite Hi1 in Hi. discriminate.
Qed.

End SearchRuns.

Section NewsRuns.
Variable X : Externals.
Variable E : Env.
Variable self : VkAudio.
Variable offset : Z.

(** A run of the loop of [get_news_iter] that the fuel cuts after [fuel]
    turns has received [fuel] pages, all of them with identities. *)
Lemma get_news_iter_loop_went_on (fuel : nat) :
  forall (jr : value) (ol : Z) (w : World),
    when_running (went_on E (ends_news X) w fuel 0)
      (get_news_iter_loop X E self offset fuel jr ol w).
Proof.
  induction fuel as [|fuel IH]; intros jr ol w.
  - intros _. apply went_on_none. reflexivity.
  - cbn [get_news_iter_loop].
    apply when_running_bind. intros r w' Hr. apply lift_inv in Hr as [Hr ->].
    destruct (news_next_request_inv _ _ Hr) as (sid & nf & ->).
    apply when_running_bind. intros jr' w2 Hpost.
    pose proof (post_page E _ w w2 jr' (catalog_request_is_page sid nf) Hpost) as H2.
    apply when_running_bind. intros s w' Hs. apply lift_inv in Hs as [Hs ->].
    apply when_running_bind. intros p w' Hpl. apply lift_inv in Hpl as [Hpl ->].
    apply when_running_bind. intros lst w' Hl. apply lift_inv in Hl as [Hl ->].
    apply when_running_bind. intros ids w' Hi. apply lift_inv in Hi as [Hi ->].
    destruct ids as [|i ids]; [apply when_running_returned|].
    apply when_running_bind. intros [] w3 Hn.
    pose proof (pages_after_news_page X E self offset (i :: ids) ol w2) as H3.
    rewrite Hn in H3. cbn [snd] in H3.
    intros Hrun.
    apply (went_on_step E _ w w3 _ fuel 0 (Ok jr')).
    + rewrite H3. exact H2.
    + intros _ (s1 & p1 & l1 & Hs1 & Hp1 & Hl1 & Hi1).
      rewrite Hs1 in Hs. injection Hs as <-.
      rewrite Hp1 in Hpl. injection Hpl as <-.
      rewrite Hl1 in Hl. injection Hl as <-.
      rewrite Hi1 in Hi. discriminate.
    + exact (IH jr' _ w3 Hrun).
Qed.

End NewsRuns.

Section UpdatesRuns.
Variable X : Externals.
Variable E : Env.
Variable self : VkAudio.

(** A run of the loop of [get_updates_iter] that the fuel cuts after [fuel]
    turns has received [fuel] pages more; the page it began with and all of
    them but the last one have identities and at least 11 playlists. *)
Lemma get_updates_iter_loop_went_on (fuel : nat) :
  forall (jr : value) (w : World),
    when_running
      (fun w' => went_on E (ends_updates X) w fuel 1 w'
                 /\ (1 <= fuel -> ~ ends_updates X (Ok jr)))
      (get_updates_iter_loop X E self fuel jr w).
Proof.
  induction fuel as [|fuel IH]; intros jr w.
  - intros _. split; [apply went_on_none; reflexivity|lia].
  - cbn [get_updates_iter_loop].
    apply when_running_bind. intros s w' Hs. apply lift_inv in Hs as [Hs ->].
    apply when_running_bind. intros pls w' Hp. apply lift_inv in Hp as [Hp ->].
    apply when_running_bind. intros playlists w' Hi. apply lift_inv in Hi as [Hi ->].
    apply when_running_bind. intros updates w' Hl. apply lift_inv in Hl as [Hl ->].
    apply when_running_bind. intros heads w' Hh. apply lift_inv in Hh as [Hh ->].
    apply when_running_bind. intros ids w' Hids. apply lift_inv in Hids as [Hids ->].
    destruct ids as [|i ids]; [apply when_running_returned|].
    apply when_running_bind. intros [] w1 Hst.
    pose proof (pages_after_scrap_tracks X E (i :: ids) (user_id self)
                  (convert_m3u8_links self) w) as H1.
    rewrite Hst in H1. cbn [snd] in H1.
    destruct (List.length updates <? 11) eqn:Hlen; [apply when_running_returned|].
    apply when_running_bind. intros r w' Hr. apply lift_inv in Hr as [Hr ->].
    destruct (next_catalog_request_inv _ _ Hr) as (sid & nf & ->).
    apply when_running_bind. intros jr' w2 Hpost.
    pose proof (post_page E _ w1 w2 jr' (catalog_request_is_page sid nf) Hpost) as H2.
    intros Hrun. destruct (IH jr' w2 Hrun) as [Hwent Hjr']. split.
    + apply (went_on_step E _ w w2 _ fuel 1 (Ok jr')).
      * rewrite H2, H1. reflexivity.
      * exact Hjr'.
      * exact Hwent.
    + intros _ (ids0 & n & Hu & Hstop).
      unfold updates_of in Hu.
      rewrite Hs in Hu. cbn [Res.bind] in Hu. rewrite Hp in Hu. cbn [Res.bind] in Hu.
      rewrite Hi in Hu. cbn [Res.bind] in Hu. rewrite Hl in Hu. cbn [Res.bind] in Hu.
      rewrite Hh in Hu. cbn [Res.bind] in Hu. rewrite Hids in Hu. cbn [Res.bind] in Hu.
      injection Hu as <- <-.
      destruct Hstop as [Hc|Hn]; [discriminate|].
      apply Nat.ltb_ge in Hlen. lia.
Qed.

End UpdatesRuns.

(** C8 (as amended). A driver is over, that is, it has returned or raised,
    as soon as one of the pages it receives ends it by the driver's own
    rule, whatever the server would answer to requests that are then never
    sent: if the [j]-th page a run receives is such a page, the run is over
    within [j + 2] turns of the loop. The rule is, for [get_iter], a page
    that reports no more pages or, outside raw mode only, gives no identity;
    for [search_iter], a page whose chosen playlist gives no identity; for
    [get_news_iter], a page after the first that gives no identity; for
    [get_updates_iter], a page that gives no identity or has fewer than 11
    playlists; [get_popular_iter] reads one page. *)
Theorem drivers_halt_after_last_page
        (X : Externals) (E : Env) (self : VkAudio) (j : nat) (w : World) :
  let seen := List.length (pages_received E w) in
  (forall owner album hash raw fuel,
      let run := get_iter X E self owner album hash raw fuel w in
      (forall a, nth_error (pages_received E (snd run)) (seen + j) = Some a ->
                 ends_listing X raw a) ->
      j + 2 <= fuel -> halts run)
  /\ (forall q offset raw so fuel,
      let run := search_iter X E self q offset raw so fuel w in
      (forall first a,
          nth_error (pages_received E (snd run)) seen = Some first ->
          nth_error (pages_received E (snd run)) (seen + j) = Some a ->
          ends_search_of X so first a) ->
      j + 1 <= fuel -> halts run)
  /\ (forall offset fuel,
      let run := get_news_iter X E self offset fuel w in
      (forall a, nth_error (pages_received E (snd run)) (seen + S j) = Some a ->
                 ends_news X a) ->
      j + 1 <= fuel -> halts run)
  /\ (forall fuel,
      let run := get_updates_iter X E self fuel w in
      (forall a, nth_error (pages_received E (snd run)) (seen + j) = Some a ->
                 ends_updates X a) ->
      j + 1 <= fuel -> halts run)
  /\ (forall offset, halts (get_popular_iter X E self offset w)).
Proof.
  intros seen. split4.
  - intros owner album hash raw fuel run Hends Hfuel Hrun.
    pose proof (get_iter_loop_went_on X E self owner album hash raw fuel 0%Z None w Hrun)
      as Hwent.
    apply (went_on_contradicts E _ w _ fuel 1 j Hwent); [lia|exact Hends].
  - intros q offset raw so fuel run Hends Hfuel Hrun.
    refine ((_ : when_running
                   (fun w' =>
                      (forall first a,
                          nth_error (pages_received E w') seen = Some first ->
                          nth_error (pages_received E w') (seen + j) = Some a ->
                          ends_search_of X so first a) -> False) run) Hrun Hends).
    clear Hends Hrun. unfold run, search_iter.
    apply when_running_bind. intros jr w1 Hpost.
    pose proof (post_page E (search_request self q) w w1 jr eq_refl Hpost) as H1.
    apply when_running_bind. intros s w' Hs. apply lift_inv in Hs as [Hs ->].
    apply when_running_bind. intros pls w' Hp. apply lift_inv in Hp as [Hp ->].
    apply when_running_bind. intros playlists w' Hi. apply lift_inv in Hi as [Hi ->].
    apply when_running_bind. intros di w' Hd. apply lift_inv in Hd as [Hd ->].
    assert (Hdi : search_index so jr = Ok di).
    { unfold search_index. rewrite Hs. cbn [Res.bind]. rewrite Hp. cbn [Res.bind].
      rewrite Hi. exact Hd. }
    intros Hloop Hends.
    destruct (search_iter_loop_went_on X E self offset raw di fuel jr 0%Z w1 Hloop)
      as [Hwent Hjr].
    pose proof (went_on_step E _ w w1 _ fuel 1 (Ok jr) H1 Hjr Hwent) as Hall.
    apply (went_on_contradicts E _ w _ (S fuel) 1 j Hall); [lia|].
    intros a Ha. refine (Hends (Ok jr) a _ Ha jr di eq_refl Hdi).
    destruct Hall as (answers & Hpg & _). rewrite Hpg.
    destruct Hwent as (answers' & Hpg' & _).
    rewrite Hpg', H1, <- app_assoc in Hpg. apply app_inv_head in Hpg. subst answers.
    unfold seen. rewrite nth_error_app2 by lia. rewrite Nat.sub_diag. reflexivity.
  - intros offset fuel run Hends Hfuel Hrun.
    refine ((_ : when_running
                   (fun w' =>
                      (forall a,
                          nth_error (pages_received E w') (seen + S j) = Some a ->
                          ends_news X a) -> False) run) Hrun Hends).
    clear Hends Hrun. unfold run, get_news_iter.
    apply when_running_bind. intros jr w1 Hpost.
    pose proof (post_page E (recoms_request "new_songs") w w1 jr eq_refl Hpost) as H1.
    apply when_running_bind. intros lst w' Hs. apply lift_inv in Hs as [_ ->].
    apply when_running_bind. intros ids w' Hs. apply lift_inv in Hs as [_ ->].
    apply when_running_bind. intros [] w3 Hn.
    pose proof (pages_after_news_page X E self offset ids 0%Z w1) as H3.
    rewrite Hn in H3. cbn [snd] in H3.
    intros Hloop Hends.
    pose proof (get_news_iter_loop_went_on X E self offset fuel jr _ w3 Hloop) as Hwent.
    apply (went_on_contradicts E _ w3 _ fuel 0 j Hwent); [lia|].
    intros a Ha. apply Hends. rewrite <- Ha. f_equal.
    rewrite H3, H1, length_app. unfold seen. cbn [List.length]. lia.
  - intros fuel run Hends Hfuel Hrun.
    refine ((_ : when_running
                   (fun w' =>
                      (forall a,
                          nth_error (pages_received E w') (seen + j) = Some a ->
                          ends_updates X a) -> False) run) Hrun Hends).
    clear Hends Hrun. unfold run, get_updates_iter.
    apply when_running_bind. intros jr w1 Hpost.
    pose proof (post_page E (updates_request self) w w1 jr eq_refl Hpost) as H1.
    intros Hloop Hends.
    destruct (get_updates_iter_loop_went_on X E self fuel jr w1 Hloop) as [Hwent Hjr].
    pose proof (went_on_step E _ w w1 _ fuel 1 (Ok jr) H1 Hjr Hwent) as Hall.
    apply (went_on_contradicts E _ w _ (S fuel) 1 j Hall); [lia|exact Hends].
  - intros offset. apply get_popular_iter_halts.
Qed.

(** C8, witness: a listing whose second page is the last one, on a server
    whose later answers would all report more pages; and a raw search whose
    third page has no identity. *)
Lemma drivers_halt_after_last_page_witness :
  let E := Double.scripted Double.last_page_then_more in
  let run := get_iter Double.externals E Double.me None None None false 4
               (Double.start_at 0%Q) in
  let Es := Double.scripted Double.five_and_five_raw in
  let search := search_iter Double.externals Es Double.me "q" 0 true GLOBAL_AUDIOS 3
                  (Double.start_at 0%Q) in
  (forall n, 4 <= n ->
     ~ ends_listing Double.externals false (Double.last_page_then_more n))
  /\ halts run
  /\ fst run = Ok Returned
  /\ yielded_ids (yielded (snd run)) = [VInt 0; VInt 1]
  /\ halts search
  /\ fst search = Ok Returned.
Proof.
  intros E run Es search.
  split; [|split; [|split; [|split; [|split]]]]; try (vm_compute; reflexivity).
  - intros n Hn. do 4 (destruct n as [|n]; [lia|]).
    cbn [Double.last_page_then_more ends_listing].
    intros [(d0 & more & Hd & Hm & Ht)|[_ (d0 & lst & Hd & Hl & Hi)]].
    + vm_compute in Hd. injection Hd as <-. vm_compute in Hm. injection Hm as <-.
      discriminate Ht.
    + vm_compute in Hd. injection Hd as <-. vm_compute in Hl. injection Hl as <-.
      vm_compute in Hi. discriminate Hi.
  - refine (proj1 (drivers_halt_after_last_page Double.externals E Double.me 1
                     (Double.start_at 0%Q))
              None None None false 4 _ _); [|lia].
    intros a Ha. vm_compute in Ha. injection Ha as <-.
    left. exists (VDict [("hasMore", VInt 0); ("list", VList (Double.audios 1 1))]), (VInt 0).
    repeat split.
  - refine (proj1 (proj2 (drivers_halt_after_last_page Double.externals Es Double.me 2
                            (Double.start_at 0%Q)))
              "q" 0%Z true GLOBAL_AUDIOS 3 _ _); [|lia].
    intros first a Hf Ha. vm_compute in Hf. injection Hf as <-.
    vm_compute in Ha. injection Ha as <-.
    intros jr di Hjr Hdi. injection Hjr as <-. vm_compute in Hdi. injection Hdi as <-.
    exists (VDict [("type", VStr "search"); ("list", VList [])]), (VList []).
    repeat split.
Defined.

Lemma endless_raw_listing_runs (fuel : nat) :
  forall (off : Z) (resp : option value) (w : World),
    resp = None \/ resp = Some (Double.listing 1 []) ->
    fst (get_iter_loop Double.externals (Double.scripted Double.endless_empty_pages)
           Double.me None None None true fuel off resp w)
    = Ok Running.
Proof.
  induction fuel as [|fuel IH]; intros off resp w Hr; [reflexivity|].
  destruct Hr as [-> | ->].
  - cbn [get_iter_loop]. unfold Gen.bind at 1. cbn [Gen.ret].
    unfold Gen.bind at 1. unfold http_post at 1. cbn [serve Double.scripted].
    change (Double.endless_empty_pages (posts w)) with (Ok (Double.listing 1 [])).
    cbn -[get_iter_loop Qplus Z.add app].
    apply IH. right. reflexivity.
  - cbn [get_iter_loop]. unfold Gen.bind at 1.
    cbn -[get_iter_loop Qplus Z.add app http_post].
    unfold Gen.bind at 1. unfold http_post at 1. cbn [serve Double.scripted].
    change (Double.endless_empty_pages (posts w)) with (Ok (Double.listing 1 [])).
    cbn -[get_iter_loop Qplus Z.add app].
    apply IH. right. reflexivity.
Qed.

(** C8, as the specification states it, fails for [get_iter] in raw mode:
    on pages that each give an empty identity list and report more pages the
    driver is still running whatever the fuel, and on a script of two such
    pages it ends with the exception of the used-up script, not a return. *)
Lemma raw_listing_does_not_stop_on_empty_identities :
  (forall n, exists r, Double.endless_empty_pages n = Ok r
                       /\ no_identities Double.externals r)
  /\ (forall fuel,
         fst (get_iter Double.externals (Double.scripted Double.endless_empty_pages)
                Double.me None None None true fuel (Double.start_at 0%Q))
         = Ok Running)
  /\ (exists r, Double.two_empty_pages 1 = Ok r /\ no_identities Double.externals r)
  /\ fst (get_iter Double.externals (Double.scripted Double.two_empty_pages)
            Double.me None None None true 5 (Double.start_at 0%Q))
     = Raise TransportError.
Proof.
  assert (Hempty : no_identities Double.externals (Double.listing 1 [])).
  { exists (VDict [("hasMore", VInt 1); ("list", VList [])]), (VList []).
    repeat split. }
  split; [|split; [|split]].
  - intros n. exists (Double.listing 1 []). split; [reflexivity|exact Hempty].
  - intros fuel. apply endless_raw_listing_runs. left. reflexivity.
  - exists (Double.listing 1 []). split; [reflexivity|exact Hempty].
  - vm_compute. reflexivity.
Qed.

(** C5. At this input the code departs from the claim: outside raw mode the
    second page of [get_iter] is requested at offset 4000, not 2000, because
    the offset is advanced once at the end of a turn and once more at the
    start of the next; in raw mode, on the same two pages, the offsets are 0
    and 2000. *)
Theorem get_iter_second_request_is_at_4000 :
  let run := get_iter Double.externals (Double.scripted Double.two_pages)
               Double.me None None None false 5 (Double.start_at 0%Q) in
  let raw_run := get_iter Double.externals (Double.scripted Double.two_raw_pages)
                   Double.me None None None true 5 (Double.start_at 0%Q) in
  fst run = Ok Returned
  /\ offsets_sent (trace (snd run)) = [VInt 0; VInt 4000]
  /\ fst raw_run = Ok Returned
  /\ offsets_sent (trace (snd raw_run)) = [VInt 0; VInt 2000].
Proof. vm_compute. repeat split. Qed.

(** ** The offset of the search driver *)

Lemma bind_assoc_ret {A B C} (m : M A) (b : B) (f : B -> M C) (w : World) :
  Gen.bind (Gen.bind m (fun _ => Gen.ret b)) f w = Gen.bind m (fun _ => f b) w.
Proof.
  unfold Gen.bind, Gen.ret. destruct (m w) as [[a|e] w']; reflexivity.
Qed.

Lemma slice_from_pos {A} (k : Z) (l : list A) :
  (0 <= k)%Z -> slice_from k l = skipn (Z.to_nat k) l.
Proof.
  intros H. unfold slice_from.
  destruct (Z.ltb_spec k 0); [lia|reflexivity].
Qed.

Section SearchOffset.
Variable X : Externals.
Variable E : Env.
Variable self : VkAudio.
Variable offset : Z.
Variable fuel di : nat.
Variable jr playlist lst : value.
Variable ids : list TrackIdentity.
Variable offset_left : Z.
Hypothesis page : playlist_at jr di = Ok playlist.
Hypothesis page_truthy : truthy playlist = true.
Hypothesis page_list : getkey playlist "list" = Ok lst.
Hypothesis page_ids : scrap_ids X lst = Ok ids.
Hypothesis page_not_empty : ids <> [].

Let n : Z := Z.of_nat (List.length ids).
Let tail : list TrackIdentity := skipn (Z.to_nat (offset - offset_left)) ids.

Lemma search_turn (raw : bool) (w : World) :
  search_iter_loop X E self offset raw (S fuel) di jr offset_left w
  = Gen.bind
      (if (offset <=? offset_left + n)%Z
       then
         let ids' :=
           if (offset_left <? offset)%Z
           then slice_from (offset - offset_left) ids
           else ids in
         Gen.bind
           (if negb raw
            then scrap_tracks X E ids' (user_id self) (convert_m3u8_links self)
            else Gen.bind (Gen.lift (py_iter lst))
                          (fun items => for_each (yield_raw X E) items))
           (fun _ => Gen.ret ids')
       else Gen.ret ids)
      (fun ids' =>
         next_page X E self offset raw fuel di jr
           (offset_left + Z.of_nat (List.length ids'))%Z)
      w.
Proof.
  cbn [search_iter_loop]. unfold Gen.bind at 1. unfold Gen.lift at 1.
  rewrite page, page_truthy. cbn [negb].
  unfold Gen.bind at 1. unfold Gen.lift at 1. rewrite page_list.
  unfold Gen.bind at 1. unfold Gen.lift at 1. rewrite page_ids.
  destruct ids as [|i l]; [congruence|]. reflexivity.
Qed.

Lemma page_before_offset (raw : bool) (w : World) :
  (offset_left + n < offset)%Z ->
  search_iter_loop X E self offset raw (S fuel) di jr offset_left w
  = next_page X E self offset raw fuel di jr (offset_left + n)%Z w.
Proof.
  intros H. rewrite search_turn.
  destruct (Z.leb_spec offset (offset_left + n)); [lia|]. reflexivity.
Qed.

Lemma page_across_offset (w : World) :
  (offset_left < offset <= offset_left + n)%Z ->
  search_iter_loop X E self offset false (S fuel) di jr offset_left w
  = Gen.bind
      (scrap_tracks X E tail (user_id self) (convert_m3u8_links self))
      (fun _ => next_page X E self offset false fuel di jr
                  (offset_left + Z.of_nat (List.length tail))%Z)
      w.
Proof.
  intros H. rewrite search_turn.
  destruct (Z.leb_spec offset (offset_left + n)); [|lia].
  destruct (Z.ltb_spec offset_left offset); [|lia].
  cbv zeta. cbn [negb]. rewrite bind_assoc_ret.
  rewrite slice_from_pos by lia. reflexivity.
Qed.

Lemma page_after_offset (w : World) :
  (offset <= offset_left)%Z ->
  search_iter_loop X E self offset false (S fuel) di jr offset_left w
  = Gen.bind
      (scrap_tracks X E ids (user_id self) (convert_m3u8_links self))
      (fun _ => next_page X E self offset false fuel di jr (offset_left + n)%Z)
      w.
Proof.
  intros H. rewrite search_turn.
  destruct (Z.leb_spec offset (offset_left + n)); [|unfold n in *; lia].
  destruct (Z.ltb_spec offset_left offset); [lia|].
  cbv zeta. cbn [negb]. rewrite bind_assoc_ret. reflexivity.
Qed.

Lemma raw_page_reaching_offset (w : World) :
  (offset <= offset_left + n)%Z ->
  search_iter_loop X E self offset true (S fuel) di jr offset_left w
  = Gen.bind
      (Gen.bind (Gen.lift (py_iter lst))
                (fun items => for_each (yield_raw X E) items))
      (fun _ => next_page X E self offset true fuel di jr
                  (offset_left
                   + Z.of_nat (List.length
                                 (if (offset_left <? offset)%Z then tail else ids)))%Z)
      w.
Proof.
  intros H. rewrite search_turn.
  destruct (Z.leb_spec offset (offset_left + n)); [|lia].
  cbv zeta. cbn [negb]. rewrite bind_assoc_ret.
  destruct (Z.ltb_spec offset_left offset); [|reflexivity].
  rewrite slice_from_pos by lia. reflexivity.
Qed.

End SearchOffset.

Lemma yield_raw_unescape (X : Externals) (E : Env) (i : value) :
  yield_raw X E i
  = Gen.bind (Gen.lift (unescape X i)) (fun i' => yield E (IRaw i')).
Proof. reflexivity. Qed.

(** A raw loop that runs to its end yields every tuple it was given. *)
Lemma raw_items_all_yielded (X : Externals) (E : Env) (items : list value) :
  forall w w',
    for_each (yield_raw X E) items w = (Ok tt, w') ->
    exists raws,
      yielded w' = yielded w ++ map IRaw raws
      /\ Forall2 (fun i i' => unescape X i = Ok i') items raws.
Proof.
  induction items as [|i items IH]; intros w w' H.
  - cbn in H. injection H as <-. exists []. cbn. rewrite app_nil_r. auto.
  - cbn [for_each] in H. rewrite yield_raw_unescape in H.
    unfold Gen.bind at 1 in H. unfold Gen.bind at 1 in H. unfold Gen.lift in H.
    destruct (unescape X i) as [i'|e] eqn:Hu; [|discriminate].
    unfold yield at 1 in H.
    destruct (IH _ _ H) as (raws & Hy & Hf).
    exists (i' :: raws). cbn [yielded] in Hy. rewrite Hy.
    cbn [map]. rewrite <- app_assoc. split; [reflexivity|].
    constructor; assumption.
Qed.

(** What [search_iter] does with its offset outside raw mode, on a page with
    identities: while the running total plus the page's identities stays
    below the offset, the turn yields nothing, only asks for the next page,
    and adds the page's identities to the running total; on a page where the
    total reaches or passes the offset while still below it, only the
    identities past the difference are resolved, and the running total
    grows by the length of that tail only. On two pages of 5 and 5
    identities with offset 7, nothing is resolved from the first page and
    the last 3 identities of the second are. *)
Lemma search_offset_turns
        (X : Externals) (E : Env) (self : VkAudio) (offset : Z)
        (fuel di : nat) (jr playlist lst : value)
        (ids : list TrackIdentity) (offset_left : Z) :
  playlist_at jr di = Ok playlist ->
  truthy playlist = true ->
  getkey playlist "list" = Ok lst ->
  scrap_ids X lst = Ok ids ->
  ids <> [] ->
  let n := Z.of_nat (List.length ids) in
  let tail := skipn (Z.to_nat (offset - offset_left)) ids in
  (forall w,
      (offset_left + n < offset)%Z ->
      search_iter_loop X E self offset false (S fuel) di jr offset_left w
      = next_page X E self offset false fuel di jr (offset_left + n)%Z w)
  /\ (forall w,
      (offset_left < offset <= offset_left + n)%Z ->
      search_iter_loop X E self offset false (S fuel) di jr offset_left w
      = Gen.bind
          (scrap_tracks X E tail (user_id self) (convert_m3u8_links self))
          (fun _ => next_page X E self offset false fuel di jr
                      (offset_left + Z.of_nat (List.length tail))%Z)
          w)
  /\ (let run := search_iter Double.externals (Double.scripted Double.five_and_five)
                   Double.me "q" 7 false GLOBAL_AUDIOS 5 (Double.start_at 0%Q) in
      fst run = Ok Returned
      /\ requests (trace (snd run))
         = [search_request Double.me "q";
            load_catalog_section_request (VStr "section") (VStr "p2");
            reload_audio_request
              [("1", "8", "h2", "h5"); ("1", "9", "h2", "h5"); ("1", "10", "h2", "h5")];
            load_catalog_section_request (VStr "section") (VStr "p3")]
      /\ yielded_ids (yielded (snd run)) = [VInt 8; VInt 9; VInt 10]).
Proof.
  intros Hp Ht Hl Hi Hne n tail. split; [|split].
  - intros w H.
    exact (page_before_offset X E self offset fuel di jr playlist lst ids
             offset_left Hp Ht Hl Hi Hne false w H).
  - intros w H.
    exact (page_across_offset X E self offset fuel di jr playlist lst ids
             offset_left Hp Ht Hl Hi Hne w H).
  - vm_compute. repeat split.
Qed.

(** C6. At this input the code departs from the claim: on two pages of 5
    and 5 identities with offset 4, [search_iter] resolves the fifth identity
    of the first page and then only the last two of the second page, so that
    7 identities are skipped and not the 4 leading ones; the running total
    is advanced by the length of the sliced list. With offset 7 the same
    pages give the result the claim describes. *)
Theorem search_offset_4_skips_identities_past_the_offset :
  let run := search_iter Double.externals (Double.scripted Double.five_and_five_from_4)
               Double.me "q" 4 false GLOBAL_AUDIOS 5 (Double.start_at 0%Q) in
  let run7 := search_iter Double.externals (Double.scripted Double.five_and_five)
                Double.me "q" 7 false GLOBAL_AUDIOS 5 (Double.start_at 0%Q) in
  fst run = Ok Returned
  /\ resolved (trace (snd run)) = [VStr "1_5_h2_h5"; VStr "1_9_h2_h5,1_10_h2_h5"]
  /\ yielded_ids (yielded (snd run)) = [VInt 5; VInt 9; VInt 10]
  /\ fst run7 = Ok Returned
  /\ resolved (trace (snd run7)) = [VStr "1_8_h2_h5,1_9_h2_h5,1_10_h2_h5"]
  /\ yielded_ids (yielded (snd run7)) = [VInt 8; VInt 9; VInt 10].
Proof. vm_compute. repeat split. Qed.

Lemma identities_in_nonneg (pages : list (value * list TrackIdentity)) :
  (0 <= identities_in pages)%Z.
Proof. induction pages as [|[jr ids] rest IH]; cbn [identities_in]; lia. Qed.

(** A run over pages that all stay below the offset only asks for the next
    page, page after page; the running total is then the number of their
    identities. *)
Lemma pages_below_offset_are_skipped
      (X : Externals) (E : Env) (self : VkAudio) (offset : Z) (raw : bool)
      (fuel di : nat) (next : value)
      (pages : list (value * list TrackIdentity)) :
  forall (offset_left : Z) (w : World),
    successive_pages X E di (posts w) pages next ->
    (pages = [] \/ offset_left + identities_in pages < offset)%Z ->
    exists w1,
      yielded w1 = yielded w
      /\ posts w1 = posts w + List.length pages
      /\ search_iter_loop X E self offset raw (List.length pages + fuel) di
           (first_page pages next) offset_left w
         = search_iter_loop X E self offset raw fuel di next
             (offset_left + identities_in pages)%Z w1.
Proof.
  induction pages as [|[jr ids] rest IH]; intros ol w Hs Hlt.
  - exists w. cbn [List.length identities_in first_page Nat.add].
    rewrite Z.add_0_r, Nat.add_0_r. auto.
  - destruct Hlt as [Hnil|Hlt]; [discriminate|].
    cbn [successive_pages] in Hs.
    destruct Hs as ((lst & pl & Hp & Ht & Hl & Hi & Hne) & (r & Hr & Hserve) & Hrest).
    cbn [identities_in] in Hlt.
    pose proof (identities_in_nonneg rest) as Hnn.
    cbn [List.length Nat.add first_page].
    rewrite (page_before_offset X E self offset (List.length rest + fuel) di jr pl lst
               ids ol Hp Ht Hl Hi Hne raw w) by lia.
    unfold next_page. unfold Gen.bind at 1. unfold Gen.lift at 1. rewrite Hr.
    unfold Gen.bind at 1. unfold http_post at 1. rewrite Hserve.
    set (w' := {| clock := (clock w + latency E (posts w))%Q;
                  trace := trace w ++ [EvPost r (clock w) (clock w + latency E (posts w))%Q];
                  yielded := yielded w |}).
    assert (Hposts : posts w' = S (posts w)).
    { unfold posts, w'. cbn [trace]. rewrite requests_app, length_app. cbn. lia. }
    destruct (IH (ol + Z.of_nat (List.length ids))%Z w') as (w1 & Hy & Hp1 & Heq).
    + rewrite Hposts. exact Hrest.
    + destruct rest as [|p rest']; [left; reflexivity|right; lia].
    + exists w1. split; [rewrite Hy; reflexivity|].
      split; [rewrite Hp1, Hposts; cbn [List.length]; lia|].
      rewrite Heq. cbn [identities_in]. f_equal. lia.
Qed.

(** C10 (as amended). In [search_iter] with raw=True the offset only decides
    whether a page is yielded, and it does so by the count of identities up
    to and including the page: the pages before the first one with which
    the count reaches the offset yield nothing, the run only asks for the
    page after each; the first page with which the count reaches the offset
    - also a page with which it only just reaches it, all of whose
    identities lie before the offset - has every raw tuple of its list
    yielded, each with performer and title replaced by their text. *)
Theorem raw_search_offset_suppresses_whole_pages_only
        (X : Externals) (E : Env) (self : VkAudio) (q : string) (offset : Z)
        (so : AudiosSearchOptions) (fuel di : nat) (w : World)
        (before : list (value * list TrackIdentity))
        (jr lst : value) (ids : list TrackIdentity) :
  serve E (posts w) (search_request self q) = Ok (first_page before jr) ->
  search_index so (first_page before jr) = Ok di ->
  successive_pages X E di (S (posts w)) before jr ->
  search_page X di jr lst ids ->
  (before = [] \/ identities_in before < offset)%Z ->
  (offset <= identities_in before + Z.of_nat (List.length ids))%Z ->
  let seen := identities_in before in
  let counted :=
    if (seen <? offset)%Z then skipn (Z.to_nat (offset - seen)) ids else ids in
  (exists w1,
      yielded w1 = yielded w
      /\ posts w1 = S (posts w) + List.length before
      /\ search_iter X E self q offset true so (List.length before + S fuel) w
         = Gen.bind
             (Gen.bind (Gen.lift (py_iter lst))
                       (fun items => for_each (yield_raw X E) items))
             (fun _ => next_page X E self offset true fuel di jr
                         (seen + Z.of_nat (List.length counted))%Z)
             w1)
  /\ (forall items w1 w2,
         for_each (yield_raw X E) items w1 = (Ok tt, w2) ->
         exists raws,
           yielded w2 = yielded w1 ++ map IRaw raws
           /\ Forall2 (fun i i' => unescape X i = Ok i') items raws).
Proof.
  intros Hfirst Hdi Hs (pl & Hp & Ht & Hl & Hi & Hne) Hlt Hge seen counted.
  split; [|intros items w1 w2 H; exact (raw_items_all_yielded X E items w1 w2 H)].
  unfold search_iter. unfold Gen.bind at 1. unfold http_post at 1. rewrite Hfirst.
  set (w0 := {| clock := (clock w + latency E (posts w))%Q;
                trace := trace w ++ [EvPost (search_request self q) (clock w)
                                       (clock w + latency E (posts w))%Q];
                yielded := yielded w |}).
  assert (Hposts : posts w0 = S (posts w)).
  { unfold posts, w0. cbn [trace]. rewrite requests_app, length_app. cbn. lia. }
  unfold search_index in Hdi.
  destruct (payload11 (first_page before jr)) as [s|e] eqn:Hs1; [|discriminate].
  cbn [Res.bind] in Hdi.
  destruct (getkey s "playlists") as [pls|e] eqn:Hs2; [|discriminate].
  cbn [Res.bind] in Hdi.
  destruct (py_iter pls) as [playlists|e] eqn:Hs3; [|discriminate].
  cbn [Res.bind] in Hdi.
  unfold Gen.bind at 1. unfold Gen.lift at 1.
  unfold Gen.bind at 1. unfold Gen.lift at 1. rewrite Hs2.
  unfold Gen.bind at 1. unfold Gen.lift at 1. rewrite Hs3.
  unfold Gen.bind at 1. unfold Gen.lift at 1. rewrite Hdi.
  destruct (pages_below_offset_are_skipped X E self offset true (S fuel) di jr before
              0%Z w0) as (w1 & Hy & Hp1 & Heq).
  - rewrite Hposts. exact Hs.
  - destruct Hlt as [Hnil|Hlt]; [left; exact Hnil|right; lia].
  - exists w1. split; [rewrite Hy; reflexivity|].
    split; [rewrite Hp1, Hposts; reflexivity|].
    rewrite Heq. rewrite Z.add_0_l. fold seen.
    rewrite (raw_page_reaching_offset X E self offset fuel di jr pl lst ids seen
               Hp Ht Hl Hi Hne w1) by (unfold seen; lia).
    reflexivity.
Qed.

(** C10, witness: two pages of five identities with offset 7; the first
    page lies before the offset, the second straddles it. *)
Lemma raw_search_offset_witness :
  let E := Double.scripted Double.five_and_five_raw in
  let w := Double.start_at 0%Q in
  let page1 := Double.catalog (Double.audios 1 5) "p2" in
  let page2 := Double.catalog (Double.audios 6 5) "p3" in
  (exists w1,
      yielded w1 = yielded w
      /\ posts w1 = 2
      /\ search_iter Double.externals E Double.me "q" 7 true GLOBAL_AUDIOS 3 w
         = Gen.bind
             (Gen.bind (Gen.lift (py_iter (VList (Double.audios 6 5))))
                       (fun items => for_each (yield_raw Double.externals E) items))
             (fun _ => next_page Double.externals E Double.me 7 true 1 0 page2 8)
             w1)
  /\ yielded_ids (yielded (snd (search_iter Double.externals E Double.me "q" 7 true
                                  GLOBAL_AUDIOS 3 w)))
     = [VInt 6; VInt 7; VInt 8; VInt 9; VInt 10].
Proof.
  intros E w page1 page2. split; [|vm_compute; reflexivity].
  refine (proj1 (raw_search_offset_suppresses_whole_pages_only
                   Double.externals E Double.me "q" 7 GLOBAL_AUDIOS 1 0 w
                   [(page1, [("1", "1", "h2", "h5"); ("1", "2", "h2", "h5");
                             ("1", "3", "h2", "h5"); ("1", "4", "h2", "h5");
                             ("1", "5", "h2", "h5")])]
                   page2 (VList (Double.audios 6 5))
                   [("1", "6", "h2", "h5"); ("1", "7", "h2", "h5");
                    ("1", "8", "h2", "h5"); ("1", "9", "h2", "h5");
                    ("1", "10", "h2", "h5")]
                   eq_refl eq_refl _ _ _ _)).
  - cbn [successive_pages]. split; [|split; [|exact I]].
    + exists (VList (Double.audios 1 5)).
      exists (VDict [("type", VStr "search"); ("list", VList (Double.audios 1 5))]).
      repeat split. discriminate.
    + exists (load_catalog_section_request (VStr "section") (VStr "p2")).
      split; reflexivity.
  - exists (VDict [("type", VStr "search"); ("list", VList (Double.audios 6 5))]).
    repeat split. discriminate.
  - right. cbn. lia.
  - cbn. lia.
Defined.

(** C10, counterexample to the claim as stated: with offset 5 the first of
    two pages of five identities lies wholly before the offset, and in raw
    mode all five of its tuples are yielded. *)
Lemma raw_page_ending_at_the_offset_is_yielded :
  let run := search_iter Double.externals (Double.scripted Double.five_and_five_raw)
               Double.me "q" 5 true GLOBAL_AUDIOS 5 (Double.start_at 0%Q) in
  let first := search_iter Double.externals (Double.scripted Double.five_and_five_raw)
                 Double.me "q" 5 true GLOBAL_AUDIOS 1 (Double.start_at 0%Q) in
  fst run = Ok Returned
  /\ firstn 5 (yielded_ids (yielded (snd run)))
     = [VInt 1; VInt 2; VInt 3; VInt 4; VInt 5]
  /\ yielded_ids (yielded (snd first)) = [VInt 1; VInt 2; VInt 3; VInt 4; VInt 5].
Proof. vm_compute. repeat split. Qed.

(** ** Witnesses for the identity extractor *)

Ltac each_of tac := repeat (apply Forall_cons; [tac|]); apply Forall_nil.

Lemma shaped_audio (i o : Z) (link : string) : shaped (Double.audio i o link Double.hashes6).
Proof. split; [discriminate|]. cbn. lia. Defined.

(** C3, witness: a record is kept, one with an empty token 2 is dropped, a
    record with id and owner 0 is kept, and a repeated record is repeated. *)
Lemma scrap_ids_keeps_valid_identities_witness :
  let tracks := [Double.audio 7 1 "" Double.hashes6;
                 Double.audio 8 1 "" "a/b//c/d/h5";
                 Double.audio 0 0 "" Double.hashes6;
                 Double.audio 7 1 "" Double.hashes6] in
  Forall shaped tracks
  /\ scrap_ids Double.externals (VList tracks)
     = Ok [("1", "7", "h2", "h5"); ("0", "0", "h2", "h5"); ("1", "7", "h2", "h5")].
Proof.
  intros tracks.
  assert (H : Forall shaped tracks).
  { each_of ltac:(first [apply shaped_audio
                          |split; [discriminate|cbn; lia]]). }
  split; [exact H|].
  exact (proj1 (scrap_ids_keeps_valid_identities_in_order Double.externals tracks H)).
Defined.

(** C9, witness: a three-token hashes string, in a JSON list and in a page
    where it follows a disabled node and a well-formed one. *)
Lemma short_hashes_raise_IndexError_witness :
  let tracks := [Double.audio 7 1 "" Double.hashes6; Double.audio 3 1 "" "a/b/c"] in
  let nodes := [Double.disabled_item; Double.item "long"; Double.item "short"] in
  scrap_ids Double.decoding (VList tracks) = Raise IndexError
  /\ scrap_ids_from_html Double.decoding (Some nodes) = Raise IndexError
  /\ (exists ids, scrap_ids_from_html Double.decoding
                    (Some [Double.disabled_item; Double.item "long"]) = Ok ids).
Proof.
  intros tracks nodes.
  pose proof (short_hashes_raise_IndexError Double.decoding) as [Hj Hh].
  split; [|split].
  - refine (proj1 (Hj tracks _) _).
    + each_of ltac:(discriminate).
    + apply Exists_cons_tl. apply Exists_cons_hd. unfold short_hashes. cbn. lia.
  - refine (proj1 (Hh nodes _) _).
    + apply Forall_cons; [intros Hen; discriminate Hen|].
      apply Forall_cons.
      { intros _. exists (Double.audio 4 1 "" Double.hashes6).
        split; [reflexivity|discriminate]. }
      apply Forall_cons; [|apply Forall_nil].
      intros _. exists (Double.audio 3 1 "" "a/b/c").
      split; [reflexivity|discriminate].
    + apply Exists_cons_tl. apply Exists_cons_tl. apply Exists_cons_hd.
      split; [reflexivity|].
      exists (Double.audio 3 1 "" "a/b/c"). split; [reflexivity|].
      unfold short_hashes. cbn. lia.
  - refine (proj2 (Hh [Double.disabled_item; Double.item "long"] _) _).
    + apply Forall_cons; [intros Hen; discriminate Hen|].
      apply Forall_cons; [|apply Forall_nil].
      intros _. exists (Double.audio 4 1 "" Double.hashes6).
      split; [reflexivity|discriminate].
    + apply Forall_cons; [intros Hen; discriminate Hen|].
      apply Forall_cons; [|apply Forall_nil].
      intros _. exists (Double.audio 4 1 "" Double.hashes6).
      split; [reflexivity|apply shaped_audio].
Defined.

(* ================================================================== *)
(** * Further properties of the module *)
(* ================================================================== *)

(** ** Batches *)

Lemma chunk_rec_full_but_last :
  forall fuel l,
    Forall (fun g => List.length g = 10) (removelast (chunk_rec fuel l)).
Proof.
  induction fuel as [|fuel IH]; intros l; [constructor|].
  destruct l as [|x l]; [constructor|].
  cbn [chunk_rec]. set (l0 := x :: l).
  destruct (chunk_rec fuel (skipn 10 l0)) as [|g rest] eqn:Hc.
  - constructor.
  - change (removelast (firstn 10 l0 :: g :: rest))
      with (firstn 10 l0 :: removelast (g :: rest)).
    constructor.
    + assert (Hs : skipn 10 l0 <> []).
      { intros Hn. rewrite Hn in Hc. destruct fuel; discriminate. }
      assert (Hl : 10 < List.length l0).
      { destruct (Nat.lt_ge_cases 10 (List.length l0)) as [H|H]; [exact H|].
        exfalso. apply Hs. apply skipn_all2. exact H. }
      rewrite length_firstn. lia.
    + rewrite <- Hc. apply IH.
Qed.

(** X1. Every batch of [scrap_tracks] except the last holds exactly 10
    identities, and no batch is empty. *)
Theorem batches_are_full_but_the_last (ids : list TrackIdentity) :
  Forall (fun g => List.length g = 10) (removelast (chunks ids))
  /\ Forall (fun g => g <> []) (chunks ids).
Proof.
  split.
  - rewrite chunks_rec. apply chunk_rec_full_but_last.
  - destruct (chunk_rec_facts (List.length ids) ids (le_n _)) as (_ & Hs & _).
    rewrite <- chunks_rec in Hs.
    eapply Forall_impl; [|exact Hs].
    intros g Hg Hn. subst g. cbn in Hg. lia.
Qed.

(** ** Splitting and joining *)

Lemma split_not_nil (sep : ascii) (s : string) : split sep s <> [].
Proof.
  destruct s as [|c s]; cbn [split]; [discriminate|].
  destruct (Ascii.eqb c sep); [discriminate|].
  destruct (split sep s); discriminate.
Qed.

Lemma join_cons (sep x : string) (l : list string) :
  l <> [] -> join sep (x :: l) = (x ++ sep ++ join sep l)%string.
Proof. destruct l; [congruence|reflexivity]. Qed.

(** [sep.join(s.split(sep)) == s] *)
Lemma join_split (sep : ascii) (s : string) :
  join (String sep "") (split sep s) = s.
Proof.
  induction s as [|c s IH]; [reflexivity|].
  cbn [split]. destruct (Ascii.eqb_spec c sep) as [->|Hne].
  - rewrite join_cons by apply split_not_nil. rewrite IH. reflexivity.
  - pose proof (split_not_nil sep s) as Hnn.
    destruct (split sep s) as [|h t]; [congruence|].
    destruct t as [|h' t].
    + cbn [join] in *. rewrite IH. reflexivity.
    + rewrite join_cons by discriminate.
      rewrite join_cons in IH by discriminate.
      rewrite <- IH. reflexivity.
Qed.

Lemma res_bind_inv {A B} (r : result A) (f : A -> result B) (b : B) :
  Res.bind r f = Ok b -> exists a, r = Ok a /\ f a = Ok b.
Proof. destruct r as [a|e]; cbn; [eauto|discriminate]. Qed.

Lemma split_pieces_lack_sep (sep : ascii) (s : string) :
  Forall (fun piece => every (fun c => negb (Ascii.eqb c sep)) piece = true)
         (split sep s).
Proof.
  induction s as [|c s IH]; cbn [split].
  - constructor; [reflexivity|constructor].
  - destruct (Ascii.eqb c sep) eqn:Hc.
    + constructor; [reflexivity|exact IH].
    + destruct (split sep s) as [|h t]; inversion IH; subst.
      * constructor; [cbn; rewrite Hc; reflexivity|constructor].
      * constructor; [|assumption]. cbn [every]. rewrite Hc. cbn. assumption.
Qed.

(** X2. The covers of a track are the cover field split at its commas: a
    falsy cover field gives no cover at all; a cover string [s] gives the
    list [s.split(',')], which is not empty, has no comma in any of its
    pieces and, joined with commas, is [s] again. *)
Theorem track_covers_split_the_cover_field
        (X : Externals) (u : Z) (cv : bool) (audio : value) (t : Track) :
  track_of X u cv audio = Ok t ->
  exists cover,
    getitem audio AUDIO_TUPLE.COVER_URL = Ok cover
    /\ (truthy cover = false -> track_covers t = [])
    /\ (truthy cover = true ->
        exists s, cover = VStr s
                  /\ track_covers t = split "," s
                  /\ track_covers t <> []
                  /\ Forall (fun piece =>
                               every (fun c => negb (Ascii.eqb c ",")) piece = true)
                            (track_covers t)
                  /\ join "," (track_covers t) = s).
Proof.
  unfold track_of. intros H.
  repeat (apply res_bind_inv in H; destruct H as (? & ? & H)).
  injection H as <-. cbn [track_covers].
  match goal with
  | Hc : getitem audio AUDIO_TUPLE.COVER_URL = Ok ?c,
    Hs : (if truthy ?c then py_split "," ?c else Ok []) = Ok ?l |- _ =>
      exists c; split; [exact Hc|];
      destruct (truthy c) eqn:Ht; split; intros Hx; try discriminate;
      [ destruct c as [| | |s| |]; try discriminate Hs;
        exists s; cbn [py_split] in Hs; injection Hs as <-;
        split; [reflexivity|]; split; [reflexivity|]; split; [apply split_not_nil|];
        split; [apply split_pieces_lack_sep|apply join_split]
      | injection Hs as <-; reflexivity ]
  end.
Qed.

(** ** Identities *)

Lemma scrap_ids_loop_valid (X : Externals) (tracks : list value) :
  forall acc ids,
    scrap_ids_loop X tracks acc = Ok ids ->
    exists more,
      ids = acc ++ more
      /\ Forall all_non_empty more
      /\ List.length more <= List.length tracks.
Proof.
  induction tracks as [|t ts IH]; intros acc ids H.
  - cbn in H. injection H as <-. exists []. rewrite app_nil_r.
    split; [reflexivity|]. split; [constructor|cbn; lia].
  - cbn [scrap_ids_loop] in H.
    apply res_bind_inv in H as (fid & Hf & H).
    destruct (IH _ _ H) as (more & -> & Hv & Hl).
    destruct (all_truthy fid) eqn:Ht.
    + exists (fid :: more). rewrite <- app_assoc. split; [reflexivity|].
      split; [constructor; [apply all_truthy_iff; exact Ht|exact Hv]|cbn; lia].
    + exists more. split; [reflexivity|]. split; [exact Hv|cbn; lia].
Qed.

(** X3. Whatever [scrap_ids] is given, a list it returns holds only
    identities with four non-empty components, and no more identities than
    the input has records. *)
Theorem scrap_ids_returns_only_valid_identities
        (X : Externals) (audio_data : value) (ids : list TrackIdentity) :
  scrap_ids X audio_data = Ok ids ->
  Forall all_non_empty ids
  /\ exists tracks,
      py_iter audio_data = Ok tracks /\ List.length ids <= List.length tracks.
Proof.
  unfold scrap_ids. intros H.
  apply res_bind_inv in H as (tracks & Hi & H).
  destruct (scrap_ids_loop_valid X tracks [] ids H) as (more & -> & Hv & Hl).
  split; [exact Hv|]. exists tracks. split; [exact Hi|exact Hl].
Qed.

Lemma html_loop_as_json (X : Externals) (nodes : list AudioNode) :
  Forall (decodable X) nodes ->
  forall acc,
    scrap_ids_from_html_loop X nodes acc
    = scrap_ids_loop X (enabled_records X nodes) acc.
Proof.
  induction 1 as [|n ns Hd _ IH]; intros acc; [reflexivity|].
  cbn [scrap_ids_from_html_loop enabled_records].
  destruct (existsb (String.eqb "audio_item_disabled") (node_class n)) eqn:Hc.
  - apply IH.
  - specialize (Hd Hc).
    destruct (node_record X n) as [r|] eqn:Hr; [|congruence].
    destruct (node_record_inv X n r Hr) as (a & Ha & Hj).
    rewrite Ha. cbn [Res.bind]. rewrite Hj. cbn [Res.bind scrap_ids_loop].
    destruct (full_id_of X r) as [fid|e]; cbn [Res.bind]; [apply IH|reflexivity].
Qed.

(** X4. On a page whose enabled nodes all carry a [data-audio] attribute that
    decodes, [scrap_ids_from_html] gives what [scrap_ids] gives on the list
    of the decoded records of the nodes not flagged as disabled: the same
    identities or the same exception. A page without the root element
    raises ValueError. *)
Theorem scrap_ids_from_html_is_scrap_ids_of_enabled_nodes
        (X : Externals) (nodes : list AudioNode) :
  Forall (decodable X) nodes ->
  scrap_ids_from_html X (Some nodes)
  = scrap_ids X (VList (enabled_records X nodes))
  /\ scrap_ids_from_html X None = Raise ValueError.
Proof.
  intros H. split; [|reflexivity].
  cbn [scrap_ids_from_html]. unfold scrap_ids. cbn [py_iter Res.bind].
  apply html_loop_as_json. exact H.
Qed.

(** X4, witness: a disabled node with a short hashes string is not read. *)
Lemma scrap_ids_from_html_witness :
  let nodes := [Double.disabled_item; Double.item "long"] in
  Forall (decodable Double.decoding) nodes
  /\ scrap_ids_from_html Double.decoding (Some nodes)
     = scrap_ids Double.decoding (VList [Double.audio 4 1 "" Double.hashes6]).
Proof.
  intros nodes.
  assert (H : Forall (decodable Double.decoding) nodes).
  { apply Forall_cons; [intros Hen; discriminate Hen|].
    apply Forall_cons; [intros _; discriminate|apply Forall_nil]. }
  split; [exact H|].
  exact (proj1 (scrap_ids_from_html_is_scrap_ids_of_enabled_nodes
                  Double.decoding nodes H)).
Defined.

(** X3, witness. *)
Lemma scrap_ids_valid_witness :
  scrap_ids Double.externals
    (VList [Double.audio 7 1 "" Double.hashes6; Double.audio 8 1 "" "a/b//c/d/h5"])
  = Ok [("1", "7", "h2", "h5")]
  /\ Forall all_non_empty [("1", "7", "h2", "h5")].
Proof.
  split; [reflexivity|].
  exact (proj1 (scrap_ids_returns_only_valid_identities Double.externals
                  (VList [Double.audio 7 1 "" Double.hashes6;
                          Double.audio 8 1 "" "a/b//c/d/h5"])
                  [("1", "7", "h2", "h5")] eq_refl)).
Defined.

(** ** Raw tuples *)

Lemma nth_error_replace_other (l : list value) (i k : nat) (x : value) :
  k <> i -> nth_error (replace_nth i x l) k = nth_error l k.
Proof.
  revert i k. induction l as [|y l IH]; intros i k Hne.
  - destruct i, k; reflexivity.
  - destruct i as [|i], k as [|k]; cbn; try congruence; try reflexivity.
    apply IH. congruence.
Qed.

Lemma nth_error_replace_same (l : list value) (i : nat) (x : value) :
  i < List.length l -> nth_error (replace_nth i x l) i = Some x.
Proof.
  revert i. induction l as [|y l IH]; intros i Hi; [cbn in Hi; lia|].
  destruct i as [|i]; cbn; [reflexivity|]. apply IH. cbn in Hi. lia.
Qed.

Lemma length_replace_nth (l : list value) (i : nat) (x : value) :
  List.length (replace_nth i x l) = List.length l.
Proof.
  revert i. induction l as [|y l IH]; intros i; [destruct i; reflexivity|].
  destruct i; cbn; [reflexivity|]. rewrite IH. reflexivity.
Qed.

Lemma setitem_inv (v : value) (i : nat) (x v' : value) :
  setitem v i x = Ok v' ->
  exists l, v = VList l /\ i < List.length l /\ v' = VList (replace_nth i x l).
Proof.
  destruct v as [| | | |l|]; unfold setitem; try discriminate.
  destruct (i <? List.length l) eqn:E; [|discriminate].
  apply Nat.ltb_lt in E.
  intros H. injection H as <-. eauto.
Qed.

(** X5. Raw mode changes nothing of a tuple but the performer and the title:
    the tuple it yields is a list of the same length, equal to the original
    at every position other than 3 and 4, with strings at positions 3 and 4
    (the texts of the title, stripped, and of the performer). *)
Theorem raw_mode_only_rewrites_performer_and_title
        (X : Externals) (i i' : value) :
  unescape X i = Ok i' ->
  exists l l' p t,
    i = VList l /\ i' = VList l'
    /\ List.length l' = List.length l
    /\ (forall k, k <> AUDIO_TUPLE.TITLE -> k <> AUDIO_TUPLE.PERFORMER ->
                  nth_error l' k = nth_error l k)
    /\ nth_error l' AUDIO_TUPLE.PERFORMER = Some (VStr p)
    /\ nth_error l' AUDIO_TUPLE.TITLE = Some (VStr t)
    /\ (exists performer title0,
           nth_error l AUDIO_TUPLE.PERFORMER = Some performer
           /\ nth_error l AUDIO_TUPLE.TITLE = Some title0
           /\ bsoup_trackinfo X performer title0 = Ok (p, t)).
Proof.
  unfold unescape. intros H.
  apply res_bind_inv in H as (performer & Hp & H).
  apply res_bind_inv in H as (title0 & Ht & H).
  apply res_bind_inv in H as ([p t] & Hn & H).
  apply res_bind_inv in H as (i1 & H1 & H2).
  cbn [fst snd] in *.
  apply setitem_inv in H1 as (l & -> & Hl4 & ->).
  apply setitem_inv in H2 as (l1 & Heq & Hl3 & ->).
  injection Heq as <-.
  exists l, (replace_nth AUDIO_TUPLE.TITLE (VStr t)
               (replace_nth AUDIO_TUPLE.PERFORMER (VStr p) l)), p, t.
  split; [reflexivity|]. split; [reflexivity|].
  split; [rewrite !length_replace_nth; reflexivity|].
  split; [|split; [|split]].
  - intros k H3 H4. rewrite !nth_error_replace_other by assumption. reflexivity.
  - rewrite nth_error_replace_other by (unfold AUDIO_TUPLE.TITLE, AUDIO_TUPLE.PERFORMER; lia).
    apply nth_error_replace_same. exact Hl4.
  - apply nth_error_replace_same. exact Hl3.
  - exists performer, title0.
    unfold getitem in Hp, Ht.
    destruct (nth_error l AUDIO_TUPLE.PERFORMER) as [a|] eqn:Ea; [|discriminate].
    destruct (nth_error l AUDIO_TUPLE.TITLE) as [b|] eqn:Eb; [|discriminate].
    injection Hp as <-. injection Ht as <-.
    split; [reflexivity|]. split; [reflexivity|exact Hn].
Qed.

(** X5, witness. *)
Lemma raw_mode_witness :
  unescape Double.externals (Double.audio 7 1 "u" Double.hashes6)
  = Ok (Double.audio 7 1 "u" Double.hashes6)
  /\ exists l l' p t,
      Double.audio 7 1 "u" Double.hashes6 = VList l
      /\ Double.audio 7 1 "u" Double.hashes6 = VList l'
      /\ List.length l' = List.length l
      /\ nth_error l' AUDIO_TUPLE.PERFORMER = Some (VStr p)
      /\ nth_error l' AUDIO_TUPLE.TITLE = Some (VStr t).
Proof.
  split; [reflexivity|].
  destruct (raw_mode_only_rewrites_performer_and_title Double.externals
              (Double.audio 7 1 "u" Double.hashes6)
              (Double.audio 7 1 "u" Double.hashes6) eq_refl)
    as (l & l' & p & t & H1 & H2 & H3 & _ & H4 & H5 & _).
  exists l, l', p, t. auto.
Defined.

(** ** The offsets of [get_iter] *)

Lemma bind_snd {A B} (P : World -> Prop) (m : M A) (f : A -> M B) (w : World) :
  (forall e w', m w = (Raise e, w') -> P w') ->
  (forall a w', m w = (Ok a, w') -> P (snd (f a w'))) ->
  P (snd (Gen.bind m f w)).
Proof.
  intros Hr Ho. unfold Gen.bind. destruct (m w) as [[a|e] w'].
  - exact (Ho a w' eq_refl).
  - exact (Hr e w' eq_refl).
Qed.

Lemma lift_snd {A B} (P : World -> Prop) (r : result A) (f : A -> M B) (w : World) :
  P w ->
  (forall a, r = Ok a -> P (snd (f a w))) ->
  P (snd (Gen.bind (Gen.lift r) f w)).
Proof.
  intros Hw Ho. unfold Gen.bind, Gen.lift. destruct r as [a|e].
  - exact (Ho a eq_refl).
  - exact Hw.
Qed.

Lemma gen_bind_assoc {A B C} (m : M A) (f : A -> M B) (g : B -> M C) (w : World) :
  Gen.bind (Gen.bind m f) g w = Gen.bind m (fun a => Gen.bind (f a) g) w.
Proof. unfold Gen.bind. destruct (m w) as [[a|e] w']; reflexivity. Qed.

Lemma progression_S (start step : Z) (m : nat) :
  progression start step (S m)
  = VInt start :: progression (start + step) step m.
Proof.
  unfold progression. cbn [seq map]. f_equal.
  - f_equal. lia.
  - rewrite <- seq_shift, map_map. apply map_ext. intros k. f_equal. lia.
Qed.

Lemma offsets_sent_app (a b : list Event) :
  offsets_sent (a ++ b) = offsets_sent a ++ offsets_sent b.
Proof. unfold offsets_sent. rewrite requests_app, flat_map_app. reflexivity. Qed.

Lemma offsets_of_reloads (gs : list (list TrackIdentity)) :
  flat_map offset_of (map reload_audio_request gs) = [].
Proof. induction gs as [|g gs IH]; [reflexivity|]. cbn. exact IH. Qed.

Lemma scrap_tracks_keeps_offsets (X : Externals) (E : Env) (ids : list TrackIdentity)
      (u : Z) (cv : bool) (w : World) :
  offsets_sent (trace (snd (scrap_tracks X E ids u cv w))) = offsets_sent (trace w).
Proof.
  destruct (loop_trace X E u cv (chunks ids) 0%Q w)
    as (new & k & Ht & _ & _ & _ & Hr & _).
  unfold scrap_tracks. rewrite Ht, offsets_sent_app.
  unfold offsets_sent at 2. rewrite Hr, offsets_of_reloads. apply app_nil_r.
Qed.

Lemma raw_items_keep_trace (X : Externals) (E : Env) (items : list value) (w : World) :
  trace (snd (for_each (yield_raw X E) items w)) = trace w.
Proof. apply quiet_for_each. intros i. apply quiet_yield_raw. Qed.

Section GetIterOffsets.
Variable X : Externals.
Variable E : Env.
Variable self : VkAudio.
Variable owner album : option Z.
Variable hash : option string.
Variable raw : bool.

Let step : Z := listing_step album raw.

Lemma offsets_after_post (off : Z) (w : World) (t1 t2 : Q) :
  offsets_sent (trace w ++ [EvPost (load_section_request self owner album hash off) t1 t2])
  = offsets_sent (trace w) ++ [VInt off].
Proof. rewrite offsets_sent_app. reflexivity. Qed.

Lemma get_iter_loop_offsets (fuel : nat) :
  forall (off : Z) (resp : option value) (w : World),
  exists m,
    m <= fuel /\
    offsets_sent (trace (snd (get_iter_loop X E self owner album hash raw
                                fuel off resp w)))
    = offsets_sent (trace w)
      ++ progression (match resp with
                      | None => off
                      | Some _ => (off + offset_diff album)%Z
                      end) step m.
Proof.
  induction fuel as [|fuel IH]; intros off resp w.
  - exists 0. split; [lia|]. cbn. rewrite app_nil_r. reflexivity.
  - set (start := match resp with
                  | None => off
                  | Some _ => (off + offset_diff album)%Z
                  end).
    set (P := fun wf : World =>
                exists m, m <= S fuel /\
                          offsets_sent (trace wf)
                          = offsets_sent (trace w) ++ progression start step m).
    assert (P0 : P w).
    { exists 0. split; [lia|]. cbn. rewrite app_nil_r. reflexivity. }
    change (P (snd (get_iter_loop X E self owner album hash raw (S fuel) off resp w))).
    cbn [get_iter_loop].
    assert (Hgo : forall go,
               (go = None \/ go = Some start) ->
               P (snd (match go with
                       | None => Gen.ret Returned
                       | Some offset =>
                           Gen.bind (http_post E (load_section_request self owner album hash offset))
                             (fun response =>
                                Gen.bind (Gen.lift (data0 response))
                                  (fun d0 =>
                                     if negb (truthy d0) then Gen.raise AccessDenied
                                     else
                                       Gen.bind (Gen.lift (getkey d0 "list"))
                                         (fun lst =>
                                            if raw
                                            then
                                              Gen.bind (Gen.lift (py_iter lst))
                                                (fun items =>
                                                   Gen.bind (for_each (yield_raw X E) items)
                                                     (fun _ => get_iter_loop X E self owner album hash raw
                                                                 fuel offset (Some response)))
                                            else
                                              Gen.bind (Gen.lift (scrap_ids X lst))
                                                (fun ids =>
                                                   match ids with
                                                   | [] => Gen.ret Returned
                                                   | _ :: _ =>
                                                       Gen.bind (scrap_tracks X E ids (user_id self)
                                                                   (convert_m3u8_links self))
                                                         (fun _ =>
                                                            Gen.bind (Gen.lift (data0 response))
                                                              (fun d0' =>
                                                                 Gen.bind (Gen.lift (getkey d0' "hasMore"))
                                                                   (fun more =>
                                                                      if truthy more
                                                                      then get_iter_loop X E self owner album hash raw
                                                                             fuel (offset + offset_diff album)%Z
                                                                             (Some response)
                                                                      else Gen.ret Returned)))
                                                   end))))
                       end w))).
    { intros go [-> | ->]; [exact P0|].
      set (w2 := snd (http_post E (load_section_request self owner album hash start) w)).
      assert (P2 : forall wf, offsets_sent (trace wf) = offsets_sent (trace w2) -> P wf).
      { intros wf Hwf. exists 1. split; [lia|]. rewrite Hwf.
        unfold w2, http_post. cbn [snd trace].
        rewrite offsets_after_post. rewrite progression_S. cbn.
        unfold progression. cbn. reflexivity. }
      assert (Prec : forall o r wf,
                 offsets_sent (trace wf) = offsets_sent (trace w2) ->
                 (o + offset_diff album = start + step)%Z ->
                 P (snd (get_iter_loop X E self owner album hash raw fuel o (Some r) wf))).
      { intros o r wf Hwf Ho.
        destruct (IH o (Some r) wf) as (m & Hm & Hoff).
        exists (S m). split; [lia|]. rewrite Hoff, Hwf.
        unfold w2, http_post. cbn [snd trace].
        rewrite offsets_after_post, progression_S, <- app_assoc, Ho.
        reflexivity. }
      apply bind_snd.
      { intros e w' Hp. apply P2. unfold w2. rewrite Hp. reflexivity. }
      intros response w' Hp.
      assert (Hw' : w' = w2) by (unfold w2; rewrite Hp; reflexivity).
      subst w'.
      apply lift_snd; [apply P2; reflexivity|]. intros d0 Hd.
      destruct (negb (truthy d0)); [apply P2; reflexivity|].
      apply lift_snd; [apply P2; reflexivity|]. intros lst Hl.
      destruct raw eqn:Hraw.
      - apply lift_snd; [apply P2; reflexivity|]. intros items Hi.
        apply bind_snd.
        + intros e w' Hf. apply P2.
          pose proof (raw_items_keep_trace X E items w2) as Ht.
          rewrite Hf in Ht. cbn [snd] in Ht. rewrite Ht. reflexivity.
        + intros [] w' Hf. apply Prec.
          * pose proof (raw_items_keep_trace X E items w2) as Ht.
            rewrite Hf in Ht. cbn [snd] in Ht. rewrite Ht. reflexivity.
          * unfold step, listing_step. try rewrite Hraw. lia.
      - apply lift_snd; [apply P2; reflexivity|]. intros ids Hids.
        destruct ids as [|i ids]; [apply P2; reflexivity|].
        apply bind_snd.
        + intros e w' Hf. apply P2.
          pose proof (scrap_tracks_keeps_offsets X E (i :: ids) (user_id self)
                        (convert_m3u8_links self) w2) as Ht.
          rewrite Hf in Ht. exact Ht.
        + intros [] w' Hf.
          assert (Hw3 : offsets_sent (trace w') = offsets_sent (trace w2)).
          { pose proof (scrap_tracks_keeps_offsets X E (i :: ids) (user_id self)
                          (convert_m3u8_links self) w2) as Ht.
            rewrite Hf in Ht. exact Ht. }
          apply lift_snd; [apply P2; exact Hw3|]. intros d0' Hd'.
          apply lift_snd; [apply P2; exact Hw3|]. intros more Hm.
          destruct (truthy more); [|apply P2; exact Hw3].
          apply Prec; [exact Hw3|].
          unfold step, listing_step. try rewrite Hraw. lia. }
    destruct resp as [r|].
    + rewrite gen_bind_assoc.
      apply lift_snd; [exact P0|]. intros d0 Hd.
      rewrite gen_bind_assoc.
      apply lift_snd; [exact P0|]. intros more Hm.
      unfold Gen.bind at 1. unfold Gen.ret at 1.
      apply Hgo. destruct (truthy more); [right|left]; reflexivity.
    + unfold Gen.bind at 1. unfold Gen.ret at 1. cbv beta iota.
      apply (Hgo (Some start)). right. reflexivity.
Qed.

End GetIterOffsets.

(** X6. In every run of [get_iter], whatever the answers, the listing
    requests carry the offsets 0, s, 2s, ... in this order, where the step s
    is 2000 in raw mode and 4000 outside raw mode (the offset is advanced
    twice between two requests there); a run of [fuel] turns sends at most
    [fuel] of them. *)
Theorem get_iter_offsets_form_a_progression
        (X : Externals) (E : Env) (self : VkAudio) (owner album : option Z)
        (hash : option string) (raw : bool) (fuel : nat) (w : World) :
  (exists m,
      m <= fuel /\
      offsets_sent (trace (snd (get_iter X E self owner album hash raw fuel w)))
      = offsets_sent (trace w) ++ progression 0 (listing_step album raw) m)
  /\ listing_step album true = 2000%Z
  /\ listing_step album false = 4000%Z.
Proof.
  split; [|split].
  - unfold get_iter.
    destruct (get_iter_loop_offsets X E self owner album hash raw fuel 0%Z None w)
      as (m & Hm & H).
    exists m. split; [exact Hm|exact H].
  - destruct album; reflexivity.
  - destruct album; reflexivity.
Qed.

(** X7. When the answer to the first listing request has a falsy [data[0]],
    [get_iter] raises AccessDenied: one request has been sent and nothing
    has been yielded. *)
Theorem get_iter_raises_AccessDenied_on_empty_container
        (X : Externals) (E : Env) (self : VkAudio) (owner album : option Z)
        (hash : option string) (raw : bool) (fuel : nat) (w : World)
        (response d0 : value) :
  serve E (posts w) (load_section_request self owner album hash 0) = Ok response ->
  data0 response = Ok d0 ->
  truthy d0 = false ->
  let run := get_iter X E self owner album hash raw (S fuel) w in
  fst run = Raise AccessDenied
  /\ yielded (snd run) = yielded w
  /\ requests (trace (snd run))
     = requests (trace w) ++ [load_section_request self owner album hash 0].
Proof.
  intros Hs Hd Ht run.
  assert (Hrun : run = (Raise AccessDenied,
                        snd (http_post E (load_section_request self owner album hash 0) w))).
  { unfold run, get_iter. cbn [get_iter_loop].
    unfold Gen.bind at 1. unfold Gen.ret at 1. cbv beta iota.
    unfold Gen.bind at 1. unfold http_post at 1 2. rewrite Hs.
    unfold Gen.bind at 1. unfold Gen.lift at 1. rewrite Hd, Ht.
    reflexivity. }
  rewrite Hrun. unfold http_post. cbn [fst snd yielded trace].
  split; [reflexivity|]. split; [reflexivity|].
  rewrite requests_app. reflexivity.
Qed.

(** X7, witness: the server answers [{"data": [[]]}]. *)
Lemma get_iter_AccessDenied_witness :
  let E := Double.scripted (fun _ => Ok (VDict [("data", VList [VList []])])) in
  fst (get_iter Double.externals E Double.me None None None false 3
         (Double.start_at 0%Q))
  = Raise AccessDenied.
Proof.
  intros E.
  exact (proj1 (get_iter_raises_AccessDenied_on_empty_container
                  Double.externals E Double.me None None None false 2
                  (Double.start_at 0%Q)
                  (VDict [("data", VList [VList []])]) (VList [])
                  eq_refl eq_refl eq_refl)).
Defined.

(** ** The offset of the news feed *)

Lemma scrap_tracks_nil (X : Externals) (E : Env) (u : Z) (cv : bool) (w : World) :
  scrap_tracks X E [] u cv w = (Ok tt, w).
Proof. reflexivity. Qed.

Lemma news_page_slice (X : Externals) (E : Env) (self : VkAudio) (offset : Z)
      (ids : list TrackIdentity) (offset_left : Z) (w : World) :
  news_page X E self offset ids offset_left w
  = scrap_tracks X E (news_slice offset ids offset_left)
      (user_id self) (convert_m3u8_links self) w.
Proof.
  unfold news_page, news_slice.
  destruct (offset <=? offset_left + Z.of_nat (List.length ids))%Z; reflexivity.
Qed.

Lemma news_slices_skip (offset : Z) (pages : list (list TrackIdentity)) :
  forall offset_left,
    List.concat (news_slices offset pages offset_left)
    = skipn (Z.to_nat (offset - offset_left)) (List.concat pages).
Proof.
  induction pages as [|ids rest IH]; intros ol.
  - cbn. rewrite skipn_nil. reflexivity.
  - cbn [news_slices List.concat]. rewrite IH. unfold news_slice.
    rewrite skipn_app.
    destruct (Z.leb_spec offset (ol + Z.of_nat (List.length ids))) as [Hr|Hr].
    + destruct (Z.leb_spec offset ol) as [Hl|Hl].
      * replace (Z.to_nat (offset - ol)) with 0 by lia.
        replace (Z.to_nat (offset - (ol + Z.of_nat (List.length ids)))) with 0 by lia.
        reflexivity.
      * rewrite slice_from_pos by lia.
        replace (Z.to_nat (offset - (ol + Z.of_nat (List.length ids)))) with 0 by lia.
        replace (Z.to_nat (offset - ol) - List.length ids) with 0 by lia.
        reflexivity.
    + rewrite (@skipn_all2 _ (Z.to_nat (offset - ol)) ids) by lia.
      replace (Z.to_nat (offset - ol) - List.length ids)
        with (Z.to_nat (offset - (ol + Z.of_nat (List.length ids)))) by lia.
      reflexivity.
Qed.

Lemma bind_run {A B} (m : M A) (f : A -> M B) (w w' : World) (a : A) :
  m w = (Ok a, w') -> Gen.bind m f w = f a w'.
Proof. intros H. unfold Gen.bind. rewrite H. reflexivity. Qed.

Lemma bind_lift {A B} (r : result A) (f : A -> M B) (w : World) (a : A) :
  r = Ok a -> Gen.bind (Gen.lift r) f w = f a w.
Proof. intros ->. reflexivity. Qed.

Lemma news_loop_over_pages (X : Externals) (E : Env) (self : VkAudio) (offset : Z)
      (fuel : nat) (pages : list (Request * value * list TrackIdentity)) :
  forall (jr : value) (offset_left : Z) (w : World),
    news_pages X E jr pages ->
    get_news_iter_loop X E self offset (List.length pages + fuel) jr offset_left w
    = Gen.bind
        (for_each (resolve_page X E self)
           (combine (map (fun p => fst (fst p)) pages)
                    (news_slices offset (map snd pages) offset_left)))
        (fun _ => get_news_iter_loop X E self offset fuel (last_news_page jr pages)
                    (offset_left + news_total (map snd pages))%Z)
        w.
Proof.
  induction pages as [|[[r jr'] ids] rest IH]; intros jr ol w Hp.
  - cbn [List.length Nat.add map news_slices combine for_each last_news_page news_total].
    rewrite Z.add_0_r. reflexivity.
  - cbn [news_pages] in Hp. destruct Hp as (Hr & Hserve & Hids & Hne & Hrest).
    cbn [List.length Nat.add map news_slices combine for_each last_news_page
         news_total fst snd get_news_iter_loop].
    unfold news_ids in Hids.
    apply res_bind_inv in Hids as (s & Hs & Hids).
    apply res_bind_inv in Hids as (p & Hpl & Hids).
    apply res_bind_inv in Hids as (lst & Hl & Hids).
    assert (Hpost : http_post E r w = (Ok jr', snd (http_post E r w))).
    { unfold http_post. cbn [snd]. rewrite (Hserve (posts w)). reflexivity. }
    set (w2 := snd (http_post E r w)) in *.
    rewrite (bind_lift _ _ w r Hr).
    rewrite (bind_run _ _ w w2 jr' Hpost).
    rewrite (bind_lift _ _ w2 s Hs), (bind_lift _ _ w2 p Hpl), (bind_lift _ _ w2 lst Hl).
    rewrite (bind_lift _ _ w2 _ Hids).
    rewrite gen_bind_assoc. unfold resolve_page at 1. cbn [fst snd].
    rewrite gen_bind_assoc. rewrite (bind_run _ _ w w2 jr' Hpost).
    destruct ids as [|i ids]; [congruence|].
    unfold Gen.bind at 1. rewrite news_page_slice. unfold Gen.bind at 1.
    destruct (scrap_tracks X E (news_slice offset (i :: ids) ol) (user_id self)
                (convert_m3u8_links self) w2) as [[[]|e] w3]; [|reflexivity].
    rewrite (IH jr' _ w3 Hrest). rewrite Z.add_assoc. reflexivity.
Qed.

(** X8. The offset of [get_news_iter] skips exactly the leading identities:
    over the first page and the pages after it, a run asks for each page
    and resolves the slice of its identities that the running total of the
    loop leaves past the offset, and these slices are together the
    identities of all the pages without the first [offset] ones. *)
Theorem news_offset_skips_exactly_the_leading_identities
        (X : Externals) (E : Env) (self : VkAudio) (offset : Z) (fuel : nat)
        (w : World) (first lst : value) (ids0 : list TrackIdentity)
        (pages : list (Request * value * list TrackIdentity)) :
  serve E (posts w) (recoms_request "new_songs") = Ok first ->
  recoms_list first = Ok lst ->
  scrap_ids X lst = Ok ids0 ->
  news_pages X E first pages ->
  let asked := recoms_request "new_songs" :: map (fun p => fst (fst p)) pages in
  let idss := ids0 :: map snd pages in
  get_news_iter X E self offset (List.length pages + fuel) w
  = Gen.bind
      (for_each (resolve_page X E self) (combine asked (news_slices offset idss 0)))
      (fun _ => get_news_iter_loop X E self offset fuel (last_news_page first pages)
                  (news_total idss))
      w
  /\ List.concat (news_slices offset idss 0)
     = skipn (Z.to_nat offset) (List.concat idss).
Proof.
  intros Hfirst Hlst Hids Hpages asked idss.
  split; [|unfold idss; rewrite news_slices_skip, Z.sub_0_r; reflexivity].
  unfold get_news_iter, asked, idss.
  cbn [news_slices combine for_each news_total].
  assert (Hpost : http_post E (recoms_request "new_songs") w
                  = (Ok first, snd (http_post E (recoms_request "new_songs") w))).
  { unfold http_post. cbn [snd]. rewrite Hfirst. reflexivity. }
  set (w1 := snd (http_post E (recoms_request "new_songs") w)) in *.
  rewrite (bind_run _ _ w w1 first Hpost).
  rewrite (bind_lift _ _ w1 lst Hlst), (bind_lift _ _ w1 ids0 Hids).
  rewrite gen_bind_assoc. unfold resolve_page at 1. cbn [fst snd].
  rewrite gen_bind_assoc. rewrite (bind_run _ _ w w1 first Hpost).
  unfold Gen.bind at 1. rewrite news_page_slice. unfold Gen.bind at 1.
  destruct (scrap_tracks X E (news_slice offset ids0 0) (user_id self)
              (convert_m3u8_links self) w1) as [[[]|e] w2]; [|reflexivity].
  apply news_loop_over_pages. exact Hpages.
Qed.

(** X8, witness: two pages of two identities each and offset 3; only the
    fourth identity is resolved. *)
Lemma news_offset_witness :
  let E := NewsDouble.by_request in
  let w := Double.start_at 0%Q in
  let page2 := NewsDouble.catalog_page (Double.audios 3 2) in
  let next := load_catalog_section_request (VStr "section") (VStr "p2") in
  get_news_iter Double.externals E Double.me 3 1 w
  = Gen.bind
      (for_each (resolve_page Double.externals E Double.me)
         [(recoms_request "new_songs", []);
          (next, [("1", "4", "h2", "h5")])])
      (fun _ => get_news_iter_loop Double.externals E Double.me 3 0 page2 4)
      w
  /\ resolved (trace (snd (get_news_iter Double.externals E Double.me 3 1 w)))
     = [VStr "1_4_h2_h5"].
Proof.
  intros E w page2 next. split; [|vm_compute; reflexivity].
  refine (proj1 (news_offset_skips_exactly_the_leading_identities
                   Double.externals E Double.me 3 0 w
                   (NewsDouble.first_page (Double.audios 1 2))
                   (VList (Double.audios 1 2))
                   [("1", "1", "h2", "h5"); ("1", "2", "h2", "h5")]
                   [(next, page2, [("1", "3", "h2", "h5"); ("1", "4", "h2", "h5")])]
                   eq_refl eq_refl eq_refl _)).
  cbn [news_pages]. split; [reflexivity|]. split; [intros n; reflexivity|].
  split; [reflexivity|]. split; [discriminate|exact I].
Defined.

(** X9. A catalog page with identities but without the [sectionData] key
    ends [get_news_iter]: once the tracks of the page are resolved the next
    turn raises KeyError, and no request for a further page is sent. *)
Theorem news_feed_raises_KeyError_after_a_catalog_page
        (X : Externals) (E : Env) (self : VkAudio) (offset : Z) (fuel : nat)
        (jr jr' s p lst : value) (r : Request) (i : TrackIdentity)
        (ids : list TrackIdentity) (offset_left : Z) (w : World) :
  news_next_request jr = Ok r ->
  serve E (posts w) r = Ok jr' ->
  payload11 jr' = Ok s ->
  getkey s "playlist" = Ok p ->
  getkey p "list" = Ok lst ->
  scrap_ids X lst = Ok (i :: ids) ->
  getkey jr' "sectionData" = Raise KeyError ->
  let w2 := snd (http_post E r w) in
  let page := news_page X E self offset (i :: ids) offset_left w2 in
  get_news_iter_loop X E self offset (S (S fuel)) jr offset_left w
  = match fst page with
    | Ok _ => (Raise KeyError, snd page)
    | Raise e => (Raise e, snd page)
    end.
Proof.
  intros Hr Hs Hp Hpl Hl Hi Hk w2 page.
  cbn [get_news_iter_loop].
  unfold Gen.bind at 1. unfold Gen.lift at 1. rewrite Hr.
  unfold Gen.bind at 1. unfold http_post at 1. rewrite Hs.
  unfold Gen.bind at 1. unfold Gen.lift at 1. rewrite Hp.
  unfold Gen.bind at 1. unfold Gen.lift at 1. rewrite Hpl.
  unfold Gen.bind at 1. unfold Gen.lift at 1. rewrite Hl.
  unfold Gen.bind at 1. unfold Gen.lift at 1. rewrite Hi.
  unfold Gen.bind at 1.
  unfold page, w2, http_post. cbn [snd].
  destruct (news_page X E self offset (i :: ids) offset_left _) as [[[]|e] w3];
    cbn [fst snd]; [|reflexivity].
  unfold Gen.bind at 1. unfold Gen.lift at 1.
  unfold news_next_request, recoms. rewrite Hk. reflexivity.
Qed.

(** X9, witness: the second page of the news feed is a catalog answer. *)
Lemma news_feed_KeyError_witness :
  let E := Double.scripted NewsDouble.script in
  let w := snd (http_post E (recoms_request "new_songs") (Double.start_at 0%Q)) in
  fst (get_news_iter_loop Double.externals E Double.me 0 3
         (NewsDouble.first_page []) 0 w)
  = Raise KeyError
  /\ fst (get_news_iter Double.externals E Double.me 0 3 (Double.start_at 0%Q))
     = Raise KeyError.
Proof.
  intros E w. split; [|vm_compute; reflexivity].
  pose proof (news_feed_raises_KeyError_after_a_catalog_page
                Double.externals E Double.me 0 1
                (NewsDouble.first_page [])
                (NewsDouble.catalog_page (Double.audios 1 1))
                (VDict [("playlist", VDict [("list", VList (Double.audios 1 1))]);
                        ("sectionId", VStr "section");
                        ("nextFrom", VStr "p3")])
                (VDict [("list", VList (Double.audios 1 1))])
                (VList (Double.audios 1 1))
                (load_catalog_section_request (VStr "section") (VStr "p2"))
                ("1", "1", "h2", "h5") [] 0 w
                eq_refl eq_refl eq_refl eq_refl eq_refl eq_refl eq_refl) as H.
  cbv zeta in H. rewrite H. vm_compute. reflexivity.
Defined.

(** ** The offset of the chart *)

(** X10. [get_popular_iter] reads one page and slices its identities in
    memory: an offset at or past their number resolves nothing, so that the
    call returns after its single request without a yield; a negative offset
    [-k] resolves the last [k] identities of the chart. *)
Theorem popular_offset_slices_the_single_page
        (X : Externals) (E : Env) (self : VkAudio) (offset : Z) (w : World)
        (jr lst : value) (ids : list TrackIdentity) :
  serve E (posts w) (recoms_request "chart") = Ok jr ->
  recoms_list jr = Ok lst ->
  scrap_ids X lst = Ok ids ->
  let w1 := snd (http_post E (recoms_request "chart") w) in
  let n := Z.of_nat (List.length ids) in
  ((n <= offset)%Z -> (0 < offset)%Z ->
     get_popular_iter X E self offset w = (Ok Returned, w1))
  /\ (forall k, (0 < k <= n)%Z -> offset = (- k)%Z ->
        get_popular_iter X E self offset w
        = Gen.bind
            (scrap_tracks X E (skipn (List.length ids - Z.to_nat k) ids)
               (user_id self) (convert_m3u8_links self))
            (fun _ => Gen.ret Returned) w1).
Proof.
  intros Hs Hl Hi w1 n.
  assert (Hrun : get_popular_iter X E self offset w
                 = Gen.bind
                     (scrap_tracks X E
                        (if (offset =? 0)%Z then ids else slice_from offset ids)
                        (user_id self) (convert_m3u8_links self))
                     (fun _ => Gen.ret Returned) w1).
  { unfold get_popular_iter.
    unfold Gen.bind at 1. unfold http_post at 1. rewrite Hs.
    unfold Gen.bind at 1. unfold Gen.lift at 1. rewrite Hl.
    unfold Gen.bind at 1. unfold Gen.lift at 1. rewrite Hi.
    reflexivity. }
  split.
  - intros Hn Hpos. rewrite Hrun.
    destruct (Z.eqb_spec offset 0); [lia|].
    rewrite slice_from_pos by lia.
    rewrite skipn_all2 by (unfold n in Hn; lia).
    reflexivity.
  - intros k Hk ->. rewrite Hrun.
    destruct (Z.eqb_spec (- k) 0); [lia|].
    unfold slice_from. destruct (Z.ltb_spec (- k) 0); [|lia].
    replace (Z.to_nat (Z.max 0 (Z.of_nat (List.length ids) + - k)))
      with (List.length ids - Z.to_nat k) by (unfold n in Hk; lia).
    reflexivity.
Qed.

(** X10, witness: a chart of three tracks read from offset 3. *)
Lemma popular_offset_witness :
  let E := Double.scripted (fun _ => Ok (NewsDouble.first_page (Double.audios 1 3))) in
  get_popular_iter Double.externals E Double.me 3 (Double.start_at 0%Q)
  = (Ok Returned, snd (http_post E (recoms_request "chart") (Double.start_at 0%Q))).
Proof.
  intros E.
  refine (proj1 (popular_offset_slices_the_single_page
                   Double.externals E Double.me 3 (Double.start_at 0%Q)
                   (NewsDouble.first_page (Double.audios 1 3))
                   (VList (Double.audios 1 3))
                   [("1", "1", "h2", "h5"); ("1", "2", "h2", "h5"); ("1", "3", "h2", "h5")]
                   eq_refl eq_refl eq_refl) _ _).
  - cbn. discriminate.
  - reflexivity.
Defined.

(** ** [search_user] *)

Lemma collect_scrap_tracks (X : Externals) (E : Env) (ids : list TrackIdentity)
      (u : Z) (cv : bool) (w : World) (items : list Item) :
  fst (collect (scrap_tracks X E ids u cv) w) = Ok items ->
  requests (trace (snd (collect (scrap_tracks X E ids u cv) w)))
  = requests (trace w) ++ map reload_audio_request (chunks ids)
  /\ yielded (snd (collect (scrap_tracks X E ids u cv) w)) = yielded w.
Proof.
  unfold collect.
  set (w0 := {| clock := clock w; trace := trace w; yielded := [] |}).
  destruct (loop_trace X E u cv (chunks ids) 0%Q w0)
    as (new & k & Ht & _ & _ & _ & Hr & Hk).
  fold (scrap_tracks X E ids u cv) in Ht, Hk.
  destruct (fst (scrap_tracks X E ids u cv w0)) as [[]|e] eqn:Hf;
    cbn [fst snd trace yielded]; [|discriminate].
  intros _. specialize (Hk eq_refl). subst k. rewrite firstn_all in Hr.
  rewrite Ht. cbn [trace w0]. rewrite requests_app, Hr. split; reflexivity.
Qed.

(** X11. [search_user] sends the search request and then: raises
    AccessDenied when [payload[1]] is falsy; returns the empty list, with no
    further request, when the [playlists] entry is falsy; otherwise resolves
    the identities of the first playlist, so that a call that returns has
    sent the search request followed by one resolving request per batch of
    10 identities. It yields nothing to its caller. *)
Theorem search_user_reads_the_first_playlist
        (X : Externals) (E : Env) (self : VkAudio) (owner : option Z) (q : string)
        (w : World) (json_response p p1 : value) :
  let o := match owner with Some o => o | None => user_id self end in
  let run := search_user X E self owner q w in
  serve E (posts w) (search_user_request o q) = Ok json_response ->
  getkey json_response "payload" = Ok p ->
  getitem p 1 = Ok p1 ->
  (truthy p1 = false ->
     fst run = Raise AccessDenied
     /\ requests (trace (snd run)) = requests (trace w) ++ [search_user_request o q])
  /\ (forall s playlists,
        truthy p1 = true ->
        getitem p1 1 = Ok s ->
        getkey s "playlists" = Ok playlists ->
        (truthy playlists = false ->
           fst run = Ok []
           /\ requests (trace (snd run))
              = requests (trace w) ++ [search_user_request o q])
        /\ (forall first lst ids items,
              truthy playlists = true ->
              getitem playlists 0 = Ok first ->
              getkey first "list" = Ok lst ->
              scrap_ids X lst = Ok ids ->
              fst run = Ok items ->
              requests (trace (snd run))
              = requests (trace w)
                ++ search_user_request o q :: map reload_audio_request (chunks ids)
              /\ yielded (snd run) = yielded w)).
Proof.
  intros o run Hs Hp Hp1.
  set (w1 := snd (http_post E (search_user_request o q) w)).
  assert (Hw1 : requests (trace w1) = requests (trace w) ++ [search_user_request o q]).
  { unfold w1, http_post. cbn [snd trace]. rewrite requests_app. reflexivity. }
  assert (Hrun : run
                 = (if negb (truthy p1) then Gen.raise AccessDenied
                    else
                      Gen.bind (Gen.lift (payload11 json_response))
                        (fun s =>
                           Gen.bind (Gen.lift (getkey s "playlists"))
                             (fun playlists =>
                                if truthy playlists
                                then
                                  Gen.bind (Gen.lift (payload11 json_response))
                                    (fun s' =>
                                       Gen.bind (Gen.lift (getkey s' "playlists"))
                                         (fun playlists' =>
                                            Gen.bind (Gen.lift (getitem playlists' 0))
                                              (fun first =>
                                                 Gen.bind (Gen.lift (getkey first "list"))
                                                   (fun lst =>
                                                      Gen.bind (Gen.lift (scrap_ids X lst))
                                                        (fun ids =>
                                                           collect (scrap_tracks X E ids (user_id self)
                                                                      (convert_m3u8_links self)))))))
                                else Gen.ret []))) w1).
  { unfold run, search_user. fold o.
    unfold Gen.bind at 1. unfold http_post at 1. rewrite Hs.
    unfold Gen.bind at 1. unfold Gen.lift at 1. rewrite Hp.
    unfold Gen.bind at 1. unfold Gen.lift at 1. rewrite Hp1.
    reflexivity. }
  split.
  - intros Ht. rewrite Hrun, Ht. cbn [negb Gen.raise fst snd].
    split; [reflexivity|exact Hw1].
  - intros s playlists Ht Hs1 Hpl.
    assert (H11 : payload11 json_response = Ok s).
    { unfold payload11. rewrite Hp. cbn [Res.bind]. rewrite Hp1. cbn [Res.bind].
      exact Hs1. }
    assert (Hrun2 : run
                    = (if truthy playlists
                       then
                         Gen.bind (Gen.lift (payload11 json_response))
                           (fun s' =>
                              Gen.bind (Gen.lift (getkey s' "playlists"))
                                (fun playlists' =>
                                   Gen.bind (Gen.lift (getitem playlists' 0))
                                     (fun first =>
                                        Gen.bind (Gen.lift (getkey first "list"))
                                          (fun lst =>
                                             Gen.bind (Gen.lift (scrap_ids X lst))
                                               (fun ids =>
                                                  collect (scrap_tracks X E ids (user_id self)
                                                             (convert_m3u8_links self)))))))
                       else Gen.ret []) w1).
    { rewrite Hrun, Ht. cbn [negb].
      unfold Gen.bind at 1. unfold Gen.lift at 1. rewrite H11.
      unfold Gen.bind at 1. unfold Gen.lift at 1. rewrite Hpl.
      reflexivity. }
    split.
    + intros Hf. rewrite Hrun2, Hf. cbn [Gen.ret fst snd].
      split; [reflexivity|exact Hw1].
    + intros first lst ids items Htp Hfirst Hl Hi.
      assert (Hrun3 : run = collect (scrap_tracks X E ids (user_id self)
                                       (convert_m3u8_links self)) w1).
      { rewrite Hrun2, Htp.
        unfold Gen.bind at 1. unfold Gen.lift at 1. rewrite H11.
        unfold Gen.bind at 1. unfold Gen.lift at 1. rewrite Hpl.
        unfold Gen.bind at 1. unfold Gen.lift at 1. rewrite Hfirst.
        unfold Gen.bind at 1. unfold Gen.lift at 1. rewrite Hl.
        unfold Gen.bind at 1. unfold Gen.lift at 1. rewrite Hi.
        reflexivity. }
      rewrite Hrun3. intros Hok.
      destruct (collect_scrap_tracks X E ids (user_id self)
                  (convert_m3u8_links self) w1 items Hok) as [Hr Hy].
      rewrite Hr, Hy, Hw1, <- app_assoc. split; reflexivity.
Qed.

(** X11, witness: a search answer with one playlist of three tracks. *)
Lemma search_user_witness :
  let E := Double.scripted
             (fun n => match n with
                       | 0 => Ok (Double.catalog (Double.audios 1 3) "")
                       | _ => Ok (Double.reloaded (Double.audios 1 3))
                       end) in
  let run := search_user Double.externals E Double.me None "q" (Double.start_at 0%Q) in
  List.length (requests (trace (snd run))) = 2
  /\ yielded (snd run) = [].
Proof.
  intros E run.
  pose proof (search_user_reads_the_first_playlist
                Double.externals E Double.me None "q" (Double.start_at 0%Q)
                (Double.catalog (Double.audios 1 3) "")
                (VList [VInt 0;
                        VList [VStr "";
                               VDict [("playlists",
                                       VList [VDict [("type", VStr "search");
                                                     ("list", VList (Double.audios 1 3))]]);
                                      ("sectionId", VStr "section");
                                      ("nextFrom", VStr "")]]])
                (VList [VStr "";
                        VDict [("playlists",
                                VList [VDict [("type", VStr "search");
                                              ("list", VList (Double.audios 1 3))]]);
                               ("sectionId", VStr "section");
                               ("nextFrom", VStr "")]])
                eq_refl eq_refl eq_refl) as [_ H].
  destruct (H _ _ eq_refl eq_refl eq_refl) as [_ H2].
  destruct (H2 (VDict [("type", VStr "search"); ("list", VList (Double.audios 1 3))])
              (VList (Double.audios 1 3))
              [("1", "1", "h2", "h5"); ("1", "2", "h2", "h5"); ("1", "3", "h2", "h5")]
              (yielded (snd (scrap_tracks Double.externals E
                               [("1", "1", "h2", "h5"); ("1", "2", "h2", "h5");
                                ("1", "3", "h2", "h5")] 1 true
                               (snd (http_post E (search_user_request 1 "q")
                                       (Double.start_at 0%Q))))))
              eq_refl eq_refl eq_refl eq_refl eq_refl) as [Hr Hy].
  split.
  - fold run in Hr. rewrite Hr. reflexivity.
  - exact Hy.
Defined.

(** ** [base36encode] *)

Lemma digit36_alphabet_nat (n : nat) :
  n < 36 ->
  exists c, String.get n alphabet = Some c
            /\ digit36 c = Z.of_nat n
            /\ (0 < n -> c <> "0"%char).
Proof.
  intros Hn.
  do 36 (destruct n as [|n];
         [eexists; split; [reflexivity|split; [reflexivity|intros H; try discriminate; lia]]|]).
  lia.
Qed.

Lemma digit36_alphabet (i : Z) :
  (0 <= i < 36)%Z ->
  exists c, String.get (Z.to_nat i) alphabet = Some c
            /\ digit36 c = i
            /\ ((0 < i)%Z -> c <> "0"%char).
Proof.
  intros Hi.
  destruct (digit36_alphabet_nat (Z.to_nat i) ltac:(lia)) as (c & Hc & Hd & Hz).
  exists c. split; [exact Hc|]. split; [lia|]. intros H. apply Hz. lia.
Qed.

Lemma base36decode_from_app (s t : string) :
  forall acc, base36decode_from acc (s ++ t)
              = base36decode_from (base36decode_from acc s) t.
Proof. induction s as [|c s IH]; intros acc; cbn; [reflexivity|apply IH]. Qed.

Lemma append_assoc (a b c : string) : ((a ++ b) ++ c = a ++ (b ++ c))%string.
Proof. induction a as [|x a IH]; cbn; [reflexivity|rewrite IH; reflexivity]. Qed.

Lemma base36_loop_writes (fuel : nat) :
  forall number acc,
    (0 <= number)%Z ->
    Z.to_nat number <= fuel ->
    exists s,
      base36_loop fuel number acc = Some (s ++ acc)%string
      /\ (forall a0, base36decode_from a0 s
                     = (a0 * 36 ^ Z.of_nat (String.length s) + number)%Z)
      /\ (number = 0%Z -> s = "")
      /\ ((0 < number)%Z -> exists c s', s = String c s' /\ c <> "0"%char).
Proof.
  induction fuel as [|fuel IH]; intros number acc Hn Hf.
  - assert (number = 0%Z) by lia. subst. exists "". cbn.
    split; [reflexivity|]. split; [intros; lia|]. split; [reflexivity|lia].
  - cbn [base36_loop]. destruct (Z.eqb_spec number 0) as [->|Hne].
    + exists "". cbn. split; [reflexivity|]. split; [intros; lia|].
      split; [reflexivity|lia].
    + assert (Hpos : (0 < number)%Z) by lia.
      pose proof (Z.mod_pos_bound number 36 ltac:(lia)) as Hm.
      pose proof (Z.div_mod number 36 ltac:(lia)) as Hdm.
      assert (Hq : (0 <= number / 36 < number)%Z).
      { split; [apply Z.div_pos; lia|apply Z.div_lt; lia]. }
      cbv zeta.
      destruct (digit36_alphabet (number mod 36) Hm) as (c & Hc & Hd & Hz).
      rewrite Hc.
      destruct (IH (number / 36)%Z (String c acc) ltac:(lia) ltac:(lia))
        as (s & Hs & Hdec & H0 & Hlead).
      exists (s ++ String c "")%string.
      rewrite Hs, append_assoc. split; [reflexivity|]. split; [|split].
      * intros a0. rewrite base36decode_from_app, Hdec. cbn [base36decode_from].
        rewrite Hd, length_append. cbn [String.length].
        rewrite Nat2Z.inj_add, Z.pow_add_r by lia.
        change (36 ^ Z.of_nat 1)%Z with 36%Z. lia.
      * lia.
      * intros _. destruct (Z.eqb_spec (number / 36) 0) as [Hq0|Hq0].
        -- rewrite (H0 Hq0). exists c, "". split; [reflexivity|].
           apply Hz. lia.
        -- destruct (Hlead ltac:(lia)) as (c' & s' & -> & Hc').
           exists c', (s' ++ String c "")%string. split; [reflexivity|exact Hc'].
Qed.

Lemma base36_loop_negative (fuel : nat) :
  forall number acc, (number < 0)%Z -> base36_loop fuel number acc = None.
Proof.
  induction fuel as [|fuel IH]; intros number acc Hn; cbn [base36_loop];
    destruct (Z.eqb_spec number 0); try lia; [reflexivity|].
  cbv zeta. destruct (String.get _ alphabet); [|reflexivity].
  apply IH. apply Z.div_lt_upper_bound; lia.
Qed.

(** X12. From a clock reading at or after the epoch, that is, when
    [int(time.time() * 1000)] is a number [number >= 0], [base36encode]
    returns the base-36 numeral of that number: read back in base 36 it
    gives [number]; it has no leading zero, and it is the empty string
    exactly when [number] is 0. *)
Theorem base36encode_writes_the_milliseconds (number : Z) (fuel : nat) :
  (0 <= number)%Z ->
  Z.to_nat number <= fuel ->
  exists s,
    base36encode fuel number = Some s
    /\ base36decode s = number
    /\ (s = "" <-> number = 0%Z)
    /\ (forall c s', s = String c s' -> c <> "0"%char).
Proof.
  intros Hm Hf.
  destruct (base36_loop_writes fuel number "" Hm Hf)
    as (s & Hs & Hdec & H0 & Hlead).
  exists s. unfold base36encode. rewrite Hs.
  split; [f_equal; clear; induction s as [|c s IH]; cbn; [reflexivity|rewrite IH; reflexivity]|].
  split; [unfold base36decode; rewrite Hdec; lia|]. split.
  - split; [|exact H0]. intros ->.
    specialize (Hdec 0%Z). cbn in Hdec. lia.
  - intros c s' ->.
    destruct (Z.eqb_spec number 0) as [Hz|Hz]; [specialize (H0 Hz); discriminate|].
    destruct (Hlead ltac:(lia)) as (c' & s'' & Heq & Hc').
    injection Heq as <- <-. exact Hc'.
Qed.

(** X12, witness: 4350 milliseconds after the epoch. *)
Lemma base36encode_witness :
  base36encode 4350 4350 = Some "3cu" /\ base36decode "3cu" = 4350%Z.
Proof.
  destruct (base36encode_writes_the_milliseconds 4350 4350
              ltac:(lia) ltac:(cbn; lia))
    as (s & Hs & Hd & _).
  split; [reflexivity|].
  assert (Heq : Some s = Some "3cu") by (rewrite <- Hs; reflexivity).
  injection Heq as ->. exact Hd.
Defined.

(** X13. From a clock reading before the epoch, that is, when
    [int(time.time() * 1000)] is negative, the loop of [base36encode] never
    ends: floor division keeps the number negative, so that it never
    reaches 0. *)
Theorem base36encode_runs_forever_before_the_epoch (number : Z) (fuel : nat) :
  (number < 0)%Z ->
  base36encode fuel number = None.
Proof. intros H. apply base36_loop_negative. exact H. Qed.

(** X13, witness: one second before the epoch. *)
Lemma base36encode_before_the_epoch_witness :
  (-1000 < 0)%Z /\ base36encode 5000 (-1000) = None.
Proof.
  assert (H : (-1000 < 0)%Z) by lia.
  split; [exact H|].
  exact (base36encode_runs_forever_before_the_epoch (-1000) 5000 H).
Defined.

(** ** The table [AUDIO_TUPLE] *)

Lemma key_eqb_true (a b : value) : key_eqb a b = true -> a = b /\ is_key a.
Proof.
  destruct a, b; cbn; try discriminate.
  - intros H. apply Z.eqb_eq in H. subst. auto.
  - intros H. apply String.eqb_eq in H. subst. auto.
Qed.

Lemma key_eqb_refl (a : value) : is_key a -> key_eqb a a = true.
Proof.
  destruct a; cbn; try tauto; intros _.
  - apply Z.eqb_refl.
  - apply String.eqb_refl.
Qed.

Lemma dict_set_fresh (d : pydict) (k v : value) :
  Forall (fun e => key_eqb (fst e) k = false) d ->
  dict_set d k v = d ++ [(k, v)].
Proof.
  induction 1 as [|[k' v'] d Hk _ IH]; [reflexivity|].
  cbn [dict_set app]. cbn [fst] in Hk. rewrite Hk, IH. reflexivity.
Qed.

Lemma fresh_keys_app_inv (d l : pydict) (e : value * value) :
  fresh_keys (d ++ e :: l) ->
  Forall (fun x => key_eqb (fst x) (fst e) = false) d /\ fresh_keys ((d ++ [e]) ++ l).
Proof.
  intros H. split.
  - induction d as [|x d IH]; [constructor|].
    cbn [app] in H. inversion H as [|? ? Hx Hd]; subst.
    constructor; [|apply IH; exact Hd].
    rewrite Forall_forall in Hx. apply Hx. apply in_or_app. right. left. reflexivity.
  - rewrite <- app_assoc. exact H.
Qed.

Lemma fold_set_fresh (l : pydict) :
  forall d, fresh_keys (d ++ l) ->
            fold_left (fun acc kv => dict_set acc (fst kv) (snd kv)) l d = d ++ l.
Proof.
  induction l as [|[k v] l IH]; intros d H; [rewrite app_nil_r; reflexivity|].
  cbn [fold_left fst snd].
  destruct (fresh_keys_app_inv d l (k, v) H) as [Hf Hr].
  rewrite (dict_set_fresh d k v Hf), IH by exact Hr.
  rewrite <- app_assoc. reflexivity.
Qed.

Lemma fold_left_map_entries {A} (f : A -> value * value) (l : list A) (d : pydict) :
  fold_left (fun acc kv => dict_set acc (fst kv) (snd kv)) (map f l) d
  = fold_left (fun acc x => dict_set acc (fst (f x)) (snd (f x))) l d.
Proof. revert d. induction l as [|x l IH]; intros d; [reflexivity|apply IH]. Qed.

Lemma fresh_keys_map {A B} (f : A -> value * value) (g : A -> B) (l : list A) :
  (forall a b, key_eqb (fst (f a)) (fst (f b)) = true -> g a = g b) ->
  NoDup (map g l) ->
  fresh_keys (map f l).
Proof.
  intros Hinj. induction l as [|a l IH]; intros Hnd; [constructor|].
  cbn [map] in *. inversion Hnd as [|? ? Hni Hnd']; subst.
  constructor; [|apply IH; exact Hnd'].
  rewrite Forall_forall. intros e He. apply in_map_iff in He as (b & <- & Hb).
  destruct (key_eqb (fst (f a)) (fst (f b))) eqn:Hk; [|reflexivity].
  exfalso. apply Hni. rewrite (Hinj a b Hk). apply in_map. exact Hb.
Qed.

Lemma fresh_keys_app (d l : pydict) :
  fresh_keys d -> fresh_keys l ->
  (forall a b, In a d -> In b l -> key_eqb (fst a) (fst b) = false) ->
  fresh_keys (d ++ l).
Proof.
  intros Hd Hl Hx. induction Hd as [|a d Ha Hd IH]; [exact Hl|].
  cbn [app]. constructor.
  - apply Forall_app. split; [exact Ha|].
    rewrite Forall_forall. intros b Hb. apply Hx; [left; reflexivity|exact Hb].
  - apply IH. intros x y Hx' Hy. apply Hx; [right; exact Hx'|exact Hy].
Qed.

Lemma dict_get_In (d : pydict) (k v : value) :
  fresh_keys d -> is_key k -> In (k, v) d -> dict_get d k = Some v.
Proof.
  intros Hf Hk. induction Hf as [|[k' v'] d Ha Hd IH]; intros Hin; [inversion Hin|].
  cbn [dict_get]. destruct Hin as [Heq|Hin].
  - injection Heq as -> ->. rewrite key_eqb_refl by exact Hk. reflexivity.
  - rewrite Forall_forall in Ha. specialize (Ha _ Hin). cbn [fst] in Ha.
    rewrite Ha. apply IH. exact Hin.
Qed.

Lemma dict_get_Some_In (d : pydict) (k v : value) :
  dict_get d k = Some v -> In (k, v) d.
Proof.
  induction d as [|[k' v'] d IH]; cbn [dict_get]; [discriminate|].
  destruct (key_eqb k' k) eqn:Hk.
  - intros H. injection H as <-. apply key_eqb_true in Hk as [-> _].
    left. reflexivity.
  - intros H. right. apply IH. exact H.
Qed.

Lemma distinctb_NoDup {A} (eqb : A -> A -> bool) (l : list A) :
  (forall a b, a = b -> eqb a b = true) ->
  distinctb eqb l = true -> NoDup l.
Proof.
  intros Heq. induction l as [|x l IH]; intros H; [constructor|].
  cbn [distinctb] in H. apply andb_true_iff in H as [Hx Hl].
  constructor; [|apply IH; exact Hl].
  intros Hin. apply negb_true_iff in Hx.
  assert (existsb (eqb x) l = true).
  { apply existsb_exists. exists x. split; [exact Hin|apply Heq; reflexivity]. }
  congruence.
Qed.

Lemma table_dict (table : list (string * Z)) :
  NoDup (map fst table) -> NoDup (map snd table) ->
  dict_update (dict_of table) (inverted (dict_of table))
  = map name_entry table ++ map position_entry table
  /\ fresh_keys (map name_entry table ++ map position_entry table).
Proof.
  intros Hn Hp.
  assert (Fn : fresh_keys (map name_entry table)).
  { apply (fresh_keys_map name_entry fst); [|exact Hn].
    intros [a x] [b y]. cbn. intros H. apply String.eqb_eq in H. exact H. }
  assert (Fp : fresh_keys (map position_entry table)).
  { apply (fresh_keys_map position_entry snd); [|exact Hp].
    intros [a x] [b y]. cbn. intros H. apply Z.eqb_eq in H. exact H. }
  assert (Fnp : fresh_keys (map name_entry table ++ map position_entry table)).
  { apply fresh_keys_app; [exact Fn|exact Fp|].
    intros a b Ha Hb.
    apply in_map_iff in Ha as ([x1 y1] & <- & _).
    apply in_map_iff in Hb as ([x2 y2] & <- & _). reflexivity. }
  assert (Hd : dict_of table = map name_entry table).
  { unfold dict_of.
    transitivity (fold_left (fun acc kv => dict_set acc (fst kv) (snd kv))
                    (map name_entry table) []).
    - rewrite fold_left_map_entries. reflexivity.
    - apply (fold_set_fresh (map name_entry table) []). exact Fn. }
  assert (Hi : inverted (dict_of table) = map position_entry table).
  { rewrite Hd. unfold inverted.
    transitivity (fold_left (fun acc kv => dict_set acc (fst kv) (snd kv))
                    (map position_entry table) []).
    - generalize (@nil (value * value)). clear.
      induction table as [|[n p] t IH]; intros d; [reflexivity|].
      cbn [map fold_left]. apply IH.
    - apply (fold_set_fresh (map position_entry table) []). exact Fp. }
  split; [|exact Fnp].
  rewrite Hi, Hd. unfold dict_update. apply fold_set_fresh. exact Fnp.
Qed.

(** X14. Updating a name-to-position table with its own inverse, as the
    module does for [AUDIO_TUPLE], gives a dict that is its own inverse
    whenever no name and no position occurs twice: every name maps to its
    position and the position back to the name, [d[d[k]] == k] for every
    key, nothing else is a key, and the dict has twice the entries of the
    table. [AUDIO_TUPLE] is such a table: it has 56 keys, and the positions
    7 and 23 are not among them. *)
Theorem table_updated_with_its_inverse_is_an_involution :
  (forall table : list (string * Z),
      NoDup (map fst table) -> NoDup (map snd table) ->
      let d := dict_update (dict_of table) (inverted (dict_of table)) in
      (forall n p, In (n, p) table ->
                   dict_get d (VStr n) = Some (VInt p)
                   /\ dict_get d (VInt p) = Some (VStr n))
      /\ (forall k v, dict_get d k = Some v -> dict_get d v = Some k)
      /\ (forall n, ~ In n (map fst table) -> dict_get d (VStr n) = None)
      /\ (forall p, ~ In p (map snd table) -> dict_get d (VInt p) = None)
      /\ List.length d = 2 * List.length table)
  /\ NoDup (map fst AUDIO_TUPLE_names)
  /\ NoDup (map snd AUDIO_TUPLE_names)
  /\ List.length AUDIO_TUPLE_dict = 56
  /\ dict_get AUDIO_TUPLE_dict (VInt 7) = None
  /\ dict_get AUDIO_TUPLE_dict (VInt 23) = None.
Proof.
  split.
  - intros table Hn Hp d.
    destruct (table_dict table Hn Hp) as [Hd Hf]. fold d in Hd.
    assert (Hname : forall n p, In (n, p) table -> In (VStr n, VInt p) d).
    { intros n p H. rewrite Hd. apply in_or_app. left.
      apply in_map_iff. exists (n, p). auto. }
    assert (Hpos : forall n p, In (n, p) table -> In (VInt p, VStr n) d).
    { intros n p H. rewrite Hd. apply in_or_app. right.
      apply in_map_iff. exists (n, p). auto. }
    assert (Hin : forall k v, In (k, v) d ->
                              exists n p, In (n, p) table
                                          /\ ((k = VStr n /\ v = VInt p)
                                              \/ (k = VInt p /\ v = VStr n))).
    { intros k v H. rewrite Hd in H. apply in_app_or in H as [H|H];
        apply in_map_iff in H as ([n p] & Heq & H); injection Heq as <- <-;
        exists n, p; auto. }
    rewrite <- Hd in Hf.
    split; [|split; [|split; [|split]]].
    + intros n p H. split; apply dict_get_In; try exact Hf; try exact I; auto.
    + intros k v H. apply dict_get_Some_In in H.
      destruct (Hin k v H) as (n & p & Ht & [[-> ->]|[-> ->]]);
        apply dict_get_In; try exact Hf; try exact I; auto.
    + intros n Hni. destruct (dict_get d (VStr n)) as [v|] eqn:Hg; [|reflexivity].
      exfalso. apply dict_get_Some_In in Hg.
      destruct (Hin _ _ Hg) as (n' & p & Ht & [[Hk _]|[Hk _]]); [|discriminate].
      injection Hk as ->. apply Hni. apply in_map_iff. exists (n', p). auto.
    + intros p Hni. destruct (dict_get d (VInt p)) as [v|] eqn:Hg; [|reflexivity].
      exfalso. apply dict_get_Some_In in Hg.
      destruct (Hin _ _ Hg) as (n & p' & Ht & [[Hk _]|[Hk _]]); [discriminate|].
      injection Hk as ->. apply Hni. apply in_map_iff. exists (n, p'). auto.
    + rewrite Hd, length_app, !length_map. lia.
  - split; [|split; [|split; [|split]]].
    + apply (distinctb_NoDup String.eqb).
      * intros a b ->. apply String.eqb_refl.
      * vm_compute. reflexivity.
    + apply (distinctb_NoDup Z.eqb).
      * intros a b ->. apply Z.eqb_refl.
      * vm_compute. reflexivity.
    + vm_compute. reflexivity.
    + vm_compute. reflexivity.
    + vm_compute. reflexivity.
Qed.

(** X14, witness: [AUDIO_TUPLE] itself. *)
Lemma AUDIO_TUPLE_witness :
  dict_get AUDIO_TUPLE_dict (VStr "HASHES") = Some (VInt (Z.of_nat AUDIO_TUPLE.HASHES))
  /\ dict_get AUDIO_TUPLE_dict (VInt 13) = Some (VStr "HASHES").
Proof.
  destruct table_updated_with_its_inverse_is_an_involution
    as (H & Hn & Hp & _).
  exact (proj1 (H AUDIO_TUPLE_names Hn Hp) "HASHES" 13%Z
           ltac:(cbn; tauto)).
Defined.
(** ** Albums *)

Lemma every_digit_uint (d : Decimal.uint) :
  every digit (NilEmpty.string_of_uint d) = true.
Proof. induction d; cbn; auto. Qed.

Lemma digit_not_space (a : ascii) : digit a = true -> int_space a = false.
Proof. destruct a as [[] [] [] [] [] [] [] []]; vm_compute; congruence. Qed.

Lemma digit_not_underscore (a : ascii) : digit a = true -> Ascii.eqb a "_" = false.
Proof. destruct a as [[] [] [] [] [] [] [] []]; vm_compute; congruence. Qed.

Lemma digit_not_minus (a : ascii) : digit a = true -> Ascii.eqb "-" a = false.
Proof. destruct a as [[] [] [] [] [] [] [] []]; vm_compute; congruence. Qed.

Lemma int_rstrip_digits (s : string) :
  every digit s = true -> int_rstrip s = s.
Proof.
  induction s as [|a s IH]; [reflexivity|].
  cbn [every int_rstrip]. intros H. apply andb_true_iff in H as [Ha Hs].
  rewrite (IH Hs). destruct s; [|reflexivity].
  rewrite (digit_not_space a Ha). reflexivity.
Qed.

Lemma drop_underscores_digits (s : string) (b : bool) :
  every digit s = true -> drop_underscores s b = Some s.
Proof.
  revert b. induction s as [|a s IH]; intros b; [reflexivity|].
  cbn [every drop_underscores]. intros H. apply andb_true_iff in H as [Ha Hs].
  rewrite (digit_not_underscore a Ha), (IH _ Hs). reflexivity.
Qed.

Lemma uint_of_string_of_uint (d : Decimal.uint) :
  NilEmpty.uint_of_string (NilEmpty.string_of_uint d) = Some d.
Proof. apply NilEmpty.usu. Qed.

Lemma int_digits_uint (d : Decimal.uint) :
  int_digits (NilZero.string_of_uint d) = Some (Z.of_uint d).
Proof.
  unfold int_digits. destruct d; try reflexivity;
    (rewrite drop_underscores_digits by apply (every_digit_uint (_ _));
     unfold NilZero.string_of_uint, NilZero.uint_of_string;
     rewrite uint_of_string_of_uint; reflexivity).
Qed.

Lemma uint_string_head (d : Decimal.uint) :
  exists a s, NilZero.string_of_uint d = String a s /\ digit a = true
              /\ every digit s = true.
Proof.
  destruct d; cbn; eexists _, _; (split; [reflexivity|split; [reflexivity|]]);
    try reflexivity; apply every_digit_uint.
Qed.

Lemma py_int_digits (s : string) :
  every digit s = true -> py_int s = int_digits s.
Proof.
  intros H. unfold py_int. destruct s as [|a s]; [reflexivity|].
  pose proof H as H'. cbn [every] in H'. apply andb_true_iff in H' as [Ha Hs].
  cbn [int_lstrip]. rewrite (digit_not_space a Ha), (int_rstrip_digits _ H).
  destruct a as [[] [] [] [] [] [] [] []]; try reflexivity; vm_compute in Ha; congruence.
Qed.

Lemma py_int_uint (d : Decimal.uint) :
  py_int (NilZero.string_of_uint d) = Some (Z.of_uint d).
Proof.
  rewrite py_int_digits, int_digits_uint; [reflexivity|].
  destruct (uint_string_head d) as (a & s & -> & Ha & Hs).
  cbn [every]. rewrite Ha, Hs. reflexivity.
Qed.

Lemma py_int_minus_uint (d : Decimal.uint) :
  py_int (String "-" (NilZero.string_of_uint d)) = Some (- Z.of_uint d)%Z.
Proof.
  unfold py_int. cbn [int_lstrip].
  change (int_space "-") with false. cbv iota.
  destruct (uint_string_head d) as (a & s & E & Ha & Hs).
  assert (Hd : every digit (NilZero.string_of_uint d) = true).
  { rewrite E. cbn [every]. rewrite Ha, Hs. reflexivity. }
  cbn [int_rstrip]. rewrite (int_rstrip_digits _ Hd).
  rewrite E. cbv iota. rewrite <- E, int_digits_uint. reflexivity.
Qed.

(** [int(str(z)) == z] *)
Lemma py_int_str_int (z : Z) : py_int (str_int z) = Some z.
Proof.
  unfold str_int.
  rewrite <- (DecimalZ.of_to z) at 2.
  destruct (Z.to_int z) as [d|d]; cbn [NilZero.string_of_int Z.of_int].
  - apply py_int_uint.
  - apply py_int_minus_uint.
Qed.

(** A greedy [[p]*] takes a whole run of [p] characters when what follows
    does not start with one and the rest of the pattern matches there. *)
Lemma star_run (p : ascii -> bool) (h t : string) (c : Re.caps) (k : Re.cont)
      (r : Re.answer) :
  every p h = true ->
  k t c = Some r ->
  match t with String a _ => p a = false | "" => True end ->
  Re.star p (h ++ t)%string c k = Some r.
Proof.
  intros Hh Hk Ht. induction h as [|a h IH].
  - cbn [append]. destruct t as [|b t]; cbn [Re.star]; [exact Hk|].
    rewrite Ht. exact Hk.
  - cbn [every] in Hh. apply andb_true_iff in Hh as [Ha Hh].
    cbn [append Re.star]. rewrite Ha, (IH Hh). reflexivity.
Qed.

Lemma plus_run (p : ascii -> bool) (a : ascii) (h t : string) (c : Re.caps)
      (k : Re.cont) (r : Re.answer) :
  p a = true ->
  every p h = true ->
  k t c = Some r ->
  match t with String b _ => p b = false | "" => True end ->
  Re.plus p (String a h ++ t)%string c k = Some r.
Proof.
  intros Ha Hh Hk Ht. unfold Re.plus, Re.seq, Re.chr. cbn [append].
  rewrite Ha. apply star_run; assumption.
Qed.

Lemma append_empty (s : string) : (s ++ "")%string = s.
Proof. induction s as [|a s IH]; cbn; [reflexivity|rewrite IH; reflexivity]. Qed.

(** The shape of [str(z)]: an optional minus sign and at least one digit. *)
Lemma str_int_shape (z : Z) :
  exists a s, digit a = true /\ every digit s = true /\
    (str_int z = String a s \/ str_int z = String "-" (String a s)).
Proof.
  unfold str_int. destruct (Z.to_int z) as [d|d]; cbn [NilZero.string_of_int];
    destruct (uint_string_head d) as (a & s & -> & Ha & Hs); exists a, s; auto.
Qed.

Lemma str_int_nonneg (z : Z) :
  (0 <= z)%Z ->
  exists a s, digit a = true /\ every digit s = true /\ str_int z = String a s.
Proof.
  intros Hz. unfold str_int.
  destruct z as [|p|p]; [| |lia]; cbn [Z.to_int NilZero.string_of_int];
    match goal with |- context [NilZero.string_of_uint ?d] =>
      destruct (uint_string_head d) as (a & s & -> & Ha & Hs) end;
    exists a, s; auto.
Qed.

(** The signed number of group 1, followed by the rest of the pattern. *)
Lemma signed_run (z : Z) (t : string) (c : Re.caps) (k : Re.cont) (r : Re.answer) :
  k t c = Some r ->
  match t with String b _ => digit b = false | "" => True end ->
  Re.seq (Re.opt (Re.lit "-")) (Re.plus digit) (str_int z ++ t)%string c k = Some r.
Proof.
  intros Hk Ht.
  destruct (str_int_shape z) as (a & s & Ha & Hs & [E|E]); rewrite E.
  - unfold Re.seq, Re.opt.
    replace (Re.lit "-" (String a s ++ t)%string c
               (fun s' c' => Re.plus digit s' c' k)) with (@None Re.answer).
    + apply plus_run; assumption.
    + cbn [Re.lit append]. unfold Re.seq, Re.chr.
      rewrite (digit_not_minus a Ha). reflexivity.
  - unfold Re.seq, Re.opt.
    change (String "-" (String a s) ++ t)%string
      with ("-" ++ (String a s ++ t))%string.
    rewrite lit_prefix, (plus_run digit a s t c k r Ha Hs Hk Ht). reflexivity.
Qed.

Lemma album_id_match (o i : Z) :
  (0 <= i)%Z ->
  Re.match_at RE_ALBUM_ID ("act=audio_playlist" ++ str_int o ++ "_" ++ str_int i)%string
  = Some ("", {| Re.g1 := Some (str_int o); Re.g2 := Some (str_int i) |}).
Proof.
  intros Hi. unfold Re.match_at, RE_ALBUM_ID.
  unfold Re.seq at 1. rewrite lit_prefix.
  unfold Re.seq at 1. unfold Re.group1.
  apply signed_run; [|reflexivity].
  rewrite consumed_append.
  unfold Re.seq at 1. rewrite lit_prefix.
  unfold Re.group2.
  destruct (str_int_nonneg i Hi) as (a & s & Ha & Hs & E).
  rewrite E, <- (append_empty (String a s)).
  rewrite (plus_run digit a s "" _ _
             ("", {| Re.g1 := Some (str_int o); Re.g2 := Some (String a s) |})
             Ha Hs); [rewrite append_empty; reflexivity| |exact I].
  rewrite consumed_append. reflexivity.
Qed.

(** The ids of an album can be read back from its url. *)
Lemma full_id_of_album_url (o i : Z) :
  (0 <= i)%Z -> full_id_of_link (album_url o i) = Ok (o, i).
Proof.
  intros Hi. unfold full_id_of_link, album_url.
  replace (re_search RE_ALBUM_ID
             ("https://m.vk.com/audio?act=audio_playlist" ++ str_int o ++ "_" ++ str_int i))
    with (Some {| Re.g1 := Some (str_int o); Re.g2 := Some (str_int i) |}).
  - cbn [Re.g1 Re.g2]. rewrite !py_int_str_int. reflexivity.
  - symmetry.
    change ("https://m.vk.com/audio?act=audio_playlist" ++ str_int o ++ "_" ++ str_int i)%string
      with ("https://m.vk.com/audio?" ++
            ("act=audio_playlist" ++ str_int o ++ "_" ++ str_int i))%string.
    pose proof (album_id_match o i Hi) as Hm.
    set (rest := ("act=audio_playlist" ++ str_int o ++ "_" ++ str_int i)%string) in *.
    assert (Hrest : re_search RE_ALBUM_ID rest = Some {| Re.g1 := Some (str_int o); Re.g2 := Some (str_int i) |}).
    { unfold rest. cbn [append]. cbn [re_search].
      unfold rest in Hm. cbn [append] in Hm. rewrite Hm. reflexivity. }
    clearbody rest. cbn [append].
    repeat (match goal with
            | |- re_search _ (String ?a ?s) = _ =>
                change (re_search RE_ALBUM_ID (String a s))
                  with (match Re.match_at RE_ALBUM_ID (String a s) with
                        | Some (_, c) => Some c
                        | None => re_search RE_ALBUM_ID s
                        end);
                replace (Re.match_at RE_ALBUM_ID (String a s)) with (@None Re.answer)
                  by reflexivity
            end).
    exact Hrest.
Qed.

Lemma lit_inv (l s : string) (c : Re.caps) (k : Re.cont) (r : Re.answer) :
  Re.lit l s c k = Some r -> exists t, k t c = Some r.
Proof.
  revert s. induction l as [|a l IH]; intros s H.
  - exists s. exact H.
  - cbn [Re.lit] in H. unfold Re.seq, Re.chr in H.
    destruct s as [|b s]; [discriminate|].
    destruct (Ascii.eqb a b); [|discriminate]. exact (IH _ H).
Qed.

Lemma star_inv (p : ascii -> bool) (s : string) (c : Re.caps) (k : Re.cont)
      (r : Re.answer) :
  Re.star p s c k = Some r ->
  exists h t, s = (h ++ t)%string /\ every p h = true /\ k t c = Some r.
Proof.
  induction s as [|a s IH]; cbn [Re.star]; intros H.
  - exists "", "". auto.
  - destruct (p a) eqn:Ha; [|exists "", (String a s); auto].
    destruct (Re.star p s c k) as [r'|] eqn:Hs.
    + injection H as <-. destruct (IH eq_refl) as (h & t & -> & Hh & Hk).
      exists (String a h), t. cbn [every append]. rewrite Ha. auto.
    + exists "", (String a s). auto.
Qed.

Lemma plus_inv (p : ascii -> bool) (s : string) (c : Re.caps) (k : Re.cont)
      (r : Re.answer) :
  Re.plus p s c k = Some r ->
  exists a h t, s = (String a h ++ t)%string /\ p a = true /\ every p h = true
                /\ k t c = Some r.
Proof.
  unfold Re.plus, Re.seq, Re.chr. destruct s as [|a s]; [discriminate|].
  destruct (p a) eqn:Ha; [|discriminate]. intros H.
  destruct (star_inv _ _ _ _ _ H) as (h & t & -> & Hh & Hk).
  exists a, h, t. auto.
Qed.

Lemma re_search_inv (m : Re.matcher) (s : string) (c : Re.caps) :
  re_search m s = Some c -> exists s' rest, Re.match_at m s' = Some (rest, c).
Proof.
  induction s as [|a s IH]; cbn [re_search].
  - destruct (Re.match_at m "") as [[rest c']|] eqn:E; [|discriminate].
    intros [= <-]. eauto.
  - destruct (Re.match_at m (String a s)) as [[rest c']|] eqn:E.
    + intros [= <-]. eauto.
    + exact IH.
Qed.

(** Group 2 of [RE_ALBUM_ID] is a non-empty run of digits. *)
Lemma album_id_group2 (s rest : string) (c : Re.caps) :
  Re.match_at RE_ALBUM_ID s = Some (rest, c) ->
  exists a h, Re.g2 c = Some (String a h) /\ digit a = true /\ every digit h = true.
Proof.
  unfold Re.match_at, RE_ALBUM_ID. unfold Re.seq at 1. intros H.
  apply lit_inv in H as [t1 H].
  unfold Re.seq at 1, Re.group1 in H. unfold Re.seq at 1, Re.opt in H.
  assert (Hp : exists t c0 k1,
             Re.plus digit t c0
               (fun s' c' => Re.seq (Re.lit "_") (Re.group2 (Re.plus digit)) s'
                               {| Re.g1 := k1 s'; Re.g2 := Re.g2 c' |}
                               (fun rest0 c1 => Some (rest0, c1)))
             = Some (rest, c)).
  { match type of H with
    | match ?x with _ => _ end = _ => destruct x as [r'|] eqn:Hl
    end.
    - injection H as ->. apply lit_inv in Hl as [t Hl].
      exists t, Re.no_caps, (fun s' => Some (Re.consumed t1 s')). exact Hl.
    - exists t1, Re.no_caps, (fun s' => Some (Re.consumed t1 s')). exact H. }
  destruct Hp as (t & c0 & k1 & Hp).
  apply plus_inv in Hp as (_ & _ & t2 & _ & _ & _ & Hk).
  unfold Re.seq in Hk. apply lit_inv in Hk as [t3 Hk].
  unfold Re.group2 in Hk.
  apply plus_inv in Hk as (a & h & t4 & -> & Ha & Hh & Hk).
  injection Hk as <- <-. cbn [Re.g2].
  change (String a (h ++ t4)) with (String a h ++ t4)%string.
  rewrite (consumed_append (String a h) t4). eauto.
Qed.

Lemma py_int_digits_nonneg (s : string) (i : Z) :
  every digit s = true -> py_int s = Some i -> (0 <= i)%Z.
Proof.
  intros Hs. rewrite (py_int_digits _ Hs). unfold int_digits.
  rewrite (drop_underscores_digits _ _ Hs).
  destruct (NilZero.uint_of_string s) as [u|]; [|discriminate].
  intros [= <-]. unfold Z.of_uint. apply N2Z.is_nonneg.
Qed.

Lemma full_id_of_link_nonneg (link : string) (o i : Z) :
  full_id_of_link link = Ok (o, i) -> (0 <= i)%Z.
Proof.
  unfold full_id_of_link.
  destruct (re_search RE_ALBUM_ID link) as [c|] eqn:Hs; [|discriminate].
  apply re_search_inv in Hs as (s' & rest & Hm).
  apply album_id_group2 in Hm as (a & h & -> & Ha & Hh).
  destruct (Re.g1 c) as [g|]; [|discriminate].
  destruct (py_int g) as [o'|]; [|discriminate].
  destruct (py_int (String a h)) as [i'|] eqn:Hi; [|discriminate].
  intros [= <- <-]. apply (py_int_digits_nonneg (String a h)); [|exact Hi].
  cbn [every]. rewrite Ha, Hh. reflexivity.
Qed.

Lemma album_of_inv (n : Albums.Node) (a : Albums.Album) :
  Albums.album_of n = Ok a ->
  exists link,
    Albums.item_link n = Some (Some link) /\
    full_id_of_link link = Ok (Albums.owner_id a, Albums.id a) /\
    Albums.url a = album_url (Albums.owner_id a) (Albums.id a) /\
    Albums.item_stats n <> None /\
    Albums.plays a = match Albums.item_stats n with
                     | Some t => plays_of t
                     | None => None
                     end.
Proof.
  unfold Albums.album_of. intros H.
  destruct (Albums.item_link n) as [[link|]|]; try discriminate.
  exists link. cbn [Res.bind] in H.
  destruct (full_id_of_link link) as [[o i]|] eqn:Hf; [|discriminate].
  cbn [Res.bind] in H.
  destruct (Albums.item_stats n) as [st|]; [|discriminate]. cbn in H.
  destruct (Albums.item_title n) as [ti|]; [|discriminate]. cbn in H.
  destruct (Albums.item_author n) as [au|]; [|discriminate]. cbn in H.
  injection H as <-. cbn. repeat split; congruence.
Qed.

(** X15. The [url] that [scrap_albums] stores in an album leads back to the
    album: read with the pattern and the [int] conversions that produced
    [owner_id] and [id] from the link of the page, it gives the same two
    numbers. (Texts are ASCII: [\d] and [int] are modelled on ASCII
    digits.) *)
Theorem album_url_leads_back_to_the_album (n : Albums.Node) (a : Albums.Album) :
  Albums.album_of n = Ok a ->
  full_id_of_link (Albums.url a) = Ok (Albums.owner_id a, Albums.id a).
Proof.
  intros H. destruct (album_of_inv n a H) as (link & _ & Hf & -> & _).
  apply full_id_of_album_url. exact (full_id_of_link_nonneg _ _ _ Hf).
Qed.

Lemma album_url_witness :
  let n := {| Albums.item_link :=
                Some (Some "/audio?act=audio_playlist-2001_77&access_hash=ab_1&from=x");
              Albums.item_stats := Some "1 011 plays";
              Albums.item_title := Some "Title";
              Albums.item_author := Some "Artist" |} in
  exists a, Albums.album_of n = Ok a /\
            Albums.owner_id a = (-2001)%Z /\ Albums.id a = 77%Z /\
            full_id_of_link (Albums.url a) = Ok ((-2001)%Z, 77%Z).
Proof.
  intros n.
  assert (H : exists a, Albums.album_of n = Ok a /\ Albums.owner_id a = (-2001)%Z
                        /\ Albums.id a = 77%Z).
  { eexists. split; [vm_compute; reflexivity|split; reflexivity]. }
  destruct H as (a & Ha & Ho & Hi). exists a.
  split; [exact Ha|split; [exact Ho|split; [exact Hi|]]].
  rewrite <- Ho at 1. rewrite <- Hi.
  exact (album_url_leads_back_to_the_album n a Ha).
Defined.

Lemma before_last_space_none (u : string) :
  every (fun c => negb (Ascii.eqb c " ")) u = true -> before_last_space u = None.
Proof.
  induction u as [|c u IH]; [reflexivity|].
  cbn [every before_last_space]. intros H. apply andb_true_iff in H as [Hc Hu].
  rewrite (IH Hu). apply negb_true_iff in Hc. rewrite Hc. reflexivity.
Qed.

Lemma rsplit_head_last_space (t u : string) :
  every (fun c => negb (Ascii.eqb c " ")) u = true ->
  rsplit_head (t ++ " " ++ u) = t.
Proof.
  intros Hu. unfold rsplit_head.
  replace (before_last_space (t ++ " " ++ u)) with (Some t); [reflexivity|].
  symmetry. induction t as [|c t IH].
  - cbn. rewrite (before_last_space_none _ Hu). reflexivity.
  - cbn [append before_last_space] in *. rewrite IH. reflexivity.
Qed.

(** X16. The play count is read from what precedes the last space of the
    stats text, whatever way spaces group its digits: when the text is a
    spelling of [str(n)] with spaces anywhere in it, then a space and a last
    word, [plays] is [n]. *)
Theorem plays_reads_the_number_before_the_last_word (t u : string) (n : Z) :
  remove_spaces t = str_int n ->
  every (fun c => negb (Ascii.eqb c " ")) u = true ->
  plays_of (t ++ " " ++ u) = Some n.
Proof.
  intros Ht Hu. unfold plays_of.
  rewrite (rsplit_head_last_space t u Hu), Ht. apply py_int_str_int.
Qed.

Lemma plays_witness : plays_of ("1 011" ++ " " ++ "plays") = Some 1011%Z.
Proof.
  apply (plays_reads_the_number_before_the_last_word "1 011" "plays" 1011);
    reflexivity.
Defined.

Lemma scrap_albums_length (nodes : list Albums.Node) (l : list Albums.Album) :
  Albums.scrap_albums nodes = Ok l -> List.length l = List.length nodes.
Proof.
  revert l. induction nodes as [|n nodes IH]; intros l; cbn [Albums.scrap_albums].
  - intros [= <-]. reflexivity.
  - destruct (Albums.album_of n) as [a|]; [|discriminate]. cbn [Res.bind].
    destruct (Albums.scrap_albums nodes) as [l'|]; [|discriminate]. cbn [Res.bind].
    intros [= <-]. cbn [List.length]. rewrite (IH l' eq_refl). reflexivity.
Qed.

(** X17. [scrap_albums] never skips an item: one item of the page that
    cannot be read (no link, a link without the album pattern, a missing
    stats, title or author element) makes the whole call raise, and no album
    of the page is returned. *)
Theorem scrap_albums_fails_on_one_unreadable_item
        (nodes : list Albums.Node) (n : Albums.Node) (e : exn) :
  In n nodes ->
  Albums.album_of n = Raise e ->
  exists e', Albums.scrap_albums nodes = Raise e'.
Proof.
  induction nodes as [|m nodes IH]; intros Hin Hn; [contradiction|].
  cbn [Albums.scrap_albums].
  destruct (Albums.album_of m) as [a|e0] eqn:Hm; [|exists e0; reflexivity].
  cbn [Res.bind]. destruct Hin as [->|Hin]; [congruence|].
  destruct (IH Hin Hn) as [e' ->]. exists e'. reflexivity.
Qed.

Lemma scrap_albums_unreadable_witness :
  let good := {| Albums.item_link := Some (Some "/audio?act=audio_playlist5_6");
                 Albums.item_stats := Some "3 plays";
                 Albums.item_title := Some "T";
                 Albums.item_author := Some "A" |} in
  let bad := {| Albums.item_link := Some (Some "/audio?act=audio_playlist5_7");
                Albums.item_stats := None;
                Albums.item_title := Some "T";
                Albums.item_author := Some "A" |} in
  exists e', Albums.scrap_albums [good; bad; good] = Raise e'.
Proof.
  intros good bad.
  apply (scrap_albums_fails_on_one_unreadable_item [good; bad; good] bad AttributeError).
  - right. left. reflexivity.
  - reflexivity.
Defined.

Lemma offsets_S (m : nat) :
  Albums.offsets (S m) = Albums.offsets m ++ [(Albums.ALBUMS_PER_USER_PAGE * Z.of_nat m)%Z].
Proof. unfold Albums.offsets. rewrite seq_S, map_app. reflexivity. Qed.

Lemma length_offsets (m : nat) : List.length (Albums.offsets m) = m.
Proof. unfold Albums.offsets. rewrite length_map, length_seq. reflexivity. Qed.

Lemma albums_loop_offsets (get : nat -> Z -> result Albums.Page) (fuel : nat) :
  forall m offset st,
    Albums.turn m offset st ->
    exists m', m <= m' <= m + fuel /\
      Albums.sent (snd (Albums.get_albums_iter_loop get fuel offset st))
      = Albums.offsets m'.
Proof.
  induction fuel as [|fuel IH]; intros m offset st [Hs Ho].
  - exists m. split; [lia|exact Hs].
  - cbn [Albums.get_albums_iter_loop].
    assert (Hs1 : Albums.sent st ++ [offset] = Albums.offsets (S m)).
    { rewrite offsets_S, Hs, Ho. reflexivity. }
    assert (Hstop : exists m', m <= m' <= m + S fuel /\
                      Albums.sent st ++ [offset] = Albums.offsets m').
    { exists (S m). split; [lia|exact Hs1]. }
    destruct (get (List.length (Albums.sent st)) offset) as [p|e]; [|exact Hstop].
    destruct (Albums.page_text p =? "")%string; [exact Hstop|].
    destruct (Albums.scrap_albums (Albums.page_items p)) as [[|a l]|e];
      try exact Hstop.
    cbn [Albums.sent Albums.albums].
    destruct (IH (S m) (offset + Albums.ALBUMS_PER_USER_PAGE)%Z
                {| Albums.sent := Albums.sent st ++ [offset];
                   Albums.albums := Albums.albums st ++ a :: l |})
      as (m' & Hm' & E).
    + split; [exact Hs1|]. rewrite Ho. unfold Albums.ALBUMS_PER_USER_PAGE. lia.
    + exists m'. split; [lia|exact E].
Qed.

(** X18. Whatever the server answers, the requests of [get_albums_iter] carry
    the offsets 0, 100, 200, ... in this order, one request per turn of the
    loop: no offset is skipped or sent twice. *)
Theorem get_albums_iter_offsets_step_by_100
        (get : nat -> Z -> result Albums.Page) (fuel : nat) :
  exists m, m <= fuel /\
    Albums.sent (snd (Albums.get_albums_iter get fuel))
    = map (fun k => (100 * Z.of_nat k)%Z) (seq 0 m).
Proof.
  unfold Albums.get_albums_iter.
  destruct (albums_loop_offsets get fuel 0 0%Z
              {| Albums.sent := []; Albums.albums := [] |})
    as (m & Hm & E).
  - split; reflexivity.
  - exists m. split; [lia|exact E].
Qed.

Lemma albums_loop_pages (get : nat -> Z -> result Albums.Page)
      (pages : list (list Albums.Album)) (fuel : nat) :
  forall m offset st,
    Albums.turn m offset st ->
    (forall n l, nth_error pages n = Some l ->
                 l <> [] /\ Albums.page_gives get (m + n) l) ->
    Albums.get_albums_iter_loop get (List.length pages + fuel) offset st
    = Albums.get_albums_iter_loop get fuel
        (Albums.ALBUMS_PER_USER_PAGE * Z.of_nat (m + List.length pages))%Z
        {| Albums.sent := Albums.offsets (m + List.length pages);
           Albums.albums := Albums.albums st ++ List.concat pages |}.
Proof.
  induction pages as [|l pages IH]; intros m offset st [Hs Ho] Hp.
  - cbn [List.length List.concat Nat.add]. rewrite Nat.add_0_r, app_nil_r, <- Hs, <- Ho.
    destruct st; reflexivity.
  - cbn [List.length Nat.add Albums.get_albums_iter_loop].
    destruct (Hp 0 l eq_refl) as (Hl & p & Hg & Ht & Hsc).
    rewrite Hs, length_offsets, Ho. rewrite Nat.add_0_r in Hg. rewrite Hg.
    apply String.eqb_neq in Ht. rewrite Ht, Hsc.
    destruct l as [|a l]; [congruence|].
    cbn [Albums.sent Albums.albums].
    rewrite (IH (S m)).
    + cbn [List.concat Albums.albums]. rewrite <- app_assoc.
      replace (S m + List.length pages) with (m + S (List.length pages)) by lia.
      reflexivity.
    + split; [cbn [Albums.sent]; rewrite offsets_S; reflexivity|].
      unfold Albums.ALBUMS_PER_USER_PAGE. lia.
    + intros n l' Hn. replace (S m + n) with (m + S n) by lia.
      apply (Hp (S n) l'). exact Hn.
Qed.

(** X19. [get_albums_iter] ends at the first page without an album item:
    when the first pages scrape to the non-empty lists [pages] and the next
    page has some text but no item, the generator returns after one request
    more, having yielded the albums of [pages] in order, and sends nothing
    further however long it is driven. *)
Theorem get_albums_iter_ends_at_the_first_page_without_items
        (get : nat -> Z -> result Albums.Page)
        (pages : list (list Albums.Album)) (last : Albums.Page) (extra : nat) :
  Albums.pages_give get pages ->
  get (List.length pages) (Albums.ALBUMS_PER_USER_PAGE * Z.of_nat (List.length pages))%Z
  = Ok last ->
  Albums.page_text last <> "" ->
  Albums.page_items last = [] ->
  Albums.get_albums_iter get (S (List.length pages) + extra)
  = (Ok Returned,
     {| Albums.sent := Albums.offsets (S (List.length pages));
        Albums.albums := List.concat pages |}).
Proof.
  intros Hp Hg Ht Hi. unfold Albums.get_albums_iter.
  replace (S (List.length pages) + extra) with (List.length pages + S extra) by lia.
  rewrite (albums_loop_pages get pages (S extra) 0); [|split; reflexivity|exact Hp].
  cbn [Nat.add Albums.get_albums_iter_loop Albums.sent Albums.albums app].
  rewrite length_offsets, Hg. apply String.eqb_neq in Ht. rewrite Ht, Hi.
  cbn [Albums.scrap_albums]. rewrite offsets_S. reflexivity.
Qed.

(** X20. A page with an empty text ends [get_albums_iter] with
    [AccessDenied], also after albums have been yielded: the albums of the
    pages before it were handed to the caller and stay so. *)
Theorem get_albums_iter_raises_AccessDenied_on_an_empty_text
        (get : nat -> Z -> result Albums.Page)
        (pages : list (list Albums.Album)) (last : Albums.Page) (extra : nat) :
  Albums.pages_give get pages ->
  get (List.length pages) (Albums.ALBUMS_PER_USER_PAGE * Z.of_nat (List.length pages))%Z
  = Ok last ->
  Albums.page_text last = "" ->
  Albums.get_albums_iter get (S (List.length pages) + extra)
  = (Raise AccessDenied,
     {| Albums.sent := Albums.offsets (S (List.length pages));
        Albums.albums := List.concat pages |}).
Proof.
  intros Hp Hg Ht. unfold Albums.get_albums_iter.
  replace (S (List.length pages) + extra) with (List.length pages + S extra) by lia.
  rewrite (albums_loop_pages get pages (S extra) 0); [|split; reflexivity|exact Hp].
  cbn [Nat.add Albums.get_albums_iter_loop Albums.sent Albums.albums app].
  rewrite length_offsets, Hg, Ht. cbn [String.eqb]. rewrite offsets_S. reflexivity.
Qed.

Lemma first_page_gives : Albums.pages_give (AlbumDouble.get false) [AlbumDouble.first_albums]
                         /\ Albums.pages_give (AlbumDouble.get true) [AlbumDouble.first_albums].
Proof.
  split; intros [|[|n]] l; cbn [nth_error]; try discriminate;
    intros [= <-]; (split; [discriminate|]);
    exists AlbumDouble.first; (split; [reflexivity|split; [discriminate|reflexivity]]).
Defined.

Lemma get_albums_iter_ends_witness :
  Albums.get_albums_iter (AlbumDouble.get false) 5
  = (Ok Returned,
     {| Albums.sent := [0; 100]%Z; Albums.albums := AlbumDouble.first_albums |}).
Proof.
  apply (get_albums_iter_ends_at_the_first_page_without_items
           (AlbumDouble.get false) [AlbumDouble.first_albums] AlbumDouble.no_items 3).
  - exact (proj1 first_page_gives).
  - reflexivity.
  - discriminate.
  - reflexivity.
Defined.

Lemma get_albums_iter_AccessDenied_witness :
  Albums.get_albums_iter (AlbumDouble.get true) 5
  = (Raise AccessDenied,
     {| Albums.sent := [0; 100]%Z; Albums.albums := AlbumDouble.first_albums |}).
Proof.
  apply (get_albums_iter_raises_AccessDenied_on_an_empty_text
           (AlbumDouble.get true) [AlbumDouble.first_albums] AlbumDouble.no_text 3).
  - exact (proj2 first_page_gives).
  - reflexivity.
  - reflexivity.
Defined.

Lemma track_covers_witness :
  exists cover,
    getitem audio_with_covers AUDIO_TUPLE.COVER_URL = Ok cover
    /\ (truthy cover = false -> track_covers track_with_covers = [])
    /\ (truthy cover = true ->
        exists s, cover = VStr s
                  /\ track_covers track_with_covers = split "," s
                  /\ track_covers track_with_covers <> []
                  /\ Forall (fun piece =>
                               every (fun c => negb (Ascii.eqb c ",")) piece = true)
                            (track_covers track_with_covers)
                  /\ join "," (track_covers track_with_covers) = s).
Proof.
  apply (track_covers_split_the_cover_field Double.externals 1 true
           audio_with_covers track_with_covers).
  reflexivity.
Defined.

(** ** [scrap_json] *)

Lemma every_app (p : ascii -> bool) (a b : string) :
  every p (a ++ b) = every p a && every p b.
Proof.
  induction a as [|x a IH]; cbn [append every]; [reflexivity|].
  rewrite IH, andb_assoc. reflexivity.
Qed.

Lemma lit_split (l s : string) (c : Re.caps) (k : Re.cont) (r : Re.answer) :
  Re.lit l s c k = Some r -> exists t, s = (l ++ t)%string /\ k t c = Some r.
Proof.
  revert s. induction l as [|a l IH]; intros s H.
  - exists s. split; [reflexivity|exact H].
  - cbn [Re.lit] in H. unfold Re.seq, Re.chr in H.
    destruct s as [|b s]; [discriminate|].
    destruct (Ascii.eqb a b) eqn:E; [|discriminate].
    apply Ascii.eqb_eq in E as <-.
    destruct (IH _ H) as (t & -> & Hk). exists t. split; [reflexivity|exact Hk].
Qed.

Lemma re_search_split (m : Re.matcher) (s : string) (c : Re.caps) :
  re_search m s = Some c ->
  exists pre s' rest, s = (pre ++ s')%string /\ Re.match_at m s' = Some (rest, c).
Proof.
  induction s as [|a s IH]; cbn [re_search].
  - destruct (Re.match_at m "") as [[rest c']|] eqn:E; [|discriminate].
    intros [= <-]. exists "", "", rest. auto.
  - destruct (Re.match_at m (String a s)) as [[rest c']|] eqn:E.
    + intros [= <-]. exists "", (String a s), rest. auto.
    + intros H. destruct (IH H) as (pre & s' & rest & -> & Hm).
      exists (String a pre), s', rest. auto.
Qed.

(** A greedy star that fails has failed after every run it could take. *)
Lemma star_none (p : ascii -> bool) (s : string) (c : Re.caps) (k : Re.cont) :
  Re.star p s c k = None ->
  forall u v, s = (u ++ v)%string -> every p u = true -> k v c = None.
Proof.
  induction s as [|a s IH]; cbn [Re.star]; intros H u v E Hu.
  - destruct u; [|discriminate]. cbn in E. subst v. exact H.
  - destruct u as [|b u].
    + cbn in E. subst v. destruct (p a); [|exact H].
      destruct (Re.star p s c k); [discriminate|exact H].
    + cbn [append] in E. injection E as <- ->.
      cbn [every] in Hu. apply andb_true_iff in Hu as [Hb Hu].
      rewrite Hb in H. destruct (Re.star p (u ++ v) c k) eqn:Hs; [discriminate|].
      exact (IH eq_refl u v eq_refl Hu).
Qed.

(** A greedy star takes the longest run after which the rest matches. *)
Lemma star_longest (p : ascii -> bool) (s : string) (c : Re.caps) (k : Re.cont)
      (r : Re.answer) :
  Re.star p s c k = Some r ->
  exists h t, s = (h ++ t)%string /\ every p h = true /\ k t c = Some r /\
    forall b u v, t = (String b u ++ v)%string -> every p (String b u) = true ->
                  k v c = None.
Proof.
  induction s as [|a s IH]; cbn [Re.star]; intros H.
  - exists "", "". repeat split; auto. intros b u v E. discriminate.
  - destruct (p a) eqn:Ha.
    + destruct (Re.star p s c k) as [r'|] eqn:Hs.
      * injection H as <-. destruct (IH eq_refl) as (h & t & -> & Hh & Hk & Hmax).
        exists (String a h), t. cbn [every append]. rewrite Ha. auto.
      * exists "", (String a s). repeat split; auto.
        intros b u v E Hu. cbn [append] in E. injection E as <- ->.
        cbn [every] in Hu. apply andb_true_iff in Hu as [_ Hu].
        exact (star_none p _ c k Hs u v eq_refl Hu).
    + exists "", (String a s). repeat split; auto.
      intros b u v E Hu. cbn [append] in E. injection E as <- ->.
      cbn [every] in Hu. rewrite Ha in Hu. discriminate.
Qed.

(** A lazy star takes the shortest run after which the rest matches. *)
Lemma lazy_star_shortest (p : ascii -> bool) (s : string) (c : Re.caps)
      (k : Re.cont) (r : Re.answer) :
  lazy_star p s c k = Some r ->
  exists h t, s = (h ++ t)%string /\ every p h = true /\ k t c = Some r /\
    forall u b v, h = (u ++ String b v)%string -> k (String b v ++ t)%string c = None.
Proof.
  induction s as [|a s IH]; cbn [lazy_star]; intros H.
  - destruct (k "" c) eqn:Hk; [|discriminate]. injection H as <-.
    exists "", "". repeat split; auto. intros [|x u] b v E; discriminate.
  - destruct (k (String a s) c) as [r'|] eqn:Hk.
    + injection H as <-. exists "", (String a s). repeat split; auto.
      intros [|x u] b v E; discriminate.
    + destruct (p a) eqn:Ha; [|discriminate].
      destruct (IH H) as (h & t & -> & Hh & Hkt & Hmin).
      exists (String a h), t. cbn [every append]. rewrite Ha.
      repeat split; auto.
      intros [|x u] b v E; cbn [append] in E; injection E as <- E.
      * subst h. exact Hk.
      * exact (Hmin u b v E).
Qed.

Lemma brace_is_dot : Re.dot "{" = true /\ Re.dot "}" = true.
Proof. split; reflexivity. Qed.

(** What group 1 of the pattern matches at a position: from a brace to the
    last closing brace of the line. *)
Lemma json_group (s : string) (c0 : Re.caps) (rest : string) (c : Re.caps) :
  Re.group1 (Re.seq (Re.lit "{") (Re.seq (Re.star Re.dot) (Re.lit "}"))) s c0
    (fun rest0 c1 => Some (rest0, c1)) = Some (rest, c) ->
  exists b, s = ("{" ++ b ++ "}" ++ rest)%string /\
            Re.g1 c = Some ("{" ++ b ++ "}")%string /\
            every Re.dot b = true /\
            forall u v, rest = (u ++ "}" ++ v)%string -> every Re.dot u = false.
Proof.
  unfold Re.group1, Re.seq. intros H.
  apply lit_split in H as (t1 & -> & H).
  apply star_longest in H as (b & t2 & -> & Hb & H & Hmax).
  apply lit_split in H as (t3 & -> & H).
  injection H as -> <-. cbn [Re.g1].
  exists b. split; [reflexivity|]. split; [|split; [exact Hb|]].
  - f_equal.
    replace (String "{" (b ++ String "}" rest))
      with (("{" ++ b ++ "}") ++ rest)%string
      by (cbn [append]; rewrite append_assoc; reflexivity).
    apply consumed_append.
  - intros u v -> . destruct (every Re.dot u) eqn:Hu; [|reflexivity].
    specialize (Hmax "}"%char u ("}" ++ v)%string eq_refl).
    cbn [every] in Hmax. rewrite Hu in Hmax. specialize (Hmax eq_refl).
    rewrite lit_prefix in Hmax. discriminate.
Qed.

(** Where a line has a brace and later a closing brace, group 1 matches. *)
Lemma json_group_matches (b rest : string) (c0 : Re.caps) :
  every Re.dot b = true ->
  Re.group1 (Re.seq (Re.lit "{") (Re.seq (Re.star Re.dot) (Re.lit "}")))
    ("{" ++ b ++ "}" ++ rest)%string c0 (fun rest0 c1 => Some (rest0, c1)) <> None.
Proof.
  intros Hb. unfold Re.group1, Re.seq. rewrite lit_prefix. intros H.
  pose proof (star_none _ _ _ _ H b ("}" ++ rest)%string eq_refl Hb) as Hk.
  cbv beta in Hk. rewrite lit_prefix in Hk. discriminate.
Qed.

Lemma every_of_positions (p : ascii -> bool) (a : string) :
  (forall u x v, a = (u ++ String x v)%string -> p x = true) -> every p a = true.
Proof.
  induction a as [|y a IH]; intros H; [reflexivity|].
  cbn [every]. rewrite (H "" y a eq_refl). apply IH.
  intros u x v ->. exact (H (String y u) x v eq_refl).
Qed.

(** X21. What [scrap_json] returns is cut out of one line of the page: it
    starts at the first brace after [new AudioPage(] and runs to the last
    closing brace of that line, so it takes in whatever follows the JSON
    object on its line up to a later closing brace. *)
Theorem scrap_json_runs_to_the_last_brace_of_the_line (html_page g : string) :
  scrap_json html_page = Ok g ->
  exists pre a b rest,
    html_page = (pre ++ "new AudioPage(" ++ a ++ "{" ++ b ++ "}" ++ rest)%string
    /\ g = ("{" ++ b ++ "}")%string
    /\ every Re.dot a = true
    /\ every (fun x => negb (Ascii.eqb x "{")) a = true
    /\ every Re.dot b = true
    /\ forall u v, rest = (u ++ "}" ++ v)%string -> every Re.dot u = false.
Proof.
  unfold scrap_json.
  destruct (re_search find_json_pattern html_page) as [c|] eqn:Hs; [|discriminate].
  destruct (Re.g1 c) as [g'|] eqn:Hg; [|discriminate]. intros [= ->].
  apply re_search_split in Hs as (pre & s' & rest & -> & Hm).
  unfold Re.match_at, find_json_pattern in Hm. unfold Re.seq at 1 in Hm.
  apply lit_split in Hm as (t & -> & Hm).
  unfold Re.seq at 1 in Hm.
  apply lazy_star_shortest in Hm as (a & t' & -> & Ha & Hk & Hmin).
  apply json_group in Hk as (b & -> & Hg1 & Hb & Hlast).
  exists pre, a, b, rest.
  split; [reflexivity|]. split; [congruence|]. split; [exact Ha|].
  split; [|split; [exact Hb|exact Hlast]].
  apply every_of_positions. intros u x v ->.
  destruct (Ascii.eqb x "{") eqn:Hx; [|reflexivity]. exfalso.
  apply Ascii.eqb_eq in Hx as ->.
  rewrite every_app in Ha. apply andb_true_iff in Ha as [_ Hv].
  cbn [every] in Hv. apply andb_true_iff in Hv as [_ Hv].
  specialize (Hmin u "{"%char v eq_refl).
  refine (json_group_matches (v ++ "{" ++ b) rest Re.no_caps _ _).
  - rewrite every_app. cbn [append every]. rewrite Hv, Hb. reflexivity.
  - rewrite <- Hmin. f_equal.
    cbn [append]. f_equal. rewrite append_assoc. reflexivity.
Qed.

Lemma scrap_json_witness :
  exists pre a b rest,
    "var p = new AudioPage(el, {k: {}}, 1); } x"
    = (pre ++ "new AudioPage(" ++ a ++ "{" ++ b ++ "}" ++ rest)%string
    /\ "{k: {}}, 1); }" = ("{" ++ b ++ "}")%string
    /\ every Re.dot a = true
    /\ every (fun x => negb (Ascii.eqb x "{")) a = true
    /\ every Re.dot b = true
    /\ forall u v, rest = (u ++ "}" ++ v)%string -> every Re.dot u = false.
Proof.
  apply (scrap_json_runs_to_the_last_brace_of_the_line
           "var p = new AudioPage(el, {k: {}}, 1); } x" "{k: {}}, 1); }").
  reflexivity.
Defined.
